(** * ID3 decision-tree learner ([treehe1.py]): model and verified properties

    The development embeds the functions of [treehe1.py] as Rocq functions.
    Python values that reach the learner are strings (the printer
    concatenates them), examples are lists of strings, the feature table is a
    dictionary kept in insertion order, Python floats are IEEE binary64
    numbers (Rocq's primitive floats), and an exception is an explicit
    [Raise] result. *)

From Stdlib Require Import ZArith List String Bool Lia Permutation.
From Stdlib Require Import Floats.PrimFloat.
From Stdlib Require Import Floats.FloatAxioms Floats.SpecFloat Floats.FloatOps.
From Stdlib Require Import Reals Lra.
Import ListNotations.

(** * The program *)

(** ** Exceptions and results *)

Inductive exn : Set :=
| ValueError
| IndexError
| KeyError
| ZeroDivisionError.

(** [LookupError] is the common base class of [KeyError] and [IndexError]. *)
Definition is_LookupError (e : exn) : bool :=
  match e with
  | KeyError | IndexError => true
  | ValueError | ZeroDivisionError => false
  end.

Inductive result (A : Type) : Type :=
| Ok (a : A)
| Raise (e : exn).

Arguments Ok {A} a.
Arguments Raise {A} e.

Definition bind {A B : Type} (m : result A) (f : A -> result B) : result B :=
  match m with
  | Ok a => f a
  | Raise e => Raise e
  end.

Declare Scope result_scope.
Delimit Scope result_scope with result.
Notation "x <- m ;; k" := (bind m (fun x => k))
  (at level 61, m at next level, right associativity) : result_scope.

(** A loop whose body may raise: the first exception aborts the loop. *)
Fixpoint for_each {A S : Type} (body : S -> A -> result S) (l : list A) (s : S)
  : result S :=
  match l with
  | [] => Ok s
  | x :: l' => bind (body s x) (for_each body l')
  end.

(** A list comprehension whose element expression may raise. *)
Fixpoint comprehension {A B : Type} (f : A -> result B) (l : list A)
  : result (list B) :=
  match l with
  | [] => Ok []
  | x :: l' => bind (f x) (fun y => bind (comprehension f l') (fun ys => Ok (y :: ys)))
  end.

(** ** Python sequences and dictionaries *)

(** [l[i]]: a negative index counts from the end, an index out of range
    raises [IndexError]. *)
Definition py_index {A : Type} (l : list A) (i : Z) : result A :=
  let n := Z.of_nat (List.length l) in
  let j := (if i <? 0 then n + i else i)%Z in
  if ((0 <=? j) && (j <? n))%Z
  then match nth_error l (Z.to_nat j) with
       | Some x => Ok x
       | None => Raise IndexError
       end
  else Raise IndexError.

(** A dictionary, in insertion order. *)
Definition dict (K V : Type) : Type := list (K * V).

Section Dict.
Variables K V : Type.
Variable eqb : K -> K -> bool.

Definition dict_keys (d : dict K V) : list K := map fst d.

(** [d[k]], [KeyError] on a missing key. *)
Fixpoint dict_get (d : dict K V) (k : K) : result V :=
  match d with
  | [] => Raise KeyError
  | (k', v) :: d' => if eqb k' k then Ok v else dict_get d' k
  end.

(** [d[k] = v]: an existing key keeps its place, a new key goes last. *)
Fixpoint dict_set (d : dict K V) (k : K) (v : V) : dict K V :=
  match d with
  | [] => [(k, v)]
  | (k', v') :: d' =>
      if eqb k' k then (k', v) :: d' else (k', v') :: dict_set d' k v
  end.

(** [d.pop(k)] on a copy of [d]: the dictionary without [k], [KeyError] on
    a missing key. *)
Fixpoint dict_pop (d : dict K V) (k : K) : result (dict K V) :=
  match d with
  | [] => Raise KeyError
  | (k', v) :: d' =>
      if eqb k' k then Ok d'
      else bind (dict_pop d' k) (fun r => Ok ((k', v) :: r))
  end.
End Dict.

Arguments dict_keys {K V} d.
Arguments dict_get {K V} eqb d k.
Arguments dict_set {K V} eqb d k v.
Arguments dict_pop {K V} eqb d k.

(** ** Values, examples and what the interpreter leaves open *)

Definition value : Set := string.
Definition example : Set := list value.

(** The source does not determine two things: the order in which a [set]
    is iterated, and the values of the C library's natural logarithm behind
    [math.log].  Both are fields of the platform. *)
Class Platform : Type := {
  libm_log : float -> float;
  set_order : list value -> list value;
  set_order_NoDup : forall l, NoDup (set_order l);
  set_order_In : forall l x, In x (set_order l) <-> In x l
}.

(** ** Floating-point helpers *)

Fixpoint float_of_positive (p : positive) : float :=
  match p with
  | xH => 1
  | xO q => 2 * float_of_positive q
  | xI q => 2 * float_of_positive q + 1
  end%float.

(** [float(n)] for a length or a count; exact below 2^53. *)
Definition float_of_nat (n : nat) : float :=
  match N.of_nat n with
  | N0 => 0%float
  | Npos p => float_of_positive p
  end.

(** [a / b] on floats raises on a zero divisor. *)
Definition py_truediv (a b : float) : result float :=
  if (b =? 0)%float then Raise ZeroDivisionError else Ok (a / b)%float.

Section Learner.
Context {P : Platform}.
Open Scope result_scope.

(** [math.log(x, base)]: each logarithm raises [ValueError] outside its
    domain, and the quotient is a float division. *)
Definition m_log (x : float) : result float :=
  if (x <=? 0)%float then Raise ValueError else Ok (libm_log x).

Definition math_log (x base : float) : result float :=
  num <- m_log x ;;
  den <- m_log base ;;
  py_truediv num den.

(** [[example[-1] for example in examples]] *)
Definition class_labels (examples : list example) : result (list value) :=
  comprehension (fun ex : example => py_index ex (-1)) examples.

(** [classes.count(c)] *)
Definition count (classes : list value) (c : value) : nat :=
  count_occ string_dec classes c.

(** [max(s, key = k)]: the first element, in iteration order, whose key
    no other element exceeds; [ValueError] on an empty sequence. *)
Definition py_max (key : value -> nat) (s : list value) : result value :=
  match s with
  | [] => Raise ValueError
  | x :: s' =>
      Ok (fold_left (fun best y => if key best <? key y then y else best) s' x)
  end.

(** [majority_class] (lines 48-50): the labels are collected first, then
    [max] runs over their set. *)
Definition majority_class (examples : list example) : result value :=
  classes <- class_labels examples ;;
  py_max (count classes) (set_order classes).

(** [same_class] (lines 52-54): [len(set(classes)) == 1]. *)
Definition same_class (examples : list example) : result bool :=
  classes <- class_labels examples ;;
  Ok (List.length (set_order classes) =? 1).

(** [list(filter(lambda example: example[feature_index] == feature_value,
    examples))] *)
Fixpoint filter_examples (examples : list example) (feature_index : Z)
    (feature_value : value) : result (list example) :=
  match examples with
  | [] => Ok []
  | ex :: rest =>
      x <- py_index ex feature_index ;;
      kept <- filter_examples rest feature_index feature_value ;;
      Ok (if String.eqb x feature_value then ex :: kept else kept)
  end.

(** [entropy] (lines 75-85). *)
Definition entropy (examples : list example) : result float :=
  classes <- class_labels examples ;;
  let classes_set := set_order classes in
  let class_counts := map (count classes) classes_set in
  let class_sum := list_sum class_counts in
  for_each
    (fun e class_count =>
       if 0 <? class_count then
         class_frac <- py_truediv (float_of_nat class_count) (float_of_nat class_sum) ;;
         lg <- math_log class_frac 2 ;;
         Ok (e + (-1) * class_frac * lg)%float
       else Ok e)
    class_counts 0%float.

(** The feature table: the set of values of each feature index. *)
Definition features_t : Type := dict Z (list value).

(** [split_entropy] (lines 67-73): the weight is computed before the
    entropy of the partition. *)
Definition split_entropy (feature_index : Z) (features : features_t)
    (examples : list example) : result float :=
  domain <- dict_get Z.eqb features feature_index ;;
  for_each
    (fun se feature_value =>
       split_examples <- filter_examples examples feature_index feature_value ;;
       weight <- py_truediv (float_of_nat (List.length split_examples))
                            (float_of_nat (List.length examples)) ;;
       h <- entropy split_examples ;;
       Ok (se + weight * h)%float)
    domain 0%float.

(** The loop of [best_feature], from a given pair of best index and best
    entropy. *)
Definition best_feature_from (features : features_t) (examples : list example)
    (keys : list Z) (start : Z * float) : result (Z * float) :=
  for_each
    (fun (best : Z * float) feature_index =>
       se <- split_entropy feature_index features examples ;;
       Ok (if (se <? snd best)%float then (feature_index, se) else best))
    keys start.

(** [best_feature] (lines 56-65): the loop starts from index -1 and
    entropy 2.0 and runs over the keys in insertion order. *)
Definition best_feature (features : features_t) (examples : list example)
    : result Z :=
  best <- best_feature_from features examples (dict_keys features) ((-1)%Z, 2%float) ;;
  Ok (fst best).

(** ** The tree *)

(** [split_feature] is -1 on a leaf; a child is a node or [None]. *)
#[warnings="-register-all"]
Inductive TreeNode : Type :=
| mkTreeNode (split_feature : Z)
             (children : dict value (option TreeNode))
             (node_majority_class : value).

Definition split_feature (t : TreeNode) : Z :=
  match t with mkTreeNode sf _ _ => sf end.
Definition children (t : TreeNode) : dict value (option TreeNode) :=
  match t with mkTreeNode _ ch _ => ch end.
Definition node_majority_class (t : TreeNode) : value :=
  match t with mkTreeNode _ _ mc => mc end.

(** The recursion of [build_tree_1] is on the feature table, which loses
    a key at each level; the model recurses on a bound [fuel] instead and
    answers [None] when the bound is used up.  [build_tree] starts it with
    more fuel than there are features, which is always enough
    ([build_tree_1_fuel] below). *)
Definition builder (A : Type) : Type := option (result A).

Definition bbind {A B : Type} (m : builder A) (f : A -> builder B) : builder B :=
  match m with
  | Some (Ok a) => f a
  | Some (Raise e) => Some (Raise e)
  | None => None
  end.

Notation "x <-- m ;; k" := (bbind m (fun x => k))
  (at level 61, m at next level, right associativity).

(** The loop over the values of the chosen feature: [rec] is the recursive
    call at the remaining features. *)
Fixpoint build_children (rec : list example -> builder TreeNode)
    (examples : list example) (best_feature_index : Z)
    (domain : list value) (acc : dict value (option TreeNode))
    : builder (dict value (option TreeNode)) :=
  match domain with
  | [] => Some (Ok acc)
  | feature_value :: domain' =>
      split_examples <--
        Some (filter_examples examples best_feature_index feature_value) ;;
      child <-- rec split_examples ;;
      build_children rec examples best_feature_index domain'
        (dict_set String.eqb acc feature_value (Some child))
  end.

(** [build_tree_1] (lines 30-46). *)
Fixpoint build_tree_1 (fuel : nat) (examples : list example)
    (features : features_t) : builder TreeNode :=
  match fuel with
  | O => None
  | S fuel' =>
      majClass <-- Some (majority_class examples) ;;
      same <-- Some (same_class examples) ;;
      if same : bool then Some (Ok (mkTreeNode (-1) [] majClass))
      else
        match features with
        | [] => Some (Ok (mkTreeNode (-1) [] majClass))
        | _ :: _ =>
            best_feature_index <-- Some (best_feature features examples) ;;
            remaining_features <--
              Some (dict_pop Z.eqb features best_feature_index) ;;
            domain <-- Some (dict_get Z.eqb features best_feature_index) ;;
            kids <--
              build_children
                (fun split_examples =>
                   build_tree_1 fuel' split_examples remaining_features)
                examples best_feature_index domain [] ;;
            Some (Ok (mkTreeNode best_feature_index kids majClass))
        end
  end.

(** The feature table of [build_tree]: for each index of [range(n)], the
    set of the values of that column. *)
Definition collect_features (examples : list example) (n : nat)
    : result features_t :=
  for_each
    (fun (features : features_t) (i : nat) =>
       column <- comprehension
                   (fun ex : example => py_index ex (Z.of_nat i)) examples ;;
       Ok (dict_set Z.eqb features (Z.of_nat i) (set_order column)))
    (seq 0 n) [].

(** [build_tree] (lines 21-28). *)
Definition build_tree (examples : list example) : builder (option TreeNode) :=
  match examples with
  | [] => Some (Ok None)
  | first :: _ =>
      features <-- Some (collect_features examples (List.length first - 1)) ;;
      tree <-- build_tree_1 (S (List.length features)) examples features ;;
      Some (Ok (Some tree))
  end.

(** [classify] (lines 105-112); the lookup [tree_node.children[...]] is the
    inner loop ([classify_unfold] below gives it with [dict_get]). *)
Fixpoint classify (tree_node : TreeNode) (instance : list value)
    : result value :=
  match tree_node with
  | mkTreeNode sf kids majClass =>
      if (sf =? -1)%Z then Ok majClass
      else
        x <- py_index instance sf ;;
        (fix lookup (d : dict value (option TreeNode)) : result value :=
           match d with
           | [] => Raise KeyError
           | (k, child_node) :: d' =>
               if String.eqb k x then
                 match child_node with
                 | Some child => classify child instance
                 | None => Ok majClass
                 end
               else lookup d'
           end) kids
  end.
End Learner.

(** ** The printer *)

(** What a call has printed, line by line, and how it ended: lines printed
    before an exception stay printed. *)
Definition printed : Type := list string * result unit.

Definition print_line (line : result string) : printed :=
  match line with
  | Ok s => ([s], Ok tt)
  | Raise e => ([], Raise e)
  end.

Definition pthen (p : printed) (k : unit -> printed) : printed :=
  match p with
  | (out, Ok u) => let (out', r) := k u in (out ++ out', r)
  | (out, Raise e) => (out, Raise e)
  end.

(** [n * s] for a string [s]: empty when [n] is not positive. *)
Definition py_repeat (n : Z) (s : string) : string :=
  String.concat "" (repeat s (Z.to_nat n)).

(** [print_tree] (lines 91-103).  The loop runs over the entries of the
    child dictionary in insertion order; [tree_node.children[feature_value]]
    is the value of the entry the loop is at. *)
Fixpoint print_tree (tree_node : TreeNode) (feature_names : list string)
    (depth : Z) : printed :=
  match tree_node with
  | mkTreeNode sf kids majClass =>
      let indent_space := py_repeat depth "  " in
      if (sf =? -1)%Z then
        print_line
          (bind (py_index feature_names (-1)) (fun name =>
           Ok (indent_space ++ name ++ ": " ++ majClass)%string))
      else
        (fix loop (d : dict value (option TreeNode)) : printed :=
           match d with
           | [] => ([], Ok tt)
           | (feature_value, child_node) :: d' =>
               pthen
                 (print_line
                    (bind (py_index feature_names sf) (fun name =>
                     Ok (indent_space ++ name ++ " == " ++ feature_value)%string)))
                 (fun _ =>
                    pthen
                      match child_node with
                      | Some child => print_tree child feature_names (depth + 1)
                      | None =>
                          print_line
                            (bind (py_index feature_names (-1)) (fun name =>
                             Ok (indent_space ++ "  " ++ name ++ ": " ++ majClass)%string))
                      end
                      (fun _ => loop d'))
           end) kids
  end.

(** ** A reference platform

    Sets iterate in the order [nodup] leaves, and the logarithm is computed
    from the binary exponent and an [atanh] series on the mantissa. *)

Definition ln2 : float := 0x1.62e42fefa39efp-1%float.

Fixpoint atanh_series (n : nat) (s2 term : float) (k : float) : float :=
  match n with
  | O => 0%float
  | S n' => (term / k + atanh_series n' s2 (term * s2) (k + 2))%float
  end.

Definition ref_log (x : float) : float :=
  let (m, se) := frshiftexp x in
  let e := (of_uint63 se - 2101)%float in
  let (m, e) := if (m <? 0x1.6a09e667f3bcdp-1)%float
                then ((2 * m)%float, (e - 1)%float) else (m, e) in
  let s := ((m - 1) / (m + 1))%float in
  (e * ln2 + 2 * atanh_series 14 (s * s) s 1)%float.

#[export] Instance reference_platform : Platform := {
  libm_log := ref_log;
  set_order := nodup string_dec;
  set_order_NoDup := NoDup_nodup string_dec;
  set_order_In := fun l x => nodup_In string_dec l x
}.


(** * Vocabulary of the statements *)

(** ** Walking a tree *)

(** The nodes [classify] visits: the root, then the child under the
    instance's value, as long as there is one. *)
Inductive reaches (instance : list value) : TreeNode -> TreeNode -> Prop :=
| reaches_here t : reaches instance t t
| reaches_child t x child n :
    split_feature t <> (-1)%Z ->
    py_index instance (split_feature t) = Ok x ->
    dict_get String.eqb (children t) x = Ok (Some child) ->
    reaches instance child n ->
    reaches instance t n.

(** An internal node none of whose keys is the instance's value for the
    split feature (an instance too short to have that value included). *)
Definition lookup_fails (instance : list value) (n : TreeNode) : Prop :=
  split_feature n <> (-1)%Z /\
  forall k, In k (dict_keys (children n)) ->
            py_index instance (split_feature n) <> Ok k.

(** [node_at examples t exn n]: [n] is a node of the tree [t] built from
    [examples], and [exn] are the examples that reached [n], that is
    [examples] filtered by the feature values on the path to [n]. *)
Inductive node_at
  : list example -> TreeNode -> list example -> TreeNode -> Prop :=
| node_root examples t : node_at examples t examples t
| node_child examples t v child sub exn n :
    In (v, Some child) (children t) ->
    filter_examples examples (split_feature t) v = Ok sub ->
    node_at sub child exn n ->
    node_at examples t exn n.

(** [observed exn f v]: some example of [exn] has value [v] for feature [f]. *)
Definition observed (exn : list example) (f : Z) (v : value) : Prop :=
  exists ex, In ex exn /\ py_index ex f = Ok v.

(** The number of split nodes on the longest path from the root. *)
Fixpoint depth (t : TreeNode) : nat :=
  match t with
  | mkTreeNode _ kids _ =>
      match kids with
      | [] => 0
      | _ :: _ =>
          S ((fix deepest (l : dict value (option TreeNode)) : nat :=
                match l with
                | [] => 0
                | (_, Some c) :: l' => Nat.max (depth c) (deepest l')
                | (_, None) :: l' => deepest l'
                end) kids)
      end
  end.

(** The deepest child, with the depth of a child given by [f]. *)
Fixpoint deepest_child (f : TreeNode -> nat) (l : dict value (option TreeNode))
  : nat :=
  match l with
  | [] => 0
  | (_, Some c) :: l' => Nat.max (f c) (deepest_child f l')
  | (_, None) :: l' => deepest_child f l'
  end.

(** [subtree t n]: [n] is [t] or a node below it. *)
Inductive subtree : TreeNode -> TreeNode -> Prop :=
| subtree_here t : subtree t t
| subtree_below t v c n :
    In (v, Some c) (children t) -> subtree c n -> subtree t n.

(** [consumes features t]: [t] reads as built from the feature table
    [features]; at each internal node, popping the split feature leaves a
    table with exactly that key removed, and every child is built from the
    table that is left. *)
Inductive consumes : features_t -> TreeNode -> Prop :=
| consumes_leaf features t :
    split_feature t = (-1)%Z -> children t = [] -> consumes features t
| consumes_node features t remaining :
    dict_pop Z.eqb features (split_feature t) = Ok remaining ->
    Permutation (dict_keys features) (split_feature t :: dict_keys remaining) ->
    ~ In (split_feature t) (dict_keys remaining) ->
    (forall v c, In (v, Some c) (children t) -> consumes remaining c) ->
    consumes features t.

(** ** One call of the builder *)

Section BuilderVocabulary.
Context {P : Platform}.

Definition domains_NoDup (features : features_t) : Prop :=
  forall k dom, In (k, dom) features -> NoDup dom.

Definition features_ok (features : features_t) : Prop :=
  NoDup (dict_keys features) /\ domains_NoDup features.

(** What [build_tree_1] did when it returned an internal node. *)
Definition split_step (fuel : nat) (examples : list example)
    (features : features_t) (t : TreeNode) : Prop :=
  same_class examples = Ok false /\
  features <> [] /\
  exists remaining domain,
    best_feature features examples = Ok (split_feature t) /\
    dict_pop Z.eqb features (split_feature t) = Ok remaining /\
    dict_get Z.eqb features (split_feature t) = Ok domain /\
    dict_keys (children t) = domain /\
    (forall v, In v domain -> exists c, In (v, Some c) (children t)) /\
    (forall v o, In (v, o) (children t) ->
       exists c sub,
         o = Some c /\
         filter_examples examples (split_feature t) v = Ok sub /\
         build_tree_1 fuel sub remaining = Some (Ok c)).

Definition leaf_step (examples : list example) (features : features_t)
    (t : TreeNode) : Prop :=
  split_feature t = (-1)%Z /\ children t = [] /\
  (same_class examples = Ok true \/
   (same_class examples = Ok false /\ features = [])).

End BuilderVocabulary.

(** ** Training data *)

(** The number of feature columns [build_tree] reads:
    [len(examples[0]) - 1], and none when that is negative. *)
Definition n_features (examples : list example) : nat :=
  List.length (hd [] examples) - 1.

(** Two rows with the same value at each of the first [N] indexes. *)
Definition same_features (N : nat) (e1 e2 : example) : Prop :=
  forall i, i < N -> py_index e1 (Z.of_nat i) = py_index e2 (Z.of_nat i).

(** Examples no feature tells apart. *)
Definition indistinguishable (N : nat) (exn : list example) : Prop :=
  forall e1 e2, In e1 exn -> In e2 exn -> same_features N e1 e2.

(** A data set in which equal features come with equal labels. *)
Definition consistent (examples : list example) : Prop :=
  forall e1 e2, In e1 examples -> In e2 examples ->
    same_features (n_features examples) e1 e2 ->
    py_index e1 (-1) = py_index e2 (-1).

(** The part of the collected table that a call of [build_tree_1] on the
    examples [exs] works with: distinct keys that are feature indexes below
    [N], and domains without repetition that hold the value every example
    has for their feature. *)
Definition table_ok (N : nat) (exs : list example) (fs : features_t) : Prop :=
  features_ok fs /\
  (forall k, In k (dict_keys fs) -> exists i, i < N /\ k = Z.of_nat i) /\
  (forall k dom e, In (k, dom) fs -> In e exs ->
     exists v, py_index e k = Ok v /\ In v dom).

(** The examples agree on every feature index that is no longer a key. *)
Definition settled (N : nat) (exs : list example) (fs : features_t) : Prop :=
  forall i, i < N -> ~ In (Z.of_nat i) (dict_keys fs) ->
    forall e1 e2, In e1 exs -> In e2 exs ->
      py_index e1 (Z.of_nat i) = py_index e2 (Z.of_nat i).

(** A table with an empty row, or with a row that has fewer entries than
    there are feature columns. *)
Definition ragged (examples : list example) : Prop :=
  exists e, In e examples /\
            (e = [] \/ List.length e < n_features examples).

(** An [IndexError] of the learner comes from an empty row or from a row
    without the feature index that is looked at. *)
Definition index_fault (examples : list example) (keys : list Z) : Prop :=
  In [] examples \/
  exists k ex, In k keys /\ In ex examples /\
               py_index ex k = Raise IndexError.

(** The test of [filter_examples]: the example has value [v] at index [f]. *)
Definition has_value (f : Z) (v : value) (ex : example) : bool :=
  match py_index ex f with
  | Ok x => String.eqb x v
  | Raise _ => false
  end.

(** The number of leaves of a tree: nodes without children. *)
Fixpoint leaves (t : TreeNode) : nat :=
  match t with
  | mkTreeNode _ kids _ =>
      match kids with
      | [] => 1
      | _ :: _ =>
          (fix sum (l : dict value (option TreeNode)) : nat :=
             match l with
             | [] => 0
             | (_, Some c) :: l' => leaves c + sum l'
             | (_, None) :: l' => sum l'
             end) kids
      end
  end.

(** The sum over the children, with the count of a child given by [f]. *)
Fixpoint sum_children (f : TreeNode -> nat) (l : dict value (option TreeNode))
  : nat :=
  match l with
  | [] => 0
  | (_, Some c) :: l' => f c + sum_children f l'
  | (_, None) :: l' => sum_children f l'
  end.

(** ** The entropy formulas over an arithmetic

    [entropy] and [split_entropy] evaluate their formulas in double
    arithmetic.  [entropy_with] and [split_entropy_with] are the same two
    functions with the arithmetic as a parameter: the numbers, the constants
    0.0 and -1.0, the sum, the product, the conversion [float(n)], the
    division and [math.log(x, 2.0)].  At [float_arith] they are [entropy]
    and [split_entropy] themselves ([entropy_float_arith] and
    [split_entropy_float_arith] below); at [real_arith] every operation is
    the one on real numbers, with [ln] for the logarithm. *)

Record arith (F : Type) : Type := {
  a_zero : F;
  a_minus_one : F;
  a_add : F -> F -> F;
  a_mul : F -> F -> F;
  a_of_nat : nat -> F;
  a_div : F -> F -> result F;
  a_log2 : F -> result F
}.

Arguments a_zero {F} a.
Arguments a_minus_one {F} a.
Arguments a_add {F} a x y.
Arguments a_mul {F} a x y.
Arguments a_of_nat {F} a n.
Arguments a_div {F} a x y.
Arguments a_log2 {F} a x.

Section ExactVocabulary.
Context {P : Platform}.
Local Open Scope R_scope.
Local Open Scope result_scope.

Definition Rsum {A : Type} (g : A -> R) (l : list A) : R :=
  fold_right (fun x acc => g x + acc) 0 l.

Definition py_truediv_exact (a b : R) : result R :=
  if Req_dec_T b 0 then Raise ZeroDivisionError else Ok (a / b).

Definition m_log_exact (x : R) : result R :=
  if Rle_dec x 0 then Raise ValueError else Ok (ln x).

Definition math_log_exact (x base : R) : result R :=
  num <- m_log_exact x ;;
  den <- m_log_exact base ;;
  py_truediv_exact num den.

(** [entropy] (lines 75-85) over the arithmetic [A]. *)
Definition entropy_with {F : Type} (A : arith F) (examples : list example)
    : result F :=
  classes <- class_labels examples ;;
  let classes_set := set_order classes in
  let class_counts := map (count classes) classes_set in
  let class_sum := list_sum class_counts in
  for_each
    (fun e class_count =>
       if (0 <? class_count)%nat then
         class_frac <- a_div A (a_of_nat A class_count) (a_of_nat A class_sum) ;;
         lg <- a_log2 A class_frac ;;
         Ok (a_add A e (a_mul A (a_mul A (a_minus_one A) class_frac) lg))
       else Ok e)
    class_counts (a_zero A).

(** [split_entropy] (lines 67-73) over the arithmetic [A]. *)
Definition split_entropy_with {F : Type} (A : arith F) (feature_index : Z)
    (features : features_t) (examples : list example) : result F :=
  domain <- dict_get Z.eqb features feature_index ;;
  for_each
    (fun se feature_value =>
       split_examples <- filter_examples examples feature_index feature_value ;;
       weight <- a_div A (a_of_nat A (List.length split_examples))
                         (a_of_nat A (List.length examples)) ;;
       h <- entropy_with A split_examples ;;
       Ok (a_add A se (a_mul A weight h)))
    domain (a_zero A).

(** The arithmetic of the source: IEEE doubles, [float(n)], [/] and
    [math.log(x, 2.0)]. *)
Definition float_arith : arith float := {|
  a_zero := 0%float;
  a_minus_one := (-1)%float;
  a_add := PrimFloat.add;
  a_mul := PrimFloat.mul;
  a_of_nat := float_of_nat;
  a_div := py_truediv;
  a_log2 := fun x => math_log x 2%float
|}.

(** The arithmetic of the real numbers. *)
Definition real_arith : arith R := {|
  a_zero := 0;
  a_minus_one := -1;
  a_add := Rplus;
  a_mul := Rmult;
  a_of_nat := INR;
  a_div := py_truediv_exact;
  a_log2 := fun x => math_log_exact x 2
|}.

(** An arithmetic is exact, for a reading [phi] of its numbers as real
    numbers, when no operation rounds: each one returns the number that
    reads as the result of the operation on the real numbers. *)
Definition exact_arith {F : Type} (A : arith F) (phi : F -> R) : Prop :=
  phi (a_zero A) = 0 /\
  phi (a_minus_one A) = -1 /\
  (forall x y, phi (a_add A x y) = phi x + phi y) /\
  (forall x y, phi (a_mul A x y) = phi x * phi y) /\
  (forall n, phi (a_of_nat A n) = INR n) /\
  (forall x y z, a_div A x y = Ok z -> phi z = phi x / phi y) /\
  (forall x z, a_log2 A x = Ok z -> phi z = ln (phi x) / ln 2).

(** The Shannon entropy, in bits, of the labels [classes], summed over the
    labels of [S]. *)
Definition shannon (S classes : list value) : R :=
  Rsum (fun c =>
          - (INR (count classes c) / INR (List.length classes)) *
          (ln (INR (count classes c) / INR (List.length classes)) / ln 2))
       S.

End ExactVocabulary.

(** ** Pairs of a feature value and a label *)

Definition pair_dec (x y : value * value) : {x = y} + {x <> y}.
Proof. decide equality; apply string_dec. Defined.

Arguments pair_dec : simpl never.

(** The numbers of pairs of [L] with a given first component, second
    component, and both. *)
Definition cv (L : list (value * value)) (v : value) : nat :=
  count_occ string_dec (map fst L) v.

Definition cl (L : list (value * value)) (l : value) : nat :=
  count_occ string_dec (map snd L) l.

Definition cp (L : list (value * value)) (p : value * value) : nat :=
  count_occ pair_dec L p.

(** The pairs whose first component is [v]. *)
Definition part (L : list (value * value)) (v : value) : list (value * value) :=
  filter (fun p : value * value => String.eqb (fst p) v) L.

(** ** Example tables *)

Section ExampleTables.
Local Open Scope string_scope.

Definition demo_examples : list example :=
  [ ["Red"; "Sports"; "Domestic"; "Yes"];
    ["Red"; "Sports"; "Domestic"; "No"];
    ["Red"; "Sports"; "Domestic"; "Yes"];
    ["Yellow"; "Sports"; "Domestic"; "No"];
    ["Yellow"; "Sports"; "Imported"; "Yes"];
    ["Yellow"; "SUV"; "Imported"; "No"];
    ["Yellow"; "SUV"; "Imported"; "Yes"];
    ["Yellow"; "SUV"; "Domestic"; "No"];
    ["Red"; "SUV"; "Imported"; "No"];
    ["Red"; "Sports"; "Imported"; "Yes"] ]%string.

Definition leaf (label : value) : TreeNode := mkTreeNode (-1) [] label.

(** The tree the script prints: the root splits on feature 1 ([Type]). *)
Definition demo_tree : TreeNode :=
  mkTreeNode 1
    [ ("SUV",
       Some (mkTreeNode 0
               [ ("Yellow",
                  Some (mkTreeNode 2
                          [ ("Domestic", Some (leaf "No"));
                            ("Imported", Some (leaf "No")) ] "No"));
                 ("Red", Some (leaf "No")) ] "No"));
      ("Sports",
       Some (mkTreeNode 2
               [ ("Domestic",
                  Some (mkTreeNode 0
                          [ ("Yellow", Some (leaf "No"));
                            ("Red", Some (leaf "Yes")) ] "Yes"));
                 ("Imported", Some (leaf "Yes")) ] "Yes")) ]%string
    "No"%string.

(** The node under [Type == Sports] and the examples that reach it. *)
Definition sports_node : TreeNode :=
  mkTreeNode 2
    [ ("Domestic",
       Some (mkTreeNode 0
               [ ("Yellow", Some (leaf "No")); ("Red", Some (leaf "Yes")) ]
               "Yes"));
      ("Imported", Some (leaf "Yes")) ]%string
    "Yes"%string.

Definition sports_examples : list example :=
  [ ["Red"; "Sports"; "Domestic"; "Yes"];
    ["Red"; "Sports"; "Domestic"; "No"];
    ["Red"; "Sports"; "Domestic"; "Yes"];
    ["Yellow"; "Sports"; "Domestic"; "No"];
    ["Yellow"; "Sports"; "Imported"; "Yes"];
    ["Red"; "Sports"; "Imported"; "Yes"] ]%string.

(** A node with an empty marker under one value and a leaf under another. *)
Definition fallback_node : TreeNode :=
  mkTreeNode 0 [ ("Red", None); ("Yellow", Some (leaf "Yes")) ]%string "No"%string.

(** An input on which a feature value vanishes from a partition: both
    features take two values at the root, and among the examples with [a]
    for feature 0 the only value of feature 1 is [x]. *)
Definition vanish_examples : list example :=
  [ ["a"; "x"; "Yes"]; ["a"; "x"; "No"]; ["b"; "y"; "Yes"]; ["b"; "y"; "Yes"] ].

Definition vanish_subset : list example :=
  [ ["a"; "x"; "Yes"]; ["a"; "x"; "No"] ].

(** One feature with a single value, and eight examples with eight
    different labels. *)
Definition eight_classes : list example :=
  [ ["a"; "c1"]; ["a"; "c2"]; ["a"; "c3"]; ["a"; "c4"];
    ["a"; "c5"]; ["a"; "c6"]; ["a"; "c7"]; ["a"; "c8"] ].

(** Nine feature values, each with one [Yes] and one [No] example. *)
Definition nine_values : list example :=
  [ ["v1"; "Yes"]; ["v1"; "No"]; ["v2"; "Yes"]; ["v2"; "No"];
    ["v3"; "Yes"]; ["v3"; "No"]; ["v4"; "Yes"]; ["v4"; "No"];
    ["v5"; "Yes"]; ["v5"; "No"]; ["v6"; "Yes"]; ["v6"; "No"];
    ["v7"; "Yes"]; ["v7"; "No"]; ["v8"; "Yes"]; ["v8"; "No"];
    ["v9"; "Yes"]; ["v9"; "No"] ].

Definition nine_features : features_t :=
  [ (0%Z, ["v1"; "v2"; "v3"; "v4"; "v5"; "v6"; "v7"; "v8"; "v9"]) ].

(** A feature with one value on a two-example table, for the exact reading. *)
Definition two_examples : list example := [ ["a"; "Yes"]; ["a"; "No"] ].

End ExampleTables.

(** ** Further example tables *)

Section MoreExampleTables.
Local Open Scope string_scope.

(** A table without contradicting rows, and the tree built from it. *)
Definition weather_examples : list example :=
  [ ["Sunny"; "Hot"; "No"]; ["Sunny"; "Mild"; "Yes"];
    ["Rainy"; "Hot"; "Yes"]; ["Rainy"; "Mild"; "Yes"] ].

Definition weather_tree : TreeNode :=
  mkTreeNode 0
    [ ("Sunny",
       Some (mkTreeNode 1
               [ ("Hot", Some (leaf "No")); ("Mild", Some (leaf "Yes")) ]
               "No"));
      ("Rainy", Some (leaf "Yes")) ]
    "Yes".

(** The leaf of [demo_tree] under [Type == SUV], [Color == Red], and the
    examples that reach it. *)
Definition suv_red_examples : list example :=
  [ ["Red"; "SUV"; "Imported"; "No"] ].

(** The leaf under [Type == SUV], [Color == Yellow], [Origin == Imported],
    whose two examples differ in their label only. *)
Definition suv_yellow_imported : list example :=
  [ ["Yellow"; "SUV"; "Imported"; "No"]; ["Yellow"; "SUV"; "Imported"; "Yes"] ].

(** A table whose second row is too short. *)
Definition ragged_examples : list example :=
  [ ["Red"; "SUV"; "No"]; ["Red"; "Yes"] ].

(** A table whose rows all have the same label. *)
Definition pure_examples : list example :=
  [ ["Red"; "SUV"; "Yes"]; ["Yellow"; "Sports"; "Yes"] ].

Definition demo_names : list string := ["Color"; "Type"; "Origin"; "Stolen"].

(** The feature table [build_tree] collects from [demo_examples] on the
    reference platform. *)
Definition demo_features : features_t :=
  [ (0%Z, ["Yellow"; "Red"]); (1%Z, ["SUV"; "Sports"]);
    (2%Z, ["Domestic"; "Imported"]) ].

(** Seven examples with seven different labels. *)
Definition seven_classes : list example :=
  [ ["a"; "c1"]; ["a"; "c2"]; ["a"; "c3"]; ["a"; "c4"];
    ["a"; "c5"]; ["a"; "c6"]; ["a"; "c7"] ].

(** The feature table of [weather_examples] on the reference platform. *)
Definition weather_features : features_t :=
  [ (0%Z, ["Sunny"; "Rainy"]); (1%Z, ["Hot"; "Mild"]) ].

End MoreExampleTables.

(** * Lemmas and theorems *)

(** ** Basic facts about results, indexing and dictionaries *)

Lemma bind_Ok_inv {A B : Type} (m : result A) (f : A -> result B) (b : B) :
  bind m f = Ok b -> exists a, m = Ok a /\ f a = Ok b.
Proof.
  destruct m as [a|e]; simpl; intros H; [eauto | discriminate].
Qed.

Lemma py_index_raises {A : Type} (l : list A) (i : Z) (e : exn) :
  py_index l i = Raise e -> e = IndexError.
Proof.
  unfold py_index.
  destruct (_ && _); [destruct (nth_error _ _)|]; congruence.
Qed.

Lemma py_index_In {A : Type} (l : list A) (i : Z) (x : A) :
  py_index l i = Ok x -> In x l.
Proof.
  unfold py_index.
  destruct (_ && _); [|discriminate].
  destruct (nth_error _ _) eqn:E; [|discriminate].
  intros [= <-]. eapply nth_error_In; eassumption.
Qed.

Section DictFacts.
Variable V : Type.
Implicit Type d : dict value V.

Lemma dict_get_raises d k e :
  dict_get String.eqb d k = Raise e -> e = KeyError.
Proof.
  induction d as [|[k' v] d IH]; simpl; [congruence|].
  destruct (String.eqb k' k); [discriminate | exact IH].
Qed.

Lemma dict_get_Ok_In d k v :
  dict_get String.eqb d k = Ok v -> In (k, v) d.
Proof.
  induction d as [|[k' v'] d IH]; simpl; [discriminate|].
  destruct (String.eqb k' k) eqn:E.
  - apply String.eqb_eq in E. intros [= Hv]. subst. left. reflexivity.
  - intros H. right. auto.
Qed.

Lemma dict_get_Ok_key d k :
  In k (dict_keys d) <-> exists v, dict_get String.eqb d k = Ok v.
Proof.
  induction d as [|[k' v'] d IH]; simpl.
  - split; [tauto | intros [v H]; discriminate].
  - destruct (String.eqb k' k) eqn:E.
    + apply String.eqb_eq in E. split; eauto.
    + apply String.eqb_neq in E. rewrite <- IH. tauto.
Qed.

Lemma dict_get_KeyError d k :
  dict_get String.eqb d k = Raise KeyError <-> ~ In k (dict_keys d).
Proof.
  rewrite dict_get_Ok_key. split.
  - intros H [v Hv]. congruence.
  - intros H. destruct (dict_get String.eqb d k) as [v|e] eqn:E.
    + exfalso. eauto.
    + f_equal. eapply dict_get_raises; eassumption.
Qed.
End DictFacts.

(** ** Induction on trees through the child dictionary *)

Section TreeInduction.
Variable Pr : TreeNode -> Prop.
Hypothesis step :
  forall sf kids mc,
    (forall k c, In (k, Some c) kids -> Pr c) -> Pr (mkTreeNode sf kids mc).

Let some_child {k k' : value} {c c' : TreeNode}
    (e : (k', Some c') = (k, Some c)) : c' = c :=
  match e in _ = p return match snd p with Some x => c' = x | None => True end
  with eq_refl => eq_refl end.

Let no_child {k k' : value} {c : TreeNode}
    (e : (k', @None TreeNode) = (k, Some c)) : False :=
  match e in _ = p return match snd p with Some _ => False | None => True end
  with eq_refl => I end.

Fixpoint TreeNode_children_ind (t : TreeNode) : Pr t :=
  match t with
  | mkTreeNode sf kids mc =>
      step sf kids mc
        ((fix go (l : dict value (option TreeNode))
            : forall k c, In (k, Some c) l -> Pr c :=
            match l with
            | [] => fun k c (HIn : False) => False_ind _ HIn
            | (k', o) :: l' =>
                fun k c (HIn : (k', o) = (k, Some c) \/ In (k, Some c) l') =>
                  match HIn with
                  | or_introl e =>
                      match o as o' return (k', o') = (k, Some c) -> Pr c with
                      | Some c' =>
                          fun e' =>
                            eq_ind c' Pr (TreeNode_children_ind c') c
                                   (some_child e')
                      | None => fun e' => False_ind _ (no_child e')
                      end e
                  | or_intror i => go l' k c i
                  end
            end) kids)
  end.
End TreeInduction.

(** ** Classification *)

(** [classify] as the source reads: index the instance, look the value up,
    then recurse or fall back. *)
Lemma classify_unfold (t : TreeNode) (instance : list value) :
  classify t instance =
  if (split_feature t =? -1)%Z then Ok (node_majority_class t)
  else
    bind (py_index instance (split_feature t)) (fun x =>
    bind (dict_get String.eqb (children t) x) (fun child_node =>
    match child_node with
    | Some child => classify child instance
    | None => Ok (node_majority_class t)
    end)).
Proof.
  destruct t as [sf kids mc]; simpl.
  destruct (sf =? -1)%Z; [reflexivity|].
  destruct (py_index instance sf) as [x|e]; simpl; [|reflexivity].
  induction kids as [|[k o] kids IH]; simpl; [reflexivity|].
  destruct (String.eqb k x); [reflexivity | exact IH].
Qed.

Lemma reaches_leaf (instance : list value) (t n : TreeNode) :
  split_feature t = (-1)%Z -> reaches instance t n -> n = t.
Proof.
  intros Hleaf H. destruct H; [reflexivity | contradiction].
Qed.

Lemma lookup_fails_reached_iff (instance : list value) (t : TreeNode)
    (x : value) (child : TreeNode) :
  split_feature t <> (-1)%Z ->
  py_index instance (split_feature t) = Ok x ->
  dict_get String.eqb (children t) x = Ok (Some child) ->
  (exists n, reaches instance t n /\ lookup_fails instance n) <->
  (exists n, reaches instance child n /\ lookup_fails instance n).
Proof.
  intros Hsf Hx Hget. split; intros (n & Hr & Hf).
  - inversion Hr; subst.
    + exfalso. destruct Hf as [_ Hf]. apply (Hf x); [|assumption].
      apply dict_get_Ok_key. eauto.
    + assert (x0 = x) by congruence. subst x0.
      assert (child0 = child) by congruence. subst child0. eauto.
  - exists n. split; [|assumption]. eapply reaches_child; eassumption.
Qed.

(** C5: at an internal node, when the instance's value for the split
    feature is a key of the child mapping, [classify] answers the node's own
    majority class if the key maps to [None] (no recursive call is
    evaluated), and answers what [classify] answers on the child if the key
    maps to a child node. *)
Theorem classify_present_key (t : TreeNode) (instance : list value) (x : value) :
  split_feature t <> (-1)%Z ->
  py_index instance (split_feature t) = Ok x ->
  (dict_get String.eqb (children t) x = Ok None ->
   classify t instance = Ok (node_majority_class t)) /\
  (forall child,
     dict_get String.eqb (children t) x = Ok (Some child) ->
     classify t instance = classify child instance).
Proof.
  intros Hsf Hx. rewrite classify_unfold.
  apply Z.eqb_neq in Hsf. rewrite Hsf, Hx. simpl.
  split; [intros -> | intros child ->]; reflexivity.
Qed.

(** C4: [classify] either returns a label or raises a [LookupError], and
    it raises exactly when it reaches an internal node none of whose keys is
    the instance's value for the split feature.  The lookup is [KeyError]
    when the instance has a value there that is no key, and [IndexError]
    when the instance is too short to have one; both are [LookupError]s. *)
Theorem classify_LookupError_iff (t : TreeNode) (instance : list value) :
  ((exists e, classify t instance = Raise e /\ is_LookupError e = true) <->
   (exists n, reaches instance t n /\ lookup_fails instance n)) /\
  ((exists label, classify t instance = Ok label) \/
   (exists e, classify t instance = Raise e /\ is_LookupError e = true)).
Proof.
  induction t as [sf kids mc IH] using TreeNode_children_ind.
  rewrite classify_unfold. simpl.
  destruct (sf =? -1)%Z eqn:Hsf.
  - apply Z.eqb_eq in Hsf. split; [|eauto]. split.
    + intros (e & He & _). discriminate.
    + intros (n & Hr & Hf). apply reaches_leaf in Hr; [|assumption].
      subst n. destruct Hf as [Hf _]. contradiction.
  - apply Z.eqb_neq in Hsf.
    destruct (py_index instance sf) as [x|e] eqn:Hx; simpl.
    + destruct (dict_get String.eqb kids x) as [[child|]|e] eqn:Hget; simpl.
      * destruct (IH x child (dict_get_Ok_In _ _ _ _ Hget)) as [IH1 IH2].
        split; [|assumption]. rewrite IH1. symmetry.
        apply lookup_fails_reached_iff with (x := x); assumption.
      * split; [|eauto]. split.
        -- intros (e & He & _). discriminate.
        -- intros (n & Hr & Hf). exfalso. inversion Hr; subst; simpl in *.
           ++ destruct Hf as [_ Hf]. apply (Hf x); [|assumption].
              apply dict_get_Ok_key. eauto.
           ++ congruence.
      * assert (e = KeyError) by (eapply dict_get_raises; eassumption). subst e.
        split; [|right; eauto]. split; [|eauto].
        intros _. exists (mkTreeNode sf kids mc). split; [constructor|].
        split; [assumption|]. simpl. intros k Hk Heq.
        apply dict_get_KeyError in Hget. apply Hget.
        assert (x = k) by congruence. subst k. exact Hk.
    + assert (e = IndexError) by (eapply py_index_raises; eassumption). subst e.
      split; [|right; eauto]. split; [|eauto].
      intros _. exists (mkTreeNode sf kids mc). split; [constructor|].
      split; [assumption|]. simpl. congruence.
Qed.

(** ** Facts about the helpers of the builder *)

Lemma comprehension_Ok {A B : Type} (f : A -> result B) (l : list A) (ys : list B) :
  comprehension f l = Ok ys -> Forall2 (fun x y => f x = Ok y) l ys.
Proof.
  revert ys. induction l as [|x l IH]; simpl; intros ys H.
  - injection H as <-. constructor.
  - apply bind_Ok_inv in H as (y & Hy & H).
    apply bind_Ok_inv in H as (ys' & Hys & H).
    injection H as <-. constructor; auto.
Qed.

Section FeatureTables.
Implicit Type fs : dict Z (list value).

Lemma dict_get_Z_In fs k dom :
  dict_get Z.eqb fs k = Ok dom -> In (k, dom) fs.
Proof.
  induction fs as [|[k' d'] fs IH]; simpl; [discriminate|].
  destruct (Z.eqb k' k) eqn:E.
  - apply Z.eqb_eq in E. intros [= Hd]. subst. left. reflexivity.
  - intros H. right. auto.
Qed.

Lemma dict_key_unique fs k dom1 dom2 :
  NoDup (dict_keys fs) -> In (k, dom1) fs -> In (k, dom2) fs -> dom1 = dom2.
Proof.
  induction fs as [|[k' d'] fs IH]; simpl; [tauto|].
  intros Hnd H1 H2. inversion Hnd as [|? ? Hnot Hnd']; subst.
  assert (Hkey : forall d, In (k, d) fs -> In k (dict_keys fs)).
  { intros d Hd. apply in_map_iff. exists (k, d). auto. }
  destruct H1 as [H1|H1], H2 as [H2|H2].
  - congruence.
  - injection H1 as -> ->. exfalso. eauto.
  - injection H2 as -> ->. exfalso. eauto.
  - auto.
Qed.

(** Popping a key removes exactly that key. *)
Lemma dict_pop_Ok fs k rem :
  dict_pop Z.eqb fs k = Ok rem ->
  Permutation (dict_keys fs) (k :: dict_keys rem) /\ incl rem fs.
Proof.
  revert rem. induction fs as [|[k' d'] fs IH]; simpl; intros rem H.
  - discriminate.
  - destruct (Z.eqb k' k) eqn:E.
    + apply Z.eqb_eq in E. injection H as <-. subst k'. split.
      * apply Permutation_refl.
      * apply incl_tl, incl_refl.
    + apply bind_Ok_inv in H as (r & Hr & H). injection H as <-.
      destruct (IH r Hr) as [Hp Hi]. split.
      * simpl. rewrite perm_swap. apply perm_skip. exact Hp.
      * apply incl_cons; [left; reflexivity | apply incl_tl; exact Hi].
Qed.

Lemma dict_pop_length fs k rem :
  dict_pop Z.eqb fs k = Ok rem -> List.length fs = S (List.length rem).
Proof.
  intros H. apply dict_pop_Ok in H as [Hp _].
  apply Permutation_length in Hp. unfold dict_keys in Hp.
  simpl in Hp. rewrite !length_map in Hp. exact Hp.
Qed.

Lemma dict_pop_NoDup fs k rem :
  dict_pop Z.eqb fs k = Ok rem -> NoDup (dict_keys fs) ->
  NoDup (dict_keys rem) /\ ~ In k (dict_keys rem).
Proof.
  intros H Hnd. apply dict_pop_Ok in H as [Hp _].
  apply (Permutation_NoDup Hp) in Hnd.
  inversion Hnd; subst. split; assumption.
Qed.

Lemma dict_set_fresh {V : Type} (d : dict Z V) k v :
  ~ In k (dict_keys d) -> dict_set Z.eqb d k v = d ++ [(k, v)].
Proof.
  induction d as [|[k' v'] d IH]; simpl; intros Hk; [reflexivity|].
  destruct (Z.eqb k' k) eqn:E.
  - apply Z.eqb_eq in E. tauto.
  - rewrite IH; tauto.
Qed.
End FeatureTables.

Lemma child_set_fresh (d : dict value (option TreeNode)) (k : value)
    (v : option TreeNode) :
  ~ In k (dict_keys d) -> dict_set String.eqb d k v = d ++ [(k, v)].
Proof.
  induction d as [|[k' v'] d IH]; simpl; intros Hk; [reflexivity|].
  destruct (String.eqb k' k) eqn:E.
  - apply String.eqb_eq in E. tauto.
  - rewrite IH; tauto.
Qed.

Section HelperFacts.
Context {P : Platform}.

Lemma set_order_nil : set_order [] = [].
Proof.
  destruct (set_order []) as [|x l] eqn:E; [reflexivity|].
  exfalso. apply (proj1 (set_order_In [] x)). rewrite E. left. reflexivity.
Qed.

Lemma py_max_fold (key : value -> nat) (s : list value) (x : value) :
  let m := fold_left (fun best y => if key best <? key y then y else best) s x in
  In m (x :: s) /\ key x <= key m /\ forall y, In y s -> key y <= key m.
Proof.
  revert x. induction s as [|y s IH]; intros x; simpl.
  - repeat split; [auto | lia | tauto].
  - destruct (key x <? key y) eqn:E.
    + apply Nat.ltb_lt in E. destruct (IH y) as (H1 & H2 & H3).
      repeat split.
      * simpl in H1. tauto.
      * lia.
      * intros z [<-|Hz]; auto.
    + apply Nat.ltb_ge in E. destruct (IH x) as (H1 & H2 & H3).
      repeat split.
      * simpl in H1. tauto.
      * exact H2.
      * intros z [<-|Hz]; [lia | auto].
Qed.

Lemma py_max_Ok (key : value -> nat) (s : list value) (m : value) :
  py_max key s = Ok m -> In m s /\ forall y, In y s -> key y <= key m.
Proof.
  destruct s as [|x s]; simpl; [discriminate|].
  intros [= <-]. destruct (py_max_fold key s x) as (H1 & H2 & H3).
  split; [exact H1|]. intros y [<-|Hy]; auto.
Qed.

Lemma majority_class_nil : majority_class [] = Raise ValueError.
Proof.
  unfold majority_class. simpl. rewrite set_order_nil. reflexivity.
Qed.

(** The majority class occurs among the labels, and no label occurs more
    often. *)
Lemma majority_class_Ok (examples : list example) (mc : value) :
  majority_class examples = Ok mc ->
  exists classes,
    class_labels examples = Ok classes /\
    In mc classes /\
    forall c, count classes c <= count classes mc.
Proof.
  unfold majority_class. intros H.
  apply bind_Ok_inv in H as (classes & Hc & H).
  apply py_max_Ok in H as [Hin Hmax].
  exists classes. split; [exact Hc|]. split.
  - apply set_order_In. exact Hin.
  - intros c. destruct (in_dec string_dec c classes) as [Hc'|Hc'].
    + apply Hmax. apply set_order_In. exact Hc'.
    + unfold count at 1.
      rewrite (proj1 (count_occ_not_In string_dec classes c) Hc'). lia.
Qed.

Lemma majority_class_nonempty (examples : list example) (mc : value) :
  majority_class examples = Ok mc -> examples <> [].
Proof.
  intros H ->. rewrite majority_class_nil in H. discriminate.
Qed.

Lemma filter_examples_In (examples : list example) (f : Z) (v : value)
    (sub : list example) :
  filter_examples examples f v = Ok sub ->
  forall ex, In ex sub <-> In ex examples /\ py_index ex f = Ok v.
Proof.
  revert sub. induction examples as [|e examples IH]; simpl; intros sub H ex.
  - injection H as <-. simpl. tauto.
  - apply bind_Ok_inv in H as (x & Hx & H).
    apply bind_Ok_inv in H as (kept & Hk & H). injection H as <-.
    specialize (IH kept Hk ex).
    destruct (String.eqb x v) eqn:E.
    + apply String.eqb_eq in E. subst x. simpl. rewrite IH.
      split; [intros [<-|[? ?]]; auto | intros [[<-|?] ?]; auto].
    + apply String.eqb_neq in E. rewrite IH.
      split; [intros [? ?]; auto | intros [[<-|?] ?]; auto].
      congruence.
Qed.
End HelperFacts.

(** ** One level of the builder *)

Arguments bbind : simpl never.

Lemma bbind_Ok_inv {A B : Type} (m : builder A) (f : A -> builder B) (b : B) :
  bbind m f = Some (Ok b) -> exists a, m = Some (Ok a) /\ f a = Some (Ok b).
Proof.
  destruct m as [[a|e]|]; simpl; intros H; [eauto | discriminate | discriminate].
Qed.

Lemma combine_children (R : value -> TreeNode -> Prop) (dom : list value)
    (cs : list TreeNode) :
  Forall2 R dom cs ->
  dict_keys (combine dom (map Some cs)) = dom /\
  (forall v o, In (v, o) (combine dom (map Some cs)) ->
               exists c, o = Some c /\ R v c) /\
  (forall v, In v dom -> exists c, In (v, Some c) (combine dom (map Some cs))).
Proof.
  induction 1 as [|v c dom cs Hvc _ (IH1 & IH2 & IH3)]; simpl.
  - split; [reflexivity|]. split; intros; contradiction.
  - split; [|split].
    + f_equal. exact IH1.
    + intros v' o [[= <- <-]|Hin]; eauto.
    + intros v' [<-|Hin]; [eauto|]. destruct (IH3 v' Hin) as [c' Hc']. eauto.
Qed.

Section BuilderLevel.
Context {P : Platform}.

(** The children dictionary after the loop: the accumulator followed by
    one entry per value of the domain, each holding the node the recursive
    call returned for the examples with that value. *)
Lemma build_children_Ok (rec : list example -> builder TreeNode)
    (examples : list example) (best : Z) (dom : list value)
    (acc kids : dict value (option TreeNode)) :
  build_children rec examples best dom acc = Some (Ok kids) ->
  NoDup dom ->
  (forall v, In v dom -> ~ In v (dict_keys acc)) ->
  exists cs,
    kids = acc ++ combine dom (map Some cs) /\
    Forall2 (fun v c => exists sub,
                 filter_examples examples best v = Ok sub /\
                 rec sub = Some (Ok c)) dom cs.
Proof.
  revert acc. induction dom as [|v dom IH]; simpl; intros acc H Hnd Hfresh.
  - injection H as <-. exists []. rewrite app_nil_r. split; constructor.
  - apply bbind_Ok_inv in H as (sub & Hsub & H).
    apply bbind_Ok_inv in H as (child & Hchild & H).
    injection Hsub as Hsub. inversion Hnd as [|? ? Hv Hnd']; subst.
    rewrite child_set_fresh in H by auto.
    apply IH in H as (cs & -> & HF); [|assumption|].
    + exists (child :: cs). split.
      * rewrite <- app_assoc. reflexivity.
      * constructor; eauto.
    + intros v' Hv' Hin. unfold dict_keys in Hin.
      rewrite map_app in Hin. apply in_app_or in Hin as [Hin|[<-|[]]].
      * apply (Hfresh v'); auto.
      * contradiction.
Qed.

Lemma build_tree_1_inv (fuel : nat) (examples : list example)
    (features : features_t) (t : TreeNode) :
  build_tree_1 fuel examples features = Some (Ok t) ->
  domains_NoDup features ->
  exists fuel',
    fuel = S fuel' /\
    majority_class examples = Ok (node_majority_class t) /\
    (leaf_step examples features t \/ split_step fuel' examples features t).
Proof.
  destruct fuel as [|fuel]; simpl; [discriminate|]. intros H Hdom.
  exists fuel. split; [reflexivity|].
  apply bbind_Ok_inv in H as (mc & Hmc & H). injection Hmc as Hmc.
  apply bbind_Ok_inv in H as (same & Hsame & H). injection Hsame as Hsame.
  destruct same.
  { injection H as <-. split; [exact Hmc|]. left. repeat split. auto. }
  destruct features as [|kd features'] eqn:Efs.
  { injection H as <-. split; [exact Hmc|]. left. repeat split. auto. }
  rewrite <- Efs in *.
  apply bbind_Ok_inv in H as (best & Hbest & H). injection Hbest as Hbest.
  apply bbind_Ok_inv in H as (rem & Hrem & H). injection Hrem as Hrem.
  apply bbind_Ok_inv in H as (dom & Hget & H). injection Hget as Hget.
  apply bbind_Ok_inv in H as (kids & Hkids & H). injection H as <-.
  split; [exact Hmc|]. right. simpl.
  apply build_children_Ok in Hkids as (cs & -> & HF).
  - simpl. destruct (combine_children _ _ _ HF) as (Hk & Ho & Hv).
    split; [exact Hsame|]. split; [rewrite Efs; discriminate|].
    exists rem, dom. repeat split; try assumption.
    intros v o Hin. destruct (Ho v o Hin) as (c & -> & sub & Hsub & Hc).
    eauto.
  - apply (Hdom best). apply dict_get_Z_In. exact Hget.
  - simpl. tauto.
Qed.
End BuilderLevel.

(** ** Nodes of a built tree and the examples that reached them *)

Lemma Forall2_In_left {A B : Type} (R : A -> B -> Prop) (l : list A)
    (l' : list B) (x : A) :
  Forall2 R l l' -> In x l -> exists y, In y l' /\ R x y.
Proof.
  induction 1 as [|a b l l' Hab _ IH]; simpl; [tauto|].
  intros [<-|Hin]; [eauto|]. destruct (IH Hin) as (y & Hy & Hr). eauto.
Qed.

Lemma NoDup_map_of_nat (l : list nat) : NoDup l -> NoDup (map Z.of_nat l).
Proof.
  induction 1 as [|x l Hx _ IH]; simpl; constructor; [|exact IH].
  intros Hin. apply in_map_iff in Hin as (y & Hy & Hin).
  apply Nat2Z.inj in Hy. congruence.
Qed.

Section BuiltTrees.
Context {P : Platform}.

Lemma domains_NoDup_incl (fs fs' : features_t) :
  incl fs' fs -> domains_NoDup fs -> domains_NoDup fs'.
Proof.
  intros Hi Hd k dom Hin. apply (Hd k). apply Hi. exact Hin.
Qed.

(** Every node of a built tree is what [build_tree_1] returned for the
    examples that reached it and a part of the feature table. *)
Lemma build_tree_1_nodes (examples exn : list example) (t n : TreeNode) :
  node_at examples t exn n ->
  forall fuel features,
    build_tree_1 fuel examples features = Some (Ok t) ->
    domains_NoDup features ->
    exists fuel' features',
      build_tree_1 fuel' exn features' = Some (Ok n) /\
      incl features' features /\ incl exn examples.
Proof.
  induction 1 as [examples t|examples t v child sub exn n Hin Hsub _ IH];
    intros fuel features Hb Hdom.
  - exists fuel, features. split; [exact Hb|]. split; apply incl_refl.
  - destruct (build_tree_1_inv _ _ _ _ Hb Hdom)
      as (fuel' & -> & _ & [Hleaf|Hsplit]).
    + destruct Hleaf as (_ & Hnil & _). rewrite Hnil in Hin. contradiction.
    + destruct Hsplit as (_ & _ & rem & dom & _ & Hpop & _ & _ & _ & Hkids).
      destruct (Hkids v (Some child) Hin) as (c & sub' & [= <-] & Hsub' & Hc).
      assert (sub' = sub) by congruence. subst sub'.
      apply dict_pop_Ok in Hpop as [_ Hincl].
      destruct (IH fuel' rem Hc (domains_NoDup_incl _ _ Hincl Hdom))
        as (fuel'' & fs' & Hn & Hfs & Hex).
      exists fuel'', fs'. split; [exact Hn|]. split.
      * eapply incl_tran; eassumption.
      * intros e He. apply Hex in He.
        apply (filter_examples_In _ _ _ _ Hsub) in He. tauto.
Qed.

(** The table [build_tree] collects: one key per feature index, in
    increasing order, each with the set of the values of its column. *)
Lemma collect_loop (examples : list example) (m a : nat)
    (acc fs : features_t) :
  for_each
    (fun (features : features_t) (i : nat) =>
       bind (comprehension (fun ex : example => py_index ex (Z.of_nat i))
               examples)
         (fun column =>
            Ok (dict_set Z.eqb features (Z.of_nat i) (set_order column))))
    (seq a m) acc = Ok fs ->
  dict_keys acc = map Z.of_nat (seq 0 a) ->
  dict_keys fs = map Z.of_nat (seq 0 (a + m)) /\
  forall k dom, In (k, dom) fs ->
    In (k, dom) acc \/
    exists column,
      comprehension (fun ex : example => py_index ex k) examples = Ok column /\
      dom = set_order column.
Proof.
  revert a acc. induction m as [|m IH]; simpl; intros a acc H Hkeys.
  - injection H as <-. rewrite Nat.add_0_r. auto.
  - apply bind_Ok_inv in H as (acc' & Hacc' & H).
    apply bind_Ok_inv in Hacc' as (column & Hcol & Hacc').
    injection Hacc' as <-.
    rewrite dict_set_fresh in H.
    + apply IH in H as [H1 H2].
      * split; [rewrite <- Nat.add_succ_comm; exact H1|].
        intros k dom Hin. destruct (H2 k dom Hin) as [Hacc|Hnew]; [|auto].
        apply in_app_or in Hacc as [Hacc|[[= <- <-]|[]]]; eauto.
      * unfold dict_keys. rewrite map_app, seq_S, map_app. simpl.
        f_equal. exact Hkeys.
    + rewrite Hkeys. intros Hin. apply in_map_iff in Hin as (i & Hi & Hin).
      apply Nat2Z.inj in Hi. subst i. apply in_seq in Hin. lia.
Qed.

Lemma collect_features_Ok (examples : list example) (n : nat) (fs : features_t) :
  collect_features examples n = Ok fs ->
  dict_keys fs = map Z.of_nat (seq 0 n) /\
  forall k dom, In (k, dom) fs ->
    exists column,
      comprehension (fun ex : example => py_index ex k) examples = Ok column /\
      dom = set_order column.
Proof.
  intros H. apply collect_loop in H as [H1 H2]; [|reflexivity].
  split; [exact H1|]. intros k dom Hin.
  destruct (H2 k dom Hin) as [[]|Hnew]. exact Hnew.
Qed.

Lemma collect_features_ok (examples : list example) (n : nat) (fs : features_t) :
  collect_features examples n = Ok fs ->
  features_ok fs /\ List.length fs = n /\
  (forall k, In k (dict_keys fs) -> (0 <= k)%Z).
Proof.
  intros H. apply collect_features_Ok in H as [Hk Hd]. split; [split|split].
  - rewrite Hk. apply NoDup_map_of_nat, seq_NoDup.
  - intros k dom Hin. destruct (Hd k dom Hin) as (col & _ & ->).
    apply set_order_NoDup.
  - apply (f_equal (@List.length Z)) in Hk. unfold dict_keys in Hk.
    rewrite !length_map, length_seq in Hk. exact Hk.
  - intros k Hin. rewrite Hk in Hin.
    apply in_map_iff in Hin as (i & <- & _). lia.
Qed.

(** Every value an example has for a feature is in the collected domain
    of that feature. *)
Lemma collect_features_covers (examples : list example) (n : nat)
    (fs : features_t) (k : Z) (dom : list value) (ex : example) (v : value) :
  collect_features examples n = Ok fs ->
  In (k, dom) fs -> In ex examples -> py_index ex k = Ok v -> In v dom.
Proof.
  intros H Hin Hex Hv. apply collect_features_Ok in H as [_ Hd].
  destruct (Hd k dom Hin) as (col & Hcol & ->).
  apply comprehension_Ok in Hcol.
  destruct (Forall2_In_left _ _ _ _ Hcol Hex) as (y & Hy & Hxy).
  apply set_order_In. congruence.
Qed.

Lemma build_tree_Ok (examples : list example) (t : TreeNode) :
  build_tree examples = Some (Ok (Some t)) ->
  exists first rest fs,
    examples = first :: rest /\
    collect_features examples (List.length first - 1) = Ok fs /\
    build_tree_1 (S (List.length fs)) examples fs = Some (Ok t).
Proof.
  unfold build_tree. destruct examples as [|first rest]; [discriminate|].
  intros H. apply bbind_Ok_inv in H as (fs & Hfs & H).
  apply bbind_Ok_inv in H as (t' & Ht & H).
  injection Hfs as Hfs. injection H as <-. eauto 6.
Qed.
End BuiltTrees.

(** ** The bound on the recursion is never reached *)

Section Fuel.
Context {P : Platform}.

Lemma build_children_Some (rec : list example -> builder TreeNode)
    (examples : list example) (best : Z) (dom : list value) :
  (forall sub, exists r, rec sub = Some r) ->
  forall acc, exists r, build_children rec examples best dom acc = Some r.
Proof.
  intros Hrec. induction dom as [|v dom IH]; intros acc; cbn [build_children].
  - eauto.
  - unfold bbind.
    destruct (filter_examples examples best v) as [sub|e]; [|eauto].
    destruct (Hrec sub) as [[c|e] ->]; [apply IH | eauto].
Qed.

Lemma build_children_mono (rec rec' : list example -> builder TreeNode)
    (examples : list example) (best : Z) (dom : list value) :
  (forall sub r, rec sub = Some r -> rec' sub = Some r) ->
  forall acc r,
    build_children rec examples best dom acc = Some r ->
    build_children rec' examples best dom acc = Some r.
Proof.
  intros Hrec. induction dom as [|v dom IH]; intros acc r; cbn [build_children].
  - auto.
  - unfold bbind.
    destruct (filter_examples examples best v) as [sub|e]; [|auto].
    destruct (rec sub) as [[c|e]|] eqn:E; [| |discriminate].
    + rewrite (Hrec _ _ E). apply IH.
    + rewrite (Hrec _ _ E). auto.
Qed.

(** With more fuel than features, [build_tree_1] returns or raises. *)
Lemma build_tree_1_fuel (fuel : nat) :
  forall examples features,
    List.length features < fuel ->
    exists r, build_tree_1 fuel examples features = Some r.
Proof.
  induction fuel as [|fuel IH]; intros examples features Hlen; [lia|].
  cbn [build_tree_1]. unfold bbind.
  destruct (majority_class examples) as [mc|e]; [|eauto].
  destruct (same_class examples) as [[|]|e]; [eauto| |eauto].
  destruct features as [|kd features']; [eauto|].
  set (features := kd :: features') in *.
  destruct (best_feature features examples) as [best|e]; [|eauto].
  destruct (dict_pop Z.eqb features best) as [rem|e] eqn:Hpop; [|eauto].
  destruct (dict_get Z.eqb features best) as [dom|e]; [|eauto].
  apply dict_pop_length in Hpop.
  destruct (build_children_Some
              (fun sub => build_tree_1 fuel sub rem) examples best dom)
    with (acc := @nil (value * option TreeNode)) as [[kids|e] ->]; [|eauto|eauto].
  intros sub. apply IH. lia.
Qed.

(** More fuel does not change an answer. *)
Lemma build_tree_1_fuel_mono (fuel : nat) :
  forall examples features r,
    build_tree_1 fuel examples features = Some r ->
    forall fuel', fuel <= fuel' ->
      build_tree_1 fuel' examples features = Some r.
Proof.
  induction fuel as [|fuel IH]; intros examples features r H fuel' Hle;
    [discriminate|].
  destruct fuel' as [|fuel']; [lia|].
  revert H. cbn [build_tree_1]. unfold bbind.
  destruct (majority_class examples) as [mc|e]; [|auto].
  destruct (same_class examples) as [[|]|e]; [auto| |auto].
  destruct features as [|kd features']; [auto|].
  set (features := kd :: features') in *.
  destruct (best_feature features examples) as [best|e]; [|auto].
  destruct (dict_pop Z.eqb features best) as [rem|e]; [|auto].
  destruct (dict_get Z.eqb features best) as [dom|e]; [|auto].
  destruct (build_children (fun sub => build_tree_1 fuel sub rem)
              examples best dom []) as [rk|] eqn:E; [|discriminate].
  rewrite (build_children_mono
             (fun sub => build_tree_1 fuel sub rem)
             (fun sub => build_tree_1 fuel' sub rem) examples best dom
             (fun sub r0 H0 => IH sub rem r0 H0 fuel' ltac:(lia)) [] rk E).
  auto.
Qed.

(** [build_tree] always returns or raises: its fuel is enough. *)
Lemma build_tree_total (examples : list example) :
  exists r, build_tree examples = Some r.
Proof.
  unfold build_tree. destruct examples as [|first rest]; [eauto|].
  unfold bbind.
  destruct (collect_features (first :: rest) (List.length first - 1))
    as [fs|e]; [|eauto].
  destruct (build_tree_1_fuel (S (List.length fs)) (first :: rest) fs)
    as [[t|e] ->]; [lia|eauto|eauto].
Qed.
End Fuel.

(** ** Shape of a built tree *)

Lemma depth_unfold (t : TreeNode) :
  depth t = match children t with
            | [] => 0
            | _ :: _ => S (deepest_child depth (children t))
            end.
Proof.
  destruct t as [sf kids mc]. cbn [children].
  destruct kids as [|kd kids']; [reflexivity|].
  change (depth (mkTreeNode sf (kd :: kids') mc))
    with (S ((fix deepest (l : dict value (option TreeNode)) : nat :=
                match l with
                | [] => 0
                | (_, Some c) :: l' => Nat.max (depth c) (deepest l')
                | (_, None) :: l' => deepest l'
                end) (kd :: kids'))).
  f_equal. generalize (kd :: kids'). intros l.
  induction l as [|[v [c|]] l IH]; simpl; congruence.
Qed.

Lemma deepest_child_le (f : TreeNode -> nat) (l : dict value (option TreeNode))
    (m : nat) :
  (forall v c, In (v, Some c) l -> f c <= m) -> deepest_child f l <= m.
Proof.
  induction l as [|[v [c|]] l IH]; simpl; intros H.
  - lia.
  - apply Nat.max_lub; [apply (H v); auto | apply IH; eauto].
  - apply IH; eauto.
Qed.

Lemma depth_le (t : TreeNode) (m : nat) :
  (forall v c, In (v, Some c) (children t) -> depth c <= m) ->
  depth t <= S m.
Proof.
  intros H. rewrite depth_unfold.
  destruct (children t) as [|kd kids]; [lia|].
  apply le_n_S, deepest_child_le. exact H.
Qed.

Lemma depth_leaf (t : TreeNode) : children t = [] -> depth t = 0.
Proof.
  destruct t as [sf kids mc]. simpl. intros ->. reflexivity.
Qed.

Lemma consumes_subtree (fs : features_t) (t : TreeNode) :
  consumes fs t ->
  forall n, subtree t n ->
    exists fs', consumes fs' n /\ incl (dict_keys fs') (dict_keys fs).
Proof.
  induction 1 as [fs t Hsf Hnil|fs t rem Hpop Hperm Hnot Hkids IH];
    intros n Hn.
  - inversion Hn; subst.
    + exists fs. split; [apply consumes_leaf; assumption | apply incl_refl].
    + rewrite Hnil in *. contradiction.
  - inversion Hn as [|? v c ? Hin Hc]; subst.
    + exists fs. split; [|apply incl_refl].
      eapply consumes_node; eassumption.
    + destruct (IH v c Hin n Hc) as (fs' & Hcons & Hincl).
      exists fs'. split; [exact Hcons|].
      intros k Hk. apply Hincl in Hk.
      apply (Permutation_in _ (Permutation_sym Hperm)). right. exact Hk.
Qed.

Lemma consumes_split_key (fs : features_t) (t : TreeNode) :
  consumes fs t ->
  forall n, subtree t n -> split_feature n <> (-1)%Z ->
    In (split_feature n) (dict_keys fs).
Proof.
  intros Hc n Hn Hsf.
  destruct (consumes_subtree _ _ Hc n Hn) as (fs' & Hc' & Hincl).
  apply Hincl. inversion Hc' as [|? ? rem Hpop Hperm _ _]; subst.
  - contradiction.
  - apply (Permutation_in _ (Permutation_sym Hperm)). left. reflexivity.
Qed.

(** A feature split on at a node is not split on again below it. *)
Lemma consumes_no_resplit (fs : features_t) (t : TreeNode) :
  consumes fs t ->
  forall n v c m,
    subtree t n -> In (v, Some c) (children n) -> subtree c m ->
    split_feature m <> (-1)%Z ->
    split_feature m <> split_feature n.
Proof.
  intros Hc n v c m Hn Hin Hm Hsf Heq.
  destruct (consumes_subtree _ _ Hc n Hn) as (fs' & Hc' & _).
  inversion Hc' as [? ? _ Hnil|? ? rem _ _ Hnot Hkids]; subst.
  - rewrite Hnil in Hin. contradiction.
  - apply Hnot. rewrite <- Heq.
    apply (consumes_split_key _ _ (Hkids v c Hin) m Hm Hsf).
Qed.

Section BuiltShape.
Context {P : Platform}.

Lemma build_tree_1_consumes (fuel : nat) :
  forall examples features t,
    build_tree_1 fuel examples features = Some (Ok t) ->
    features_ok features ->
    consumes features t /\ depth t <= List.length features.
Proof.
  induction fuel as [|fuel IH]; intros examples features t Hb [Hnd Hdom];
    [discriminate|].
  destruct (build_tree_1_inv _ _ _ _ Hb Hdom)
    as (fuel' & [= <-] & _ & [Hleaf|Hsplit]).
  - destruct Hleaf as (Hsf & Hnil & _). split.
    + apply consumes_leaf; assumption.
    + rewrite (depth_leaf _ Hnil). lia.
  - destruct Hsplit as (_ & _ & rem & dom & _ & Hpop & _ & _ & _ & Hkids).
    destruct (dict_pop_NoDup _ _ _ Hpop Hnd) as [Hnd' Hnot].
    destruct (dict_pop_Ok _ _ _ Hpop) as [Hperm Hincl].
    assert (Hok : features_ok rem).
    { split; [exact Hnd' | exact (domains_NoDup_incl _ _ Hincl Hdom)]. }
    assert (Hrec : forall v c, In (v, Some c) (children t) ->
              consumes rem c /\ depth c <= List.length rem).
    { intros v c Hin.
      destruct (Hkids v (Some c) Hin) as (c' & sub & [= <-] & _ & Hc).
      exact (IH sub rem c Hc Hok). }
    split.
    + eapply consumes_node; try eassumption.
      intros v c Hin. apply (Hrec v c Hin).
    + rewrite (dict_pop_length _ _ _ Hpop). apply depth_le.
      intros v c Hin. apply (Hrec v c Hin).
Qed.
End BuiltShape.

(** ** Properties of the trees [build_tree] returns *)

Section BuildTreeClaims.
Context {P : Platform}.

(** C9: on an empty example list [build_tree] returns [None]; nothing is
    raised and no fuel is used. *)
Theorem build_tree_empty : build_tree [] = Some (Ok None).
Proof. reflexivity. Qed.

(** A node of a built tree, with the call of [build_tree_1] that returned
    it and the table [build_tree] collected. *)
Lemma build_tree_node (examples exn : list example) (t n : TreeNode) :
  build_tree examples = Some (Ok (Some t)) ->
  node_at examples t exn n ->
  exists first rest fs fuel fsn,
    examples = first :: rest /\
    collect_features examples (List.length first - 1) = Ok fs /\
    build_tree_1 fuel exn fsn = Some (Ok n) /\
    incl fsn fs /\ incl exn examples /\ domains_NoDup fsn.
Proof.
  intros Hb Hn.
  apply build_tree_Ok in Hb as (first & rest & fs & -> & Hfs & Hb).
  destruct (collect_features_ok _ _ _ Hfs) as ([_ Hdom] & _ & _).
  destruct (build_tree_1_nodes _ _ _ _ Hn _ _ Hb Hdom)
    as (fuel & fsn & Hbn & Hincl & Hex).
  exists first, rest, fs, fuel, fsn.
  repeat (split; [first [reflexivity | assumption]|]).
  exact (domains_NoDup_incl _ _ Hincl Hdom).
Qed.

(** C1: in a tree [build_tree] returned, the keys of the child mapping of
    every internal node are, without repetition, exactly the values that
    the examples reaching that node have for the node's split feature. *)
Theorem build_tree_child_keys (examples exn : list example) (t n : TreeNode) :
  build_tree examples = Some (Ok (Some t)) ->
  node_at examples t exn n ->
  split_feature n <> (-1)%Z ->
  NoDup (dict_keys (children n)) /\
  forall v, In v (dict_keys (children n)) <-> observed exn (split_feature n) v.
Proof.
  intros Hb Hn Hsf.
  destruct (build_tree_node _ _ _ _ Hb Hn)
    as (first & rest & fs & fuel & fsn & -> & Hfs & Hbn & Hincl & Hex & Hdom).
  destruct (build_tree_1_inv _ _ _ _ Hbn Hdom)
    as (fuel' & -> & _ & [Hleaf|Hsplit]).
  { destruct Hleaf as [Hleaf _]. contradiction. }
  destruct Hsplit as (_ & _ & rem & dom & _ & Hpop & Hget & Hkeys & Hall & Hkids).
  apply dict_get_Z_In in Hget.
  split.
  - rewrite Hkeys. exact (Hdom _ _ Hget).
  - intros v. split.
    + intros Hv. rewrite Hkeys in Hv. destruct (Hall v Hv) as [c Hc].
      destruct (Hkids v (Some c) Hc) as (c' & sub & _ & Hsub & Hbc).
      destruct (build_tree_1_inv _ _ _ _ Hbc
                  (domains_NoDup_incl _ _ (proj2 (dict_pop_Ok _ _ _ Hpop)) Hdom))
        as (_ & _ & Hmc & _).
      apply majority_class_nonempty in Hmc.
      destruct sub as [|ex sub']; [contradiction|].
      exists ex. apply (filter_examples_In _ _ _ _ Hsub). left. reflexivity.
    + intros (ex & Hin & Hv). rewrite Hkeys.
      eapply collect_features_covers; eauto.
Qed.

(** C10: every node of a tree [build_tree] returned has [split_feature]
    -1 exactly when its child mapping is empty; an internal node has a
    non-negative [split_feature] and a non-empty child mapping; and the
    node's majority class is a label of the examples that reached the
    node which no other label there outnumbers. *)
Theorem build_tree_node_shape (examples exn : list example) (t n : TreeNode) :
  build_tree examples = Some (Ok (Some t)) ->
  node_at examples t exn n ->
  (split_feature n = (-1)%Z <-> children n = []) /\
  (split_feature n <> (-1)%Z ->
   (0 <= split_feature n)%Z /\ children n <> []) /\
  exists classes,
    class_labels exn = Ok classes /\
    In (node_majority_class n) classes /\
    forall c, count classes c <= count classes (node_majority_class n).
Proof.
  intros Hb Hn.
  destruct (build_tree_node _ _ _ _ Hb Hn)
    as (first & rest & fs & fuel & fsn & -> & Hfs & Hbn & Hincl & Hex & Hdom).
  destruct (build_tree_1_inv _ _ _ _ Hbn Hdom)
    as (fuel' & -> & Hmc & Hstep).
  assert (Hshape : (split_feature n = (-1)%Z /\ children n = []) \/
                   ((0 <= split_feature n)%Z /\ children n <> [])).
  { destruct Hstep as [(Hsf & Hnil & _)|Hsplit]; [left; auto|right].
    destruct Hsplit as (_ & _ & rem & dom & _ & Hpop & Hget & Hkeys & _ & _).
    apply dict_get_Z_In in Hget. split.
    - destruct (collect_features_ok _ _ _ Hfs) as (_ & _ & Hpos).
      apply Hpos. apply in_map_iff. exists (split_feature n, dom).
      split; [reflexivity | apply Hincl; exact Hget].
    - pose proof (majority_class_nonempty _ _ Hmc) as Hne.
      destruct exn as [|ex exn']; [contradiction|].
      destruct (collect_features_Ok _ _ _ Hfs) as [_ Hd].
      destruct (Hd _ _ (Hincl _ Hget)) as (col & Hcol & Hdomeq).
      pose proof (comprehension_Ok _ _ _ Hcol) as HF.
      destruct (Forall2_In_left _ _ _ ex HF) as (y & Hy & _).
      { apply Hex. left. reflexivity. }
      intros Hnil. rewrite Hnil in Hkeys. simpl in Hkeys.
      rewrite <- Hkeys in Hdomeq.
      apply set_order_In in Hy. rewrite <- Hdomeq in Hy. contradiction. }
  split; [|split].
  - destruct Hshape as [[? ?]|[? ?]]; split; intros; try tauto; try lia.
  - destruct Hshape as [[? ?]|?]; [contradiction | auto].
  - exact (majority_class_Ok _ _ Hmc).
Qed.

(** C8: a tree [build_tree] returned was built so that every internal
    node pops its split feature from the table it got, which removes
    exactly that one key, and hands the rest to all its children; hence a
    feature split on at a node is not split on again below it, and the
    depth of the tree is at most the number of features. *)
Theorem build_tree_consumes_features (examples : list example) (t : TreeNode) :
  build_tree examples = Some (Ok (Some t)) ->
  exists first rest fs,
    examples = first :: rest /\
    collect_features examples (List.length first - 1) = Ok fs /\
    List.length fs = List.length first - 1 /\
    consumes fs t /\
    (forall n v c m,
       subtree t n -> In (v, Some c) (children n) -> subtree c m ->
       split_feature m <> (-1)%Z ->
       split_feature m <> split_feature n) /\
    depth t <= List.length first - 1.
Proof.
  intros Hb.
  apply build_tree_Ok in Hb as (first & rest & fs & -> & Hfs & Hb).
  destruct (collect_features_ok _ _ _ Hfs) as (Hok & Hlen & _).
  destruct (build_tree_1_consumes _ _ _ _ Hb Hok) as [Hcons Hdepth].
  exists first, rest, fs.
  repeat (split; [first [reflexivity | assumption]|]).
  split; [|lia].
  apply consumes_no_resplit with (fs := fs). exact Hcons.
Qed.
End BuildTreeClaims.

(** ** Where the builder raises *)

Section BuilderRaises.
Context {P : Platform}.

(** The builder has no test for an empty partition: when some value of
    the chosen feature's domain has no example in the current subset, the
    recursive call receives the empty list, [majority_class] raises there,
    and no tree is returned. *)
Lemma build_tree_1_empty_partition (fuel : nat) (examples : list example)
    (features : features_t) (best : Z) (domain : list value) (v : value) :
  domains_NoDup features ->
  List.length features < fuel ->
  same_class examples = Ok false ->
  best_feature features examples = Ok best ->
  dict_get Z.eqb features best = Ok domain ->
  In v domain ->
  filter_examples examples best v = Ok [] ->
  exists e, build_tree_1 fuel examples features = Some (Raise e).
Proof.
  intros Hdom Hfuel Hsame Hbest Hget Hv Hempty.
  destruct (build_tree_1_fuel fuel examples features Hfuel) as [[t|e] Hb];
    [exfalso | eauto].
  destruct (build_tree_1_inv _ _ _ _ Hb Hdom)
    as (fuel' & -> & _ & [Hleaf|Hsplit]).
  - destruct Hleaf as (_ & _ & [Hs|[_ ->]]); [congruence | discriminate].
  - destruct Hsplit as (_ & _ & rem & dom & Hbest' & Hpop & Hget' & _ & Hall & Hkids).
    assert (split_feature t = best) by congruence. subst best.
    assert (dom = domain) by congruence. subst dom.
    destruct (Hall v Hv) as [c Hc].
    destruct (Hkids v (Some c) Hc) as (c' & sub & _ & Hsub & Hbc).
    assert (sub = []) by congruence. subst sub.
    destruct (build_tree_1_inv _ _ _ _ Hbc
                (domains_NoDup_incl _ _ (proj2 (dict_pop_Ok _ _ _ Hpop)) Hdom))
      as (_ & _ & Hmc & _).
    rewrite majority_class_nil in Hmc. discriminate.
Qed.

(** The loop of [best_feature] keeps its starting pair when no candidate
    is below the starting entropy. *)
Lemma best_feature_from_none_below (features : features_t)
    (examples : list example) (keys : list Z) (start : Z * float) :
  (forall k, In k keys ->
     exists se, split_entropy k features examples = Ok se /\
                (se <? snd start)%float = false) ->
  best_feature_from features examples keys start = Ok start.
Proof.
  unfold best_feature_from.
  induction keys as [|k keys IH]; simpl; intros H; [reflexivity|].
  destruct (H k (or_introl eq_refl)) as (se & -> & Hlt). simpl.
  rewrite Hlt. apply IH. intros k' Hk'. apply H. right. exact Hk'.
Qed.

(** When no candidate has a split entropy below 2.0, [best_feature]
    returns -1, which is no feature index. *)
Lemma best_feature_none_below_2 (features : features_t)
    (examples : list example) :
  (forall k, In k (dict_keys features) ->
     exists se, split_entropy k features examples = Ok se /\
                (se <? 2)%float = false) ->
  best_feature features examples = Ok (-1)%Z.
Proof.
  intros H. unfold best_feature.
  rewrite (best_feature_from_none_below features examples
             (dict_keys features) ((-1)%Z, 2%float) H).
  reflexivity.
Qed.
End BuilderRaises.

(** ** The demonstration data set, on the reference platform *)

Section Demo.
Local Open Scope string_scope.

(** The reference logarithm at the arguments the examples below use. *)
Lemma reference_log_values :
  ref_log 1 = 0%float /\
  math_log 0.5 2 = Ok (-1)%float /\
  math_log 0.125 2 = Ok (-3)%float.
Proof. vm_compute. repeat split. Qed.

Lemma build_tree_demo : build_tree demo_examples = Some (Ok (Some demo_tree)).
Proof. vm_compute. reflexivity. Qed.

Lemma sports_node_at :
  node_at demo_examples demo_tree sports_examples sports_node.
Proof.
  apply node_child with (v := "Sports"%string) (child := sports_node)
                        (sub := sports_examples).
  - simpl. right. left. reflexivity.
  - vm_compute. reflexivity.
  - apply node_root.
Defined.

Lemma build_tree_child_keys_demo :
  NoDup (dict_keys (children sports_node)) /\
  forall v, In v (dict_keys (children sports_node)) <->
            observed sports_examples (split_feature sports_node) v.
Proof.
  apply (build_tree_child_keys demo_examples sports_examples demo_tree sports_node).
  - exact build_tree_demo.
  - exact sports_node_at.
  - vm_compute. discriminate.
Defined.

Lemma build_tree_node_shape_demo :
  (split_feature sports_node = (-1)%Z <-> children sports_node = []) /\
  (split_feature sports_node <> (-1)%Z ->
   (0 <= split_feature sports_node)%Z /\ children sports_node <> []) /\
  exists classes,
    class_labels sports_examples = Ok classes /\
    In (node_majority_class sports_node) classes /\
    forall c, count classes c <= count classes (node_majority_class sports_node).
Proof.
  apply (build_tree_node_shape demo_examples sports_examples demo_tree sports_node).
  - exact build_tree_demo.
  - exact sports_node_at.
Defined.

Lemma build_tree_consumes_features_demo :
  exists first rest fs,
    demo_examples = first :: rest /\
    collect_features demo_examples (List.length first - 1) = Ok fs /\
    List.length fs = List.length first - 1 /\
    consumes fs demo_tree /\
    (forall n v c m,
       subtree demo_tree n -> In (v, Some c) (children n) -> subtree c m ->
       split_feature m <> (-1)%Z ->
       split_feature m <> split_feature n) /\
    depth demo_tree <= List.length first - 1.
Proof.
  apply (build_tree_consumes_features demo_examples demo_tree).
  exact build_tree_demo.
Defined.

Lemma classify_present_key_fallback :
  classify fallback_node ["Red"; "SUV"]%string = Ok "No"%string /\
  classify fallback_node ["Yellow"; "SUV"]%string =
  classify (leaf "Yes") ["Yellow"; "SUV"]%string.
Proof.
  split.
  - apply (proj1 (classify_present_key fallback_node ["Red"; "SUV"]%string
                    "Red"%string ltac:(vm_compute; discriminate) eq_refl)).
    reflexivity.
  - apply (proj2 (classify_present_key fallback_node ["Yellow"; "SUV"]%string
                    "Yellow"%string ltac:(vm_compute; discriminate) eq_refl)).
    reflexivity.
Defined.

(** C2 (failing input): from [vanish_examples] the builder splits on
    feature 0, reaches the two examples with [a], splits them on feature 1
    over the root-level domain [x], [y], and calls itself on the empty
    partition of [y]; [majority_class] raises [ValueError] there and
    [build_tree] raises it to its caller. *)
Theorem build_tree_vanish_raises :
  collect_features vanish_examples 2 = Ok [(0%Z, ["a"; "b"]); (1%Z, ["x"; "y"])] /\
  best_feature [(0%Z, ["a"; "b"]); (1%Z, ["x"; "y"])] vanish_examples = Ok 0%Z /\
  filter_examples vanish_examples 0 "a" = Ok vanish_subset /\
  best_feature [(1%Z, ["x"; "y"])] vanish_subset = Ok 1%Z /\
  filter_examples vanish_subset 1 "y" = Ok [] /\
  build_tree_1 1 [] [] = Some (Raise ValueError) /\
  build_tree vanish_examples = Some (Raise ValueError).
Proof. vm_compute. repeat split. Qed.

(** C3 (failing input): the only candidate, feature 0, has split entropy
    3.0, which is not below the starting value 2.0, so [best_feature]
    returns -1, no candidate at all; [build_tree] then raises [KeyError]
    when it pops -1 from the feature table. *)
Theorem best_feature_eight_classes :
  split_entropy 0 [(0%Z, ["a"])] eight_classes = Ok 3%float /\
  best_feature [(0%Z, ["a"])] eight_classes = Ok (-1)%Z /\
  build_tree eight_classes = Some (Raise KeyError).
Proof. vm_compute. repeat split. Qed.
End Demo.

(** ** Finite sums of real numbers *)

Section RealSums.
Local Open Scope R_scope.

Lemma Rsum_app {A : Type} (g : A -> R) (l l' : list A) :
  Rsum g (l ++ l') = Rsum g l + Rsum g l'.
Proof. induction l as [|x l IH]; simpl; [lra | rewrite IH; lra]. Qed.

Lemma Rsum_ext {A : Type} (g h : A -> R) (l : list A) :
  (forall x, In x l -> g x = h x) -> Rsum g l = Rsum h l.
Proof.
  induction l as [|x l IH]; simpl; intros H; [reflexivity|].
  rewrite (H x), IH; auto.
Qed.

Lemma Rsum_le {A : Type} (g h : A -> R) (l : list A) :
  (forall x, In x l -> g x <= h x) -> Rsum g l <= Rsum h l.
Proof.
  induction l as [|x l IH]; simpl; intros H; [lra|].
  apply Rplus_le_compat; auto.
Qed.

Lemma Rsum_plus {A : Type} (g h : A -> R) (l : list A) :
  Rsum (fun x => g x + h x) l = Rsum g l + Rsum h l.
Proof. induction l as [|x l IH]; simpl; [lra | rewrite IH; lra]. Qed.

Lemma Rsum_scal {A : Type} (c : R) (g : A -> R) (l : list A) :
  Rsum (fun x => c * g x) l = c * Rsum g l.
Proof. induction l as [|x l IH]; simpl; [lra | rewrite IH; lra]. Qed.

Lemma Rsum_zero {A : Type} (l : list A) : Rsum (fun _ => 0) l = 0.
Proof. induction l as [|x l IH]; simpl; [lra | rewrite IH; lra]. Qed.

Lemma Rsum_one {A : Type} (l : list A) : Rsum (fun _ => 1) l = INR (List.length l).
Proof.
  induction l as [|x l IH]; [reflexivity|].
  change (List.length (x :: l)) with (S (List.length l)).
  rewrite S_INR. simpl. rewrite IH. lra.
Qed.

Lemma Rsum_map {A B : Type} (f : A -> B) (g : B -> R) (l : list A) :
  Rsum g (map f l) = Rsum (fun x => g (f x)) l.
Proof. induction l as [|x l IH]; simpl; [reflexivity | rewrite IH; reflexivity]. Qed.

Lemma Rsum_nonneg {A : Type} (g : A -> R) (l : list A) :
  (forall x, In x l -> 0 <= g x) -> 0 <= Rsum g l.
Proof.
  intros H. rewrite <- (Rsum_zero l). apply Rsum_le. exact H.
Qed.

Lemma Rsum_swap {A B : Type} (g : A -> B -> R) (l : list A) (l' : list B) :
  Rsum (fun x => Rsum (fun y => g x y) l') l =
  Rsum (fun y => Rsum (fun x => g x y) l) l'.
Proof.
  induction l as [|x l IH]; simpl.
  - symmetry. apply Rsum_zero.
  - rewrite IH, <- Rsum_plus. reflexivity.
Qed.

Section Counting.
Variable A : Type.
Variable dec : forall x y : A, {x = y} + {x <> y}.

(** A sum that picks one point of a duplicate-free list. *)
Lemma Rsum_delta_out (F : A -> R) (a : A) (S : list A) :
  ~ In a S -> Rsum (fun c => if dec a c then F c else 0) S = 0.
Proof.
  induction S as [|x S IH]; simpl; intros Hn; [reflexivity|].
  destruct (dec a x) as [->|_]; [tauto|]. rewrite IH; [lra | tauto].
Qed.

Lemma Rsum_delta (F : A -> R) (a : A) (S : list A) :
  NoDup S -> In a S ->
  Rsum (fun c => if dec a c then F c else 0) S = F a.
Proof.
  induction 1 as [|x S Hx _ IH]; simpl; [tauto|].
  intros [->|Hin].
  - destruct (dec a a) as [_|]; [|contradiction].
    rewrite Rsum_delta_out by assumption. lra.
  - destruct (dec a x) as [->|_]; [contradiction|].
    rewrite IH by assumption. lra.
Qed.

(** Summing over the distinct values, weighted by their numbers of
    occurrences, is summing over the occurrences. *)
Lemma Rsum_count (F : A -> R) (S L : list A) :
  NoDup S -> incl L S ->
  Rsum (fun c => INR (count_occ dec L c) * F c) S = Rsum F L.
Proof.
  intros Hnd. induction L as [|a L IH]; intros Hincl.
  - transitivity (Rsum (fun _ : A => 0) S); [|apply Rsum_zero].
    apply Rsum_ext. intros; simpl; lra.
  - rewrite (Rsum_ext _ (fun c => INR (count_occ dec L c) * F c +
                                  (if dec a c then F c else 0))).
    + apply incl_cons_inv in Hincl as [Ha Hincl].
      rewrite Rsum_plus, IH, Rsum_delta by assumption. simpl. lra.
    + intros c _. simpl. destruct (dec a c); [rewrite S_INR|]; lra.
Qed.

Lemma count_sum (S L : list A) :
  NoDup S -> incl L S ->
  Rsum (fun c => INR (count_occ dec L c)) S = INR (List.length L).
Proof.
  intros Hnd Hincl. rewrite <- Rsum_one, <- (Rsum_count (fun _ => 1) S L Hnd Hincl).
  apply Rsum_ext. intros; lra.
Qed.

(** A sum of non-negative terms over a duplicate-free part of a list. *)
Lemma Rsum_incl (g : A -> R) (S B : list A) :
  NoDup S -> incl S B -> (forall x, In x B -> 0 <= g x) ->
  Rsum g S <= Rsum g B.
Proof.
  intros Hnd. revert B. induction Hnd as [|a S Ha _ IH]; intros B Hincl Hpos.
  - apply Rsum_nonneg. exact Hpos.
  - assert (HaB : In a B) by (apply Hincl; left; reflexivity).
    apply in_split in HaB as (B1 & B2 & ->).
    rewrite Rsum_app. simpl.
    assert (Hle : Rsum g S <= Rsum g (B1 ++ B2)).
    { apply IH.
      - intros x Hx. assert (Hx' : In x (B1 ++ a :: B2)) by (apply Hincl; right; exact Hx).
        apply in_app_or in Hx' as [?|[<-|?]]; [apply in_or_app; auto | contradiction | apply in_or_app; auto].
      - intros x Hx. apply Hpos. apply in_app_or in Hx as [?|?]; apply in_or_app; simpl; auto. }
    rewrite Rsum_app in Hle. lra.
Qed.
End Counting.

Lemma Rsum_list_prod {A B : Type} (g : A * B -> R) (l : list A) (l' : list B) :
  Rsum g (list_prod l l') = Rsum (fun x => Rsum (fun y => g (x, y)) l') l.
Proof.
  induction l as [|x l IH]; simpl; [reflexivity|].
  rewrite Rsum_app, Rsum_map, IH. reflexivity.
Qed.

Lemma ln_le_sub (y : R) : 0 < y -> ln y <= y - 1.
Proof.
  intros Hy. pose proof (exp_ineq1_le (y - 1)) as H.
  replace (1 + (y - 1)) with y in H by lra.
  destruct H as [H|H].
  - left. rewrite <- (ln_exp (y - 1)). apply ln_increasing; assumption.
  - right. rewrite H at 1. apply ln_exp.
Qed.

Lemma ln_ge_sub (x : R) : 0 < x -> 1 - / x <= ln x.
Proof.
  intros Hx. pose proof (ln_le_sub (/ x) (Rinv_0_lt_compat x Hx)) as H.
  rewrite ln_Rinv in H by assumption. lra.
Qed.

Lemma ln_le (x y : R) : 0 < x -> x <= y -> ln x <= ln y.
Proof.
  intros Hx [Hlt|<-]; [left; apply ln_increasing; assumption | right; reflexivity].
Qed.
End RealSums.

(** ** Counting in a list of pairs *)

Section Pairs.
Local Open Scope R_scope.
Variable L : list (value * value).


Lemma count_fst_ge (l : list (value * value)) (p : value * value) :
  (count_occ pair_dec l p <= count_occ string_dec (map fst l) (fst p))%nat.
Proof.
  induction l as [|q l IH]; simpl; [lia|].
  destruct (pair_dec q p) as [->|Hne].
  - destruct (string_dec (fst p) (fst p)); [lia | contradiction].
  - destruct (string_dec (fst q) (fst p)); lia.
Qed.

Lemma count_snd_ge (l : list (value * value)) (p : value * value) :
  (count_occ pair_dec l p <= count_occ string_dec (map snd l) (snd p))%nat.
Proof.
  induction l as [|q l IH]; simpl; [lia|].
  destruct (pair_dec q p) as [->|Hne].
  - destruct (string_dec (snd p) (snd p)); [lia | contradiction].
  - destruct (string_dec (snd q) (snd p)); lia.
Qed.

Lemma cp_pos (p : value * value) : In p L -> (0 < cp L p)%nat.
Proof. intros H. apply (count_occ_In pair_dec). exact H. Qed.

Lemma cv_ge (p : value * value) : (cp L p <= cv L (fst p))%nat.
Proof. apply count_fst_ge. Qed.

Lemma cl_ge (p : value * value) : (cp L p <= cl L (snd p))%nat.
Proof. apply count_snd_ge. Qed.

Let n : nat := List.length L.

(** The sum of [cv * cl / cp] over the occurrences is at most [n * n]. *)
Lemma cross_sum_le :
  Rsum (fun p => INR (cv L (fst p)) * INR (cl L (snd p)) / INR (cp L p)) L
  <= INR n * INR n.
Proof.
  set (g := fun p : value * value => INR (cv L (fst p)) * INR (cl L (snd p))).
  assert (Hg : forall p, 0 <= g p).
  { intros p. unfold g. apply Rmult_le_pos; apply pos_INR. }
  rewrite <- (Rsum_count _ pair_dec
               (fun p => INR (cv L (fst p)) * INR (cl L (snd p)) / INR (cp L p))
               (nodup pair_dec L) L).
  2: apply NoDup_nodup.
  2: intros x Hx; apply nodup_In; exact Hx.
  rewrite (Rsum_ext _ g).
  2:{ intros p Hp. apply nodup_In in Hp. apply cp_pos in Hp.
      fold (cp L p). assert (0 < INR (cp L p)) by (apply lt_0_INR; exact Hp).
      unfold g. field. lra. }
  apply Rle_trans with
    (Rsum g (list_prod (nodup string_dec (map fst L)) (nodup string_dec (map snd L)))).
  - apply Rsum_incl.
    + apply NoDup_nodup.
    + intros [v l] Hp. apply nodup_In in Hp. apply in_prod.
      * apply nodup_In. apply in_map_iff. exists (v, l). auto.
      * apply nodup_In. apply in_map_iff. exists (v, l). auto.
    + intros; apply Hg.
  - rewrite Rsum_list_prod. unfold g. simpl.
    rewrite (Rsum_ext _ (fun v => INR (cv L v) * INR n)).
    + rewrite (Rsum_ext _ (fun v => INR n * INR (cv L v))) by (intros; lra).
      rewrite Rsum_scal. unfold cv.
      rewrite count_sum.
      * rewrite length_map. fold n. lra.
      * apply NoDup_nodup.
      * intros x Hx. apply nodup_In. exact Hx.
    + intros v _. rewrite Rsum_scal. unfold cl. rewrite count_sum.
      * rewrite length_map. reflexivity.
      * apply NoDup_nodup.
      * intros x Hx. apply nodup_In. exact Hx.
Qed.

(** The mutual information of the two components is not negative. *)
Lemma mutual_information_nonneg :
  0 <= Rsum (fun p => ln (INR n * INR (cp L p) /
                          (INR (cv L (fst p)) * INR (cl L (snd p))))) L.
Proof.
  destruct (Nat.eq_dec n 0) as [Hz|Hnz].
  { apply Rsum_nonneg. intros p Hp. exfalso.
    apply length_zero_iff_nil in Hz. rewrite Hz in Hp. exact Hp. }
  assert (Hn : 0 < INR n) by (apply lt_0_INR; lia).
  apply Rle_trans with
    (Rsum (fun p => 1 - / INR n * (INR (cv L (fst p)) * INR (cl L (snd p)) / INR (cp L p))) L).
  - rewrite (Rsum_plus (fun _ => 1)
               (fun p => - (/ INR n * (INR (cv L (fst p)) * INR (cl L (snd p)) / INR (cp L p))))).
    rewrite Rsum_one. fold n.
    rewrite (Rsum_ext _ (fun p => (- / INR n) *
               (INR (cv L (fst p)) * INR (cl L (snd p)) / INR (cp L p)))) by (intros; lra).
    rewrite Rsum_scal.
    pose proof cross_sum_le as Hc.
    assert (/ INR n * Rsum (fun p => INR (cv L (fst p)) * INR (cl L (snd p)) / INR (cp L p)) L
            <= INR n).
    { apply Rmult_le_reg_l with (INR n); [exact Hn|].
      rewrite <- Rmult_assoc, Rinv_r, Rmult_1_l by lra. exact Hc. }
    lra.
  - apply Rsum_le. intros p Hp.
    assert (Hp1 : 0 < INR (cp L p)) by (apply lt_0_INR, cp_pos, Hp).
    assert (Hp2 : 0 < INR (cv L (fst p))).
    { apply Rlt_le_trans with (INR (cp L p)); [exact Hp1 | apply le_INR, cv_ge]. }
    assert (Hp3 : 0 < INR (cl L (snd p))).
    { apply Rlt_le_trans with (INR (cp L p)); [exact Hp1 | apply le_INR, cl_ge]. }
    set (x := INR n * INR (cp L p) / (INR (cv L (fst p)) * INR (cl L (snd p)))).
    assert (Hx : 0 < x).
    { unfold x. apply Rdiv_lt_0_compat; apply Rmult_lt_0_compat; assumption. }
    replace (/ INR n * (INR (cv L (fst p)) * INR (cl L (snd p)) / INR (cp L p))) with (/ x).
    + apply ln_ge_sub. exact Hx.
    + unfold x. field. repeat split; lra.
Qed.
End Pairs.

(** ** The value of the entropy in an exact arithmetic *)

Section ExactReading.
Context {P : Platform}.
Local Open Scope R_scope.
Local Open Scope result_scope.

Lemma for_each_Rsum {A : Type} (body : R -> A -> result R) (g : A -> R)
    (l : list A) :
  (forall x, In x l -> forall s, body s x = Ok (s + g x)) ->
  forall s, for_each body l s = Ok (s + Rsum g l).
Proof.
  induction l as [|x l IH]; simpl; intros H s.
  - f_equal. lra.
  - rewrite (H x (or_introl eq_refl)). simpl. rewrite IH by auto.
    f_equal. lra.
Qed.

Lemma ln_2_pos : 0 < ln 2.
Proof. pose proof ln_lt_2. lra. Qed.

Lemma INR_list_sum (l : list nat) : INR (list_sum l) = Rsum INR l.
Proof.
  induction l as [|k l IH]; simpl; [reflexivity|].
  rewrite plus_INR, IH. reflexivity.
Qed.

(** The counts of the distinct labels add up to the number of labels. *)
Lemma class_sum_length (classes : list value) :
  list_sum (map (count classes) (set_order classes)) = List.length classes.
Proof.
  apply INR_eq. rewrite INR_list_sum, Rsum_map. unfold count.
  apply count_sum.
  - apply set_order_NoDup.
  - intros x Hx. apply set_order_In. exact Hx.
Qed.

(** [entropy] and [split_entropy] are the two formulas at the double
    arithmetic. *)
Lemma entropy_float_arith (examples : list example) :
  entropy examples = entropy_with float_arith examples.
Proof. reflexivity. Qed.

Lemma split_entropy_float_arith (f : Z) (features : features_t)
    (examples : list example) :
  split_entropy f features examples =
  split_entropy_with float_arith f features examples.
Proof. reflexivity. Qed.

(** The arithmetic of the real numbers is exact. *)
Lemma real_arith_exact : exact_arith real_arith (fun x => x).
Proof.
  unfold exact_arith. cbn [real_arith a_zero a_minus_one a_add a_mul a_of_nat
                           a_div a_log2].
  repeat (split; [reflexivity|]). split.
  - intros x y z. unfold py_truediv_exact.
    destruct (Req_dec_T y 0); congruence.
  - intros x z. unfold math_log_exact, m_log_exact.
    destruct (Rle_dec x 0); [discriminate|].
    destruct (Rle_dec 2 0); [discriminate|]. cbn [bind].
    unfold py_truediv_exact. destruct (Req_dec_T (ln 2) 0); congruence.
Qed.

(** The double arithmetic is not exact, whatever the reading: it rounds,
    and [2^64 + 1.0] is [2^64]. *)
Lemma float_arith_not_exact (phi : float -> R) : ~ exact_arith float_arith phi.
Proof.
  intros (_ & _ & Hadd & _ & Hnat & _).
  pose proof (Hadd 0x1p+64%float 1%float) as H.
  cbn [float_arith a_add] in H.
  change (0x1p+64 + 1)%float with 0x1p+64%float in H.
  pose proof (Hnat 1%nat) as H1. cbn [float_arith a_of_nat] in H1.
  change (float_of_nat 1) with 1%float in H1. simpl in H1. lra.
Qed.

(** A loop over an exact arithmetic adds up what its body adds. *)
Lemma for_each_exact {F A : Type} (phi : F -> R) (body : F -> A -> result F)
    (g : A -> R) (l : list A) :
  (forall x, In x l -> forall s s', body s x = Ok s' -> phi s' = phi s + g x) ->
  forall s s', for_each body l s = Ok s' -> phi s' = phi s + Rsum g l.
Proof.
  induction l as [|x l IH]; simpl; intros H s s' Hs.
  - injection Hs as <-. lra.
  - apply bind_Ok_inv in Hs as (s1 & H1 & Hs).
    rewrite (IH (fun y Hy => H y (or_intror Hy)) _ _ Hs).
    rewrite (H x (or_introl eq_refl) _ _ H1). lra.
Qed.

(** In an exact arithmetic, what [entropy_with] returns reads as the
    Shannon entropy of the labels. *)
Lemma entropy_with_value {F : Type} (A : arith F) (phi : F -> R)
    (examples : list example) (classes : list value) (h : F) :
  exact_arith A phi ->
  class_labels examples = Ok classes ->
  entropy_with A examples = Ok h ->
  phi h = shannon (set_order classes) classes.
Proof.
  intros (Hz & Hm & Hadd & Hmul & Hnat & Hdiv & Hlog) Hc Hh.
  unfold entropy_with in Hh. rewrite Hc in Hh. cbn [bind] in Hh.
  cbv zeta in Hh. rewrite class_sum_length in Hh.
  apply (for_each_exact phi _
           (fun k => - (INR k / INR (List.length classes)) *
                     (ln (INR k / INR (List.length classes)) / ln 2)))
    in Hh.
  - rewrite Hh, Hz, Rsum_map. unfold shannon. lra.
  - intros k _ s s' Hbody. destruct (0 <? k)%nat eqn:Hk.
    + apply bind_Ok_inv in Hbody as (frac & Hfrac & Hbody).
      apply bind_Ok_inv in Hbody as (lg & Hlg & Hbody).
      injection Hbody as <-.
      rewrite Hadd, !Hmul, Hm, (Hlog _ _ Hlg), (Hdiv _ _ _ Hfrac), !Hnat.
      ring.
    + injection Hbody as <-. apply Nat.ltb_ge in Hk.
      assert (k = 0)%nat by lia. subst k. simpl. unfold Rdiv. ring.
Qed.

(** In the arithmetic of the real numbers [entropy_with] returns. *)
Lemma entropy_real_value (examples : list example) (classes : list value) :
  class_labels examples = Ok classes ->
  entropy_with real_arith examples = Ok (shannon (set_order classes) classes).
Proof.
  intros Hc. unfold entropy_with. rewrite Hc. cbn [bind]. cbv zeta.
  cbn [real_arith a_zero a_minus_one a_add a_mul a_of_nat a_div a_log2].
  rewrite class_sum_length.
  rewrite (for_each_Rsum _
             (fun k => - (INR k / INR (List.length classes)) *
                       (ln (INR k / INR (List.length classes)) / ln 2))).
  - f_equal. rewrite Rsum_map. unfold shannon. lra.
  - intros k Hk s. apply in_map_iff in Hk as (c & <- & Hc').
    apply (proj1 (set_order_In _ _)) in Hc'.
    assert (Hpos : (0 < count classes c)%nat).
    { apply (count_occ_In string_dec). exact Hc'. }
    assert (Hlen : (count classes c <= List.length classes)%nat).
    { apply count_occ_bound. }
    apply Nat.ltb_lt in Hpos as Hb. rewrite Hb.
    apply lt_INR in Hpos. apply le_INR in Hlen. simpl in Hpos.
    unfold py_truediv_exact.
    destruct (Req_dec_T (INR (List.length classes)) 0) as [E|_]; [lra|].
    cbn [bind].
    assert (Hfrac : 0 < INR (count classes c) / INR (List.length classes)).
    { apply Rdiv_lt_0_compat; lra. }
    unfold math_log_exact, m_log_exact.
    destruct (Rle_dec _ 0) as [?|_]; [lra|]. cbn [bind].
    destruct (Rle_dec 2 0) as [?|_]; [lra|]. cbn [bind].
    unfold py_truediv_exact.
    destruct (Req_dec_T (ln 2) 0) as [E|_]; [pose proof ln_2_pos; lra|].
    cbn [bind]. f_equal. ring.
Qed.
End ExactReading.

(** ** Information gain is not negative in an exact arithmetic *)

Lemma part_In (L : list (value * value)) (v : value) (p : value * value) :
  In p (part L v) <-> In p L /\ fst p = v.
Proof.
  unfold part. rewrite filter_In, String.eqb_eq. tauto.
Qed.

Lemma part_length (L : list (value * value)) (v : value) :
  List.length (part L v) = cv L v.
Proof.
  unfold cv, part. induction L as [|q L IH]; simpl; [reflexivity|].
  destruct (string_dec (fst q) v) as [e|ne].
  - rewrite (proj2 (String.eqb_eq _ _) e). simpl. f_equal. exact IH.
  - rewrite (proj2 (String.eqb_neq _ _) ne). exact IH.
Qed.

Lemma part_count (L : list (value * value)) (v x : value) :
  count_occ string_dec (map snd (part L v)) x = cp L (v, x).
Proof.
  unfold cp, part. induction L as [|[v' x'] L IH]; simpl; [reflexivity|].
  destruct (string_dec v' v) as [e|ne].
  - rewrite (proj2 (String.eqb_eq _ _) e). subst v'. simpl.
    destruct (string_dec x' x) as [->|Hne].
    + destruct (pair_dec (v, x) (v, x)); [f_equal; exact IH | contradiction].
    + destruct (pair_dec (v, x') (v, x)); [congruence | exact IH].
  - rewrite (proj2 (String.eqb_neq _ _) ne).
    destruct (pair_dec (v', x') (v, x)); [congruence | exact IH].
Qed.

Section Gain.
Local Open Scope R_scope.

Lemma Rsum_part (g : value * value -> R) (L : list (value * value)) (v : value) :
  Rsum g (part L v) = Rsum (fun p : value * value => if string_dec v (fst p) then g p else 0) L.
Proof.
  unfold part. induction L as [|q L IH]; simpl; [reflexivity|].
  destruct (string_dec v (fst q)) as [e|ne].
  - rewrite (proj2 (String.eqb_eq _ _) (eq_sym e)). simpl. rewrite IH. reflexivity.
  - rewrite (proj2 (String.eqb_neq _ _) (not_eq_sym ne)). rewrite IH. lra.
Qed.

Lemma ln_ratio (a b : R) : 0 < a -> 0 < b -> ln (a / b) = ln a - ln b.
Proof.
  intros Ha Hb. unfold Rdiv.
  rewrite ln_mult, ln_Rinv by (try apply Rinv_0_lt_compat; assumption). lra.
Qed.

Context {P : Platform}.

(** [n * ln 2] times the entropy of [classes] is the sum, over the
    occurrences of the labels, of [ln (n / count)]. *)
Lemma shannon_elements (S classes : list value) :
  NoDup S -> incl classes S -> incl S classes ->
  INR (List.length classes) * ln 2 * shannon S classes =
  Rsum (fun x => ln (INR (List.length classes) / INR (count classes x))) classes.
Proof.
  intros Hnd Hin Hout.
  rewrite <- (Rsum_count _ string_dec _ S classes Hnd Hin).
  unfold shannon. rewrite <- Rsum_scal. apply Rsum_ext. intros c Hc.
  apply Hout in Hc.
  assert (Hpos : (0 < count classes c)%nat).
  { apply (count_occ_In string_dec). exact Hc. }
  assert (Hlen : (count classes c <= List.length classes)%nat).
  { apply count_occ_bound. }
  apply lt_INR in Hpos. apply le_INR in Hlen. simpl in Hpos.
  fold (count classes c).
  rewrite !ln_ratio by lra.
  pose proof ln_2_pos. field. lra.
Qed.

Variable L : list (value * value).
Variable dom : list value.
Hypothesis dom_NoDup : NoDup dom.

Let n : nat := List.length L.

(** One term of the split entropy, scaled by [n * ln 2]. *)
Lemma part_term (v : value) :
  (0 < n)%nat ->
  INR n * ln 2 *
  (INR (List.length (part L v)) / INR n *
   shannon (set_order (map snd (part L v))) (map snd (part L v))) =
  Rsum (fun p : value * value => if string_dec v (fst p)
                 then ln (INR (cv L (fst p)) / INR (cp L p)) else 0) L.
Proof.
  intros Hn. apply lt_INR in Hn. simpl in Hn.
  rewrite <- Rsum_part.
  transitivity (INR (List.length (map snd (part L v))) * ln 2 *
                shannon (set_order (map snd (part L v))) (map snd (part L v))).
  { rewrite length_map. field. lra. }
  rewrite shannon_elements.
  - rewrite Rsum_map. apply Rsum_ext. intros [v' x] Hp.
    apply part_In in Hp as [_ Hv]. simpl in Hv. subst v'. simpl.
    rewrite length_map, part_length. unfold count. rewrite part_count.
    reflexivity.
  - apply set_order_NoDup.
  - intros x Hx. apply set_order_In. exact Hx.
  - intros x Hx. apply (proj1 (set_order_In _ _)). exact Hx.
Qed.

Theorem pairs_gain_nonneg :
  (0 < n)%nat ->
  Rsum (fun v => INR (List.length (part L v)) / INR n *
                 shannon (set_order (map snd (part L v))) (map snd (part L v)))
       dom
  <= shannon (set_order (map snd L)) (map snd L).
Proof.
  intros Hn. pose proof Hn as Hn'. apply lt_INR in Hn'. simpl in Hn'.
  pose proof ln_2_pos as Hln.
  apply Rmult_le_reg_l with (INR n * ln 2); [apply Rmult_lt_0_compat; lra|].
  rewrite <- Rsum_scal.
  rewrite (Rsum_ext _ _ dom (fun v _ => part_term v Hn)).
  rewrite Rsum_swap.
  replace (INR n) with (INR (List.length (map snd L)))
    by (rewrite length_map; reflexivity).
  rewrite shannon_elements.
  2: apply set_order_NoDup.
  2: intros x Hx; apply set_order_In; exact Hx.
  2: intros x Hx; apply (proj1 (set_order_In _ _)); exact Hx.
  rewrite Rsum_map, length_map. fold n.
  assert (Hmi := mutual_information_nonneg L). fold n in Hmi.
  apply Rle_trans with
    (Rsum (fun p : value * value => ln (INR n / INR (count (map snd L) (snd p))) -
                    ln (INR n * INR (cp L p) /
                        (INR (cv L (fst p)) * INR (cl L (snd p))))) L).
  - apply Rsum_le. intros p Hp.
    assert (Hp1 : 0 < INR (cp L p)).
    { apply lt_0_INR. apply cp_pos. exact Hp. }
    assert (Hp2 : INR (cp L p) <= INR (cv L (fst p))) by apply le_INR, cv_ge.
    assert (Hp3 : INR (cp L p) <= INR (cl L (snd p))) by apply le_INR, cl_ge.
    change (count (map snd L) (snd p)) with (cl L (snd p)).
    destruct (in_dec string_dec (fst p) dom) as [Hd|Hd].
    + rewrite (Rsum_ext _ (fun v => if string_dec (fst p) v
                                    then ln (INR (cv L (fst p)) / INR (cp L p))
                                    else 0)).
      2:{ intros v _. destruct (string_dec v (fst p)) as [->|Hne].
          - destruct (string_dec (fst p) (fst p)); [reflexivity | contradiction].
          - destruct (string_dec (fst p) v); [congruence | reflexivity]. }
      rewrite (Rsum_delta _ string_dec (fun _ => ln (INR (cv L (fst p)) / INR (cp L p))))
        by assumption.
      rewrite !ln_ratio; try lra; try (apply Rmult_lt_0_compat; lra).
      rewrite !ln_mult by lra. lra.
    + rewrite (Rsum_ext _ (fun v => if string_dec (fst p) v
                                    then ln (INR (cv L (fst p)) / INR (cp L p))
                                    else 0)).
      2:{ intros v _. destruct (string_dec v (fst p)) as [->|Hne].
          - destruct (string_dec (fst p) (fst p)); [reflexivity | contradiction].
          - destruct (string_dec (fst p) v); [congruence | reflexivity]. }
      rewrite (Rsum_delta_out _ string_dec (fun _ => ln (INR (cv L (fst p)) / INR (cp L p))))
        by assumption.
      assert (ln (INR n * INR (cp L p) / (INR (cv L (fst p)) * INR (cl L (snd p))))
              <= ln (INR n / INR (cl L (snd p)))); [|lra].
      apply ln_le.
      * apply Rdiv_lt_0_compat; apply Rmult_lt_0_compat; lra.
      * apply Rmult_le_reg_r with (INR (cv L (fst p)) * INR (cl L (snd p)));
          [apply Rmult_lt_0_compat; lra|].
        replace (INR n * INR (cp L p) / (INR (cv L (fst p)) * INR (cl L (snd p))) *
                 (INR (cv L (fst p)) * INR (cl L (snd p))))
          with (INR n * INR (cp L p)) by (field; lra).
        replace (INR n / INR (cl L (snd p)) * (INR (cv L (fst p)) * INR (cl L (snd p))))
          with (INR n * INR (cv L (fst p))) by (field; lra).
        apply Rmult_le_compat_l; lra.
  - rewrite (Rsum_ext _
               (fun p : value * value =>
                  ln (INR n / INR (count (map snd L) (snd p))) +
                  (-1) * ln (INR n * INR (cp L p) /
                             (INR (cv L (fst p)) * INR (cl L (snd p))))))
      by (intros; lra).
    rewrite Rsum_plus, Rsum_scal. lra.
Qed.
End Gain.

Section ExactGain.
Context {P : Platform}.
Local Open Scope R_scope.

Lemma comprehension_length {A B : Type} (f : A -> result B) (l : list A)
    (ys : list B) :
  comprehension f l = Ok ys -> List.length ys = List.length l.
Proof.
  intros H. apply comprehension_Ok in H. symmetry.
  eapply Forall2_length. eassumption.
Qed.

(** When a filter of the examples by feature [f] returns, every example has
    a value for [f]. *)
Lemma filter_examples_column (examples : list example) (f : Z) (v : value)
    (sub : list example) :
  filter_examples examples f v = Ok sub ->
  exists vals,
    comprehension (fun ex : example => py_index ex f) examples = Ok vals.
Proof.
  revert sub. induction examples as [|e examples IH]; simpl; intros sub H.
  - eauto.
  - apply bind_Ok_inv in H as (x & Hx & H).
    apply bind_Ok_inv in H as (kept & Hk & _).
    destruct (IH kept Hk) as [vals Hv]. rewrite Hx, Hv. simpl. eauto.
Qed.

(** Filtering the examples is filtering the pairs of feature value and
    label. *)
Lemma filter_examples_pairs (examples : list example) (f : Z) (v : value) :
  forall vals classes,
    comprehension (fun ex : example => py_index ex f) examples = Ok vals ->
    class_labels examples = Ok classes ->
    exists sub,
      filter_examples examples f v = Ok sub /\
      class_labels sub = Ok (map snd (part (combine vals classes) v)) /\
      List.length sub = List.length (part (combine vals classes) v).
Proof.
  unfold class_labels.
  induction examples as [|e examples IH]; simpl; intros vals classes Hv Hc.
  - injection Hv as <-. exists []. auto.
  - apply bind_Ok_inv in Hv as (x & Hx & Hv).
    apply bind_Ok_inv in Hv as (vals' & Hv' & Hv). injection Hv as <-.
    apply bind_Ok_inv in Hc as (c & Hc0 & Hc).
    apply bind_Ok_inv in Hc as (classes' & Hc' & Hc). injection Hc as <-.
    destruct (IH vals' classes' Hv' Hc') as (sub & Hsub & Hl & Hlen).
    rewrite Hx, Hsub. simpl. unfold part in *. simpl.
    destruct (String.eqb x v).
    + exists (e :: sub). split; [reflexivity|]. simpl. rewrite Hc0, Hl. simpl.
      split; [reflexivity | f_equal; exact Hlen].
    + exists sub. auto.
Qed.

Lemma snd_combine {A B : Type} (l : list A) (l' : list B) :
  List.length l = List.length l' -> map snd (combine l l') = l'.
Proof.
  revert l'. induction l as [|x l IH]; intros [|y l'] H; simpl in *;
    try discriminate; [reflexivity|].
  f_equal. apply IH. lia.
Qed.

(** In an exact arithmetic, what [split_entropy_with] returns reads as the
    weighted sum of the Shannon entropies of the partitions. *)
Lemma split_entropy_with_value {F : Type} (A : arith F) (phi : F -> R)
    (f : Z) (features : features_t) (examples : list example)
    (domain vals classes : list value) (se : F) :
  exact_arith A phi ->
  dict_get Z.eqb features f = Ok domain ->
  comprehension (fun ex : example => py_index ex f) examples = Ok vals ->
  class_labels examples = Ok classes ->
  split_entropy_with A f features examples = Ok se ->
  phi se =
  Rsum (fun v =>
          INR (List.length (part (combine vals classes) v)) /
          INR (List.length (combine vals classes)) *
          shannon (set_order (map snd (part (combine vals classes) v)))
                  (map snd (part (combine vals classes) v)))
       domain.
Proof.
  intros Hex Hget Hv Hc Hse.
  pose proof Hex as (Hz & Hm & Hadd & Hmul & Hnat & Hdiv & Hlog).
  unfold split_entropy_with in Hse. rewrite Hget in Hse. cbn [bind] in Hse.
  assert (Hlen : List.length (combine vals classes) = List.length examples).
  { rewrite length_combine, (comprehension_length _ _ _ Hv).
    unfold class_labels in Hc. rewrite (comprehension_length _ _ _ Hc).
    apply Nat.min_id. }
  apply (for_each_exact phi _
           (fun v =>
              INR (List.length (part (combine vals classes) v)) /
              INR (List.length (combine vals classes)) *
              shannon (set_order (map snd (part (combine vals classes) v)))
                      (map snd (part (combine vals classes) v))))
    in Hse.
  - rewrite Hse, Hz. lra.
  - intros v _ s s' Hbody.
    destruct (filter_examples_pairs examples f v vals classes Hv Hc)
      as (sub & Hsub & Hl & Hlen').
    rewrite Hsub in Hbody. cbn [bind] in Hbody.
    apply bind_Ok_inv in Hbody as (w & Hw & Hbody).
    apply bind_Ok_inv in Hbody as (h & Hh & Hbody).
    injection Hbody as <-.
    rewrite Hadd, Hmul, (Hdiv _ _ _ Hw), !Hnat.
    rewrite (entropy_with_value A phi sub _ h Hex Hl Hh).
    rewrite Hlen', Hlen. reflexivity.
Qed.

(** In the arithmetic of the real numbers [split_entropy_with] returns,
    on examples that all have a value for the feature. *)
Lemma split_entropy_real_value (f : Z) (features : features_t)
    (examples : list example) (domain vals classes : list value) :
  examples <> [] ->
  dict_get Z.eqb features f = Ok domain ->
  comprehension (fun ex : example => py_index ex f) examples = Ok vals ->
  class_labels examples = Ok classes ->
  split_entropy_with real_arith f features examples =
  Ok (Rsum (fun v =>
              INR (List.length (part (combine vals classes) v)) /
              INR (List.length (combine vals classes)) *
              shannon (set_order (map snd (part (combine vals classes) v)))
                      (map snd (part (combine vals classes) v)))
           domain).
Proof.
  intros Hne Hget Hv Hc. unfold split_entropy_with. rewrite Hget.
  cbn [bind real_arith a_zero a_minus_one a_add a_mul a_of_nat a_div a_log2].
  assert (Hlen : List.length (combine vals classes) = List.length examples).
  { rewrite length_combine, (comprehension_length _ _ _ Hv).
    unfold class_labels in Hc. rewrite (comprehension_length _ _ _ Hc).
    apply Nat.min_id. }
  rewrite (for_each_Rsum _
             (fun v =>
                INR (List.length (part (combine vals classes) v)) /
                INR (List.length (combine vals classes)) *
                shannon (set_order (map snd (part (combine vals classes) v)))
                        (map snd (part (combine vals classes) v)))).
  - f_equal. lra.
  - intros v _ s.
    destruct (filter_examples_pairs examples f v vals classes Hv Hc)
      as (sub & Hsub & Hl & Hlen').
    rewrite Hsub. cbn [bind]. unfold py_truediv_exact.
    destruct (Req_dec_T (INR (List.length examples)) 0) as [E|_].
    { exfalso. destruct examples; [contradiction|].
      change (List.length (e :: examples)) with (S (List.length examples)) in E.
      rewrite S_INR in E. pose proof (pos_INR (List.length examples)). lra. }
    cbn [bind].
    change (entropy_with {| a_zero := 0; a_minus_one := -1; a_add := Rplus;
                            a_mul := Rmult; a_of_nat := INR;
                            a_div := py_truediv_exact;
                            a_log2 := fun x => math_log_exact x 2 |} sub)
      with (entropy_with real_arith sub).
    rewrite (entropy_real_value _ _ Hl). cbn [bind].
    rewrite Hlen', Hlen. reflexivity.
Qed.

End ExactGain.

(** ** The bounds of the entropy in an exact arithmetic *)

Section ExactBounds.
Context {P : Platform}.
Local Open Scope R_scope.

Lemma Rsum_zero_terms {A : Type} (g : A -> R) (l : list A) :
  (forall x, In x l -> 0 <= g x) -> Rsum g l = 0 ->
  forall x, In x l -> g x = 0.
Proof.
  induction l as [|a l IH]; simpl; intros Hpos Hsum x Hx; [contradiction|].
  pose proof (Hpos a (or_introl eq_refl)) as Ha.
  pose proof (Rsum_nonneg g l (fun y Hy => Hpos y (or_intror Hy))) as Hl.
  destruct Hx as [<-|Hx]; [lra|].
  apply IH; [intros y Hy; apply Hpos; right; exact Hy | lra | exact Hx].
Qed.

Lemma Rsum_const {A : Type} (c : R) (l : list A) :
  Rsum (fun _ => c) l = c * INR (List.length l).
Proof.
  rewrite <- (Rsum_one l), <- Rsum_scal. apply Rsum_ext. intros x _. ring.
Qed.

Lemma count_all_equal (classes : list value) (x : value) :
  count classes x = List.length classes <->
  forall y, In y classes -> y = x.
Proof.
  unfold count. induction classes as [|c classes IH]; simpl.
  - split; [intros _ y [] | reflexivity].
  - destruct (string_dec c x) as [->|Hne].
    + split.
      * intros [= H] y [<-|Hy]; [reflexivity | exact (proj1 IH H y Hy)].
      * intros H. f_equal. apply IH. intros y Hy. apply H. right. exact Hy.
    + split.
      * intros H. exfalso.
        pose proof (count_occ_bound string_dec x classes) as Hb.
        rewrite H in Hb. unfold value in Hb. lia.
      * intros H. exfalso. apply Hne. apply H. left. reflexivity.
Qed.

Lemma class_labels_In (examples : list example) (classes : list value)
    (c : value) :
  class_labels examples = Ok classes -> In c classes ->
  exists ex, In ex examples /\ py_index ex (-1) = Ok c.
Proof.
  unfold class_labels. revert classes.
  induction examples as [|e examples IH]; simpl; intros classes H Hc.
  - injection H as <-. contradiction.
  - apply bind_Ok_inv in H as (y & Hy & H).
    apply bind_Ok_inv in H as (ys & Hys & H). injection H as <-.
    destruct Hc as [<-|Hc]; [eauto|].
    destruct (IH ys Hys Hc) as (ex & Hex & Hl). eauto.
Qed.

(** The Shannon entropy of a non-empty list of labels is between 0 and
    the binary logarithm of the number of distinct labels, and it is 0
    exactly when all labels are equal. *)
Lemma shannon_bounds (classes : list value) :
  classes <> [] ->
  0 <= shannon (set_order classes) classes
    <= ln (INR (List.length (set_order classes))) / ln 2 /\
  (shannon (set_order classes) classes = 0 <->
   forall x y, In x classes -> In y classes -> x = y).
Proof.
  intros Hne.
  pose proof ln_2_pos as Hln2.
  set (n := List.length classes).
  set (S := set_order classes).
  assert (Hn : 0 < INR n).
  { apply lt_0_INR. unfold n. destruct classes; [contradiction | simpl; lia]. }
  assert (Hcount : forall x, In x classes ->
            1 <= INR (count classes x) <= INR n).
  { intros x Hx. split.
    - change 1 with (INR 1). apply le_INR.
      apply (count_occ_In string_dec) in Hx. unfold count. lia.
    - apply le_INR. apply count_occ_bound. }
  assert (HS : forall x, In x S <-> In x classes) by apply set_order_In.
  pose proof (shannon_elements S classes (set_order_NoDup classes)
                (fun x Hx => proj2 (HS x) Hx) (fun x Hx => proj1 (HS x) Hx))
    as E.
  fold n in E.
  assert (Hterm : forall x, In x classes ->
            0 <= ln (INR n / INR (count classes x))).
  { intros x Hx. destruct (Hcount x Hx) as [H1 H2].
    rewrite <- ln_1. apply ln_le; [lra|].
    apply Rmult_le_reg_r with (INR (count classes x)); [lra|].
    unfold Rdiv. rewrite Rmult_assoc, Rinv_l by lra. lra. }
  assert (Hk : 0 < INR (List.length S)).
  { apply lt_0_INR. destruct classes as [|c classes']; [contradiction|].
    assert (Hc : In c S) by (apply HS; left; reflexivity).
    destruct S; [contradiction | simpl; lia]. }
  split; [split|].
  - apply Rmult_le_reg_l with (INR n * ln 2); [apply Rmult_lt_0_compat; lra|].
    rewrite E, Rmult_0_r. apply Rsum_nonneg. exact Hterm.
  - apply Rmult_le_reg_l with (INR n * ln 2); [apply Rmult_lt_0_compat; lra|].
    rewrite E.
    replace (INR n * ln 2 * (ln (INR (List.length S)) / ln 2))
      with (INR n * ln (INR (List.length S))) by (field; lra).
    apply Rle_trans with
      (Rsum (fun x => ln (INR (List.length S)) +
                      (INR n / (INR (List.length S) * INR (count classes x)) - 1))
            classes).
    + apply Rsum_le. intros x Hx. destruct (Hcount x Hx) as [H1 H2].
      assert (Hy : 0 < INR n / (INR (List.length S) * INR (count classes x))).
      { apply Rdiv_lt_0_compat; [lra | apply Rmult_lt_0_compat; lra]. }
      replace (INR n / INR (count classes x))
        with (INR (List.length S) *
              (INR n / (INR (List.length S) * INR (count classes x))))
        by (field; lra).
      rewrite ln_mult by lra.
      pose proof (ln_le_sub _ Hy). lra.
    + rewrite Rsum_plus, Rsum_const. fold n.
      rewrite (Rsum_ext _ (fun x =>
                 INR n / (INR (List.length S) * INR (count classes x)) + (-1)))
        by (intros; lra).
      rewrite Rsum_plus, Rsum_const. fold n.
      assert (Hsum : Rsum (fun x : value =>
                 INR n / (INR (List.length S) * INR (count classes x)))
                classes = INR n).
      { transitivity
          (Rsum (fun c : value =>
                   INR (count_occ string_dec classes c) *
                   (INR n / (INR (List.length S) * INR (count classes c))))
                S).
        - symmetry.
          exact (Rsum_count _ string_dec
                   (fun x : value =>
                      INR n / (INR (List.length S) * INR (count classes x)))
                   S classes (set_order_NoDup classes)
                   (fun x Hx => proj2 (HS x) Hx)).
        - rewrite (Rsum_ext _ (fun _ : value => INR n / INR (List.length S))).
          + rewrite Rsum_const. field. lra.
          + intros c Hc. apply HS in Hc. destruct (Hcount c Hc) as [H1 H2].
            fold (count classes c). field. lra. }
      rewrite Hsum. right. ring.
  - split.
    + intros H0 x y Hx Hy.
      assert (HT : Rsum (fun x => ln (INR n / INR (count classes x))) classes
                   = 0).
      { rewrite <- E, H0. ring. }
      assert (Hall : forall z, In z classes -> count classes z = n).
      { intros z Hz. pose proof (Rsum_zero_terms _ _ Hterm HT z Hz) as Hz0.
        destruct (Hcount z Hz) as [H1 H2].
        rewrite <- ln_1 in Hz0. apply ln_inv in Hz0; [|apply Rdiv_lt_0_compat; lra|lra].
        apply INR_eq.
        apply Rmult_eq_reg_r with (/ INR (count classes z));
          [|apply Rinv_neq_0_compat; lra].
        rewrite Rinv_r by lra. symmetry. exact Hz0. }
      rewrite (proj1 (count_all_equal classes y) (Hall y Hy) x Hx).
      reflexivity.
    + intros Hall.
      apply Rmult_eq_reg_l with (INR n * ln 2);
        [|apply Rgt_not_eq, Rmult_lt_0_compat; lra].
      rewrite E, Rmult_0_r.
      rewrite (Rsum_ext _ (fun _ => 0)); [apply Rsum_zero|].
      intros x Hx.
      assert (Hc : count classes x = n).
      { apply count_all_equal. intros y Hy. apply Hall; assumption. }
      rewrite Hc. unfold Rdiv. rewrite Rinv_r by lra. apply ln_1.
Qed.

End ExactBounds.

(** ** Split entropy above entropy in double precision *)

Section Rounding.
Local Open Scope string_scope.




End Rounding.

(** ** The rounding example on any platform

    The example of [split_entropy_above_entropy] depends on the platform
    only through the value of [math.log(0.5, 2.0)]. *)

Section RoundingAnyPlatform.
Context {P : Platform}.
Local Open Scope string_scope.

Lemma set_order_two (a b : value) (l : list value) :
  a <> b -> In a l -> In b l -> (forall x, In x l -> x = a \/ x = b) ->
  set_order l = [a; b] \/ set_order l = [b; a].
Proof.
  intros Hab Ha Hb Hl.
  pose proof (set_order_NoDup l) as Hnd.
  assert (Hin : forall x, In x (set_order l) -> x = a \/ x = b).
  { intros x Hx. apply Hl. apply (proj1 (set_order_In l x)). exact Hx. }
  apply (proj2 (set_order_In l a)) in Ha.
  apply (proj2 (set_order_In l b)) in Hb.
  destruct (set_order l) as [|x [|y [|z s]]].
  - contradiction.
  - simpl in Ha, Hb. destruct Ha as [<-|[]], Hb as [<-|[]]. contradiction.
  - inversion Hnd as [|? ? Hx _]; subst. simpl in Hx.
    destruct (Hin x (or_introl eq_refl)) as [-> | ->],
             (Hin y (or_intror (or_introl eq_refl))) as [-> | ->];
      tauto.
  - exfalso.
    inversion Hnd as [|? ? Hx Hnd']; subst.
    inversion Hnd' as [|? ? Hy _]; subst. simpl in Hx, Hy.
    destruct (Hin x (or_introl eq_refl)) as [-> | ->],
             (Hin y (or_intror (or_introl eq_refl))) as [-> | ->],
             (Hin z (or_intror (or_intror (or_introl eq_refl)))) as [-> | ->];
      tauto.
Qed.

(** The entropy of examples with two labels, [k] examples each, when
    [float(k) / float(k + k)] is 0.5. *)
Lemma entropy_balanced (examples : list example) (classes : list value)
    (a b : value) (k : nat) :
  math_log 0.5 2 = Ok (-1)%float ->
  class_labels examples = Ok classes ->
  a <> b -> In a classes -> In b classes ->
  (forall x, In x classes -> x = a \/ x = b) ->
  count classes a = k -> count classes b = k ->
  0 < k ->
  py_truediv (float_of_nat k) (float_of_nat (k + k)) = Ok 0.5%float ->
  entropy examples = Ok 1%float.
Proof.
  intros Hlog Hc Hab Ha Hb Hl Hka Hkb Hk Hdiv.
  unfold entropy. rewrite Hc. cbn [bind].
  assert (Hcounts : map (count classes) (set_order classes) = [k; k]).
  { destruct (set_order_two a b classes Hab Ha Hb Hl) as [E|E];
      rewrite E; simpl; rewrite Hka, Hkb; reflexivity. }
  rewrite Hcounts. cbn [list_sum fold_right for_each].
  replace (k + (k + 0)) with (k + k) by lia.
  apply Nat.ltb_lt in Hk. rewrite Hk, Hdiv. cbn [bind].
  rewrite Hlog. cbn [bind for_each]. reflexivity.
Qed.

Lemma entropy_nine_values :
  math_log 0.5 2 = Ok (-1)%float -> entropy nine_values = Ok 1%float.
Proof.
  intros Hlog.
  apply (entropy_balanced nine_values
           ["Yes"; "No"; "Yes"; "No"; "Yes"; "No"; "Yes"; "No"; "Yes"; "No";
            "Yes"; "No"; "Yes"; "No"; "Yes"; "No"; "Yes"; "No"]
           "Yes" "No" 9 Hlog);
    try reflexivity; try discriminate; simpl; try tauto; try lia.
  intuition congruence.
Qed.

Lemma entropy_pair (v : value) :
  math_log 0.5 2 = Ok (-1)%float ->
  entropy [ [v; "Yes"]; [v; "No"] ] = Ok 1%float.
Proof.
  intros Hlog.
  apply (entropy_balanced _ ["Yes"; "No"] "Yes" "No" 1 Hlog);
    try reflexivity; try discriminate; simpl; try tauto; try lia.
  intuition congruence.
Qed.

(** On every platform where [math.log(0.5, 2.0)] is -1.0, the split
    entropy of the only feature of [nine_values] is above their entropy. *)
Lemma split_entropy_above_entropy_any_platform :
  math_log 0.5 2 = Ok (-1)%float ->
  entropy nine_values = Ok 1%float /\
  split_entropy 0 nine_features nine_values = Ok 0x1.0000000000001p+0%float.
Proof.
  intros Hlog. split; [exact (entropy_nine_values Hlog)|].
  unfold split_entropy, nine_features. cbn [dict_get Z.eqb bind].
  assert (Hstep : forall (v : value) (se : float),
            In v ["v1"; "v2"; "v3"; "v4"; "v5"; "v6"; "v7"; "v8"; "v9"] ->
            bind (filter_examples nine_values 0 v)
              (fun split_examples =>
                 bind (py_truediv (float_of_nat (List.length split_examples))
                                  (float_of_nat (List.length nine_values)))
                   (fun weight =>
                      bind (entropy split_examples)
                        (fun h => Ok (se + weight * h)%float))) =
            Ok (se + 0x1.c71c71c71c71cp-4 * 1)%float).
  { intros v se Hv.
    assert (Hf : filter_examples nine_values 0 v = Ok [ [v; "Yes"]; [v; "No"] ]).
    { simpl in Hv. repeat (destruct Hv as [<-|Hv]; [reflexivity|]). contradiction. }
    rewrite Hf. cbn [bind].
    match goal with
    | |- context [py_truediv ?x ?y] =>
        change (py_truediv x y) with (Ok 0x1.c71c71c71c71cp-4%float)
    end.
    cbn [bind].
    rewrite (entropy_pair v Hlog). reflexivity. }
  cbn [for_each].
  repeat (rewrite Hstep by (simpl; tauto); cbn [bind for_each]).
  reflexivity.
Qed.
End RoundingAnyPlatform.

(** ** The vanishing value on any platform

    Whatever the order of the sets and whatever the logarithm, no tree is
    returned for [vanish_examples]: whichever feature the root splits on,
    the other feature has a root-level value with no example one level
    down. *)

Section VanishAnyPlatform.
Context {P : Platform}.
Local Open Scope string_scope.

Lemma same_class_two (examples : list example) (classes : list value)
    (a b : value) :
  class_labels examples = Ok classes ->
  In a classes -> In b classes -> a <> b ->
  same_class examples = Ok false.
Proof.
  intros Hc Ha Hb Hab. unfold same_class. rewrite Hc. cbn [bind].
  apply (proj2 (set_order_In classes a)) in Ha.
  apply (proj2 (set_order_In classes b)) in Hb.
  destruct (set_order classes) as [|x [|y s]]; try reflexivity.
  exfalso. simpl in Ha, Hb. destruct Ha as [<-|[]], Hb as [<-|[]].
  contradiction.
Qed.

(** A returned tree over examples of more than one class and a non-empty
    table has, under every value of the domain of its split feature, a
    child built from a non-empty partition. *)
Lemma built_children_nonempty (fuel : nat) (examples : list example)
    (features : features_t) (t : TreeNode) :
  build_tree_1 fuel examples features = Some (Ok t) ->
  domains_NoDup features ->
  same_class examples = Ok false ->
  features <> [] ->
  exists k dom rem fuel',
    In (k, dom) features /\
    dict_pop Z.eqb features k = Ok rem /\
    forall v, In v dom ->
      exists sub c,
        filter_examples examples k v = Ok sub /\
        sub <> [] /\
        build_tree_1 fuel' sub rem = Some (Ok c).
Proof.
  intros Hb Hdom Hsame Hne.
  destruct (build_tree_1_inv _ _ _ _ Hb Hdom)
    as (fuel' & _ & _ & [Hleaf|Hsplit]).
  - destruct Hleaf as (_ & _ & [Hs|[_ Hs]]); [congruence | contradiction].
  - destruct Hsplit as (_ & _ & rem & dom & _ & Hpop & Hget & _ & Hall & Hkids).
    exists (split_feature t), dom, rem, fuel'.
    split; [apply dict_get_Z_In; exact Hget|]. split; [exact Hpop|].
    intros v Hv. destruct (Hall v Hv) as [c Hc].
    destruct (Hkids v (Some c) Hc) as (c' & sub & [= <-] & Hsub & Hbc).
    exists sub, c. split; [exact Hsub|]. split; [|exact Hbc].
    destruct (build_tree_1_inv _ _ _ _ Hbc
                (domains_NoDup_incl _ _ (proj2 (dict_pop_Ok _ _ _ Hpop)) Hdom))
      as (_ & _ & Hmc & _).
    exact (majority_class_nonempty _ _ Hmc).
Qed.

Lemma build_tree_vanish_any_platform :
  exists e, build_tree vanish_examples = Some (Raise e).
Proof.
  set (fs := [ (0%Z, set_order ["a"; "a"; "b"; "b"]);
               (1%Z, set_order ["x"; "x"; "y"; "y"]) ] : features_t).
  assert (Hfs : collect_features vanish_examples 2 = Ok fs) by reflexivity.
  assert (Hdom : domains_NoDup fs).
  { intros k dom [[= <- <-]|[[= <- <-]|[]]]; apply set_order_NoDup. }
  unfold build_tree, vanish_examples. cbn [List.length Nat.sub].
  fold vanish_examples. rewrite Hfs. unfold bbind at 1.
  destruct (build_tree_1_fuel (S (List.length fs)) vanish_examples fs)
    as [[t|e] Hb]; [lia | exfalso | rewrite Hb; unfold bbind; eauto].
  destruct (built_children_nonempty _ _ _ _ Hb Hdom)
    as (k & dom & rem & fuel1 & Hk & Hpop & Hkids).
  { apply (same_class_two _ ["Yes"; "No"; "Yes"; "Yes"] "Yes" "No");
      [reflexivity | simpl; tauto | simpl; tauto | discriminate]. }
  { discriminate. }
  assert (Hsame : same_class vanish_subset = Ok false).
  { apply (same_class_two _ ["Yes"; "No"] "Yes" "No");
      [reflexivity | simpl; tauto | simpl; tauto | discriminate]. }
  destruct Hk as [[= <- <-]|[[= <- <-]|[]]].
  - (* the root splits on feature 0 *)
    injection Hpop as <-.
    destruct (Hkids "a") as (sub & c & Hsub & _ & Hc).
    { apply set_order_In. simpl. tauto. }
    injection Hsub as <-. fold vanish_subset in Hc.
    destruct (built_children_nonempty _ _ _ _ Hc)
      as (k & dom & rem & fuel2 & Hk & _ & Hkids'); try assumption.
    { intros k dom [[= <- <-]|[]]. apply set_order_NoDup. }
    { discriminate. }
    destruct Hk as [[= <- <-]|[]].
    destruct (Hkids' "y") as (sub & _ & Hsub & Hne & _).
    { apply set_order_In. simpl. tauto. }
    injection Hsub as <-. contradiction.
  - (* the root splits on feature 1 *)
    injection Hpop as <-.
    destruct (Hkids "x") as (sub & c & Hsub & _ & Hc).
    { apply set_order_In. simpl. tauto. }
    injection Hsub as <-. fold vanish_subset in Hc.
    destruct (built_children_nonempty _ _ _ _ Hc)
      as (k & dom & rem & fuel2 & Hk & _ & Hkids'); try assumption.
    { intros k dom [[= <- <-]|[]]. apply set_order_NoDup. }
    { discriminate. }
    destruct Hk as [[= <- <-]|[]].
    destruct (Hkids' "b") as (sub & _ & Hsub & Hne & _).
    { apply set_order_In. simpl. tauto. }
    injection Hsub as <-. contradiction.
Qed.
End VanishAnyPlatform.

(** ** The eight classes on any platform

    The answer -1 of [best_feature] on [eight_classes] depends on the
    platform only through the value of [math.log(0.125, 2.0)]. *)

Section EightAnyPlatform.
Context {P : Platform}.
Local Open Scope string_scope.

(** The counts of labels that are all different are all 1. *)
Lemma counts_of_distinct (classes : list value) :
  NoDup classes ->
  map (count classes) (set_order classes) = repeat 1 (List.length classes).
Proof.
  intros Hnd.
  assert (Hperm : Permutation (set_order classes) classes).
  { apply NoDup_Permutation; [apply set_order_NoDup | exact Hnd |].
    intros x. apply set_order_In. }
  rewrite <- (Permutation_length Hperm).
  assert (Hall : forall c, In c (set_order classes) -> count classes c = 1).
  { intros c Hc. apply (proj1 (set_order_In _ _)) in Hc.
    unfold count. apply NoDup_count_occ'; assumption. }
  revert Hall. generalize (set_order classes) as s.
  induction s as [|c s IH]; simpl; intros Hall; [reflexivity|].
  rewrite (Hall c (or_introl eq_refl)). f_equal.
  apply IH. intros c' Hc'. apply Hall. right. exact Hc'.
Qed.

Lemma entropy_eight_classes :
  math_log 0.125 2 = Ok (-3)%float -> entropy eight_classes = Ok 3%float.
Proof.
  intros Hlog. unfold entropy.
  change (class_labels eight_classes)
    with (Ok ["c1"; "c2"; "c3"; "c4"; "c5"; "c6"; "c7"; "c8"]
          : result (list value)).
  cbn [bind]. rewrite counts_of_distinct.
  - cbn [List.length repeat list_sum fold_right Nat.add for_each Nat.ltb Nat.leb].
    change (py_truediv (float_of_nat 1) (float_of_nat 8)) with (Ok 0.125%float).
    cbn [bind]. rewrite Hlog. cbn [bind for_each]. reflexivity.
  - repeat (constructor; [simpl; intuition discriminate|]). constructor.
Qed.

Lemma best_feature_eight_any_platform :
  math_log 0.125 2 = Ok (-3)%float ->
  split_entropy 0 [(0%Z, ["a"])] eight_classes = Ok 3%float /\
  best_feature [(0%Z, ["a"])] eight_classes = Ok (-1)%Z.
Proof.
  intros Hlog.
  assert (Hse : split_entropy 0 [(0%Z, ["a"])] eight_classes = Ok 3%float).
  { unfold split_entropy. cbn [dict_get Z.eqb bind for_each].
    change (filter_examples eight_classes 0 "a") with (Ok eight_classes).
    cbn [bind].
    change (py_truediv (float_of_nat (List.length eight_classes))
                       (float_of_nat (List.length eight_classes)))
      with (Ok 1%float).
    cbn [bind]. rewrite (entropy_eight_classes Hlog). reflexivity. }
  split; [exact Hse|].
  apply best_feature_none_below_2.
  intros k [<-|[]]. exists 3%float. split; [exact Hse | reflexivity].
Qed.
End EightAnyPlatform.

(** ** The entropy of seven labels on any platform

    The example of [entropy_above_log2_seven] depends on the platform only
    through the logarithms of 1/7, 2 and 7.  With the values that the C
    library behind CPython returns for them, the entropy is again one unit
    in the last place above [math.log(7.0, 2.0)]. *)

Section SevenAnyPlatform.
Context {P : Platform}.
Local Open Scope string_scope.

Lemma entropy_seven_any_platform :
  libm_log 0x1.2492492492492p-3 = (-0x1.f2272ae325a58p+0)%float ->
  libm_log 2 = 0x1.62e42fefa39efp-1%float ->
  libm_log 7 = 0x1.f2272ae325a57p+0%float ->
  entropy seven_classes = Ok 0x1.675767f54042ep+1%float /\
  math_log (float_of_nat 7) 2 = Ok 0x1.675767f54042dp+1%float /\
  (0x1.675767f54042ep+1 <=? 0x1.675767f54042dp+1)%float = false.
Proof.
  intros H7th H2 H7.
  assert (Hlog : math_log 0x1.2492492492492p-3 2 =
                 Ok (-0x1.675767f54042ep+1)%float).
  { unfold math_log, m_log.
    change (0x1.2492492492492p-3 <=? 0)%float with false.
    change (2 <=? 0)%float with false.
    cbn [bind]. rewrite H7th, H2. reflexivity. }
  split; [|split; [|reflexivity]].
  - unfold entropy.
    change (class_labels seven_classes)
      with (Ok ["c1"; "c2"; "c3"; "c4"; "c5"; "c6"; "c7"]
            : result (list value)).
    cbn [bind]. rewrite counts_of_distinct.
    + cbn [List.length repeat list_sum fold_right Nat.add for_each Nat.ltb
           Nat.leb].
      change (py_truediv (float_of_nat 1) (float_of_nat 7))
        with (Ok 0x1.2492492492492p-3%float).
      cbn [bind]. rewrite Hlog. cbn [bind for_each]. reflexivity.
    + repeat (constructor; [simpl; intuition discriminate|]). constructor.
  - unfold math_log, m_log.
    change (float_of_nat 7) with 7%float.
    change (7 <=? 0)%float with false.
    change (2 <=? 0)%float with false.
    cbn [bind]. rewrite H7, H2. reflexivity.
Qed.
End SevenAnyPlatform.

(** * Further properties of the program *)

(** ** Labels, majority and purity *)

Lemma py_index_last_raises {A : Type} (l : list A) :
  (exists e, py_index l (-1) = Raise e) <-> l = [].
Proof.
  split.
  - intros [e He]. destruct l as [|x l]; [reflexivity|]. exfalso.
    unfold py_index in He.
    change (-1 <? 0)%Z with true in He. cbv beta iota zeta in He.
    assert (Hlen : (0 <= Z.of_nat (List.length (x :: l)) + -1 <
                    Z.of_nat (List.length (x :: l)))%Z).
    { change (List.length (x :: l)) with (S (List.length l)). lia. }
    assert (Hb : ((0 <=? Z.of_nat (List.length (x :: l)) + -1) &&
                  (Z.of_nat (List.length (x :: l)) + -1 <?
                   Z.of_nat (List.length (x :: l))))%Z = true).
    { apply andb_true_iff. split; [apply Z.leb_le | apply Z.ltb_lt]; lia. }
    rewrite Hb in He.
    destruct (nth_error (x :: l) _) eqn:E; [discriminate|].
    apply nth_error_None in E.
    change (List.length (x :: l)) with (S (List.length l)) in E. lia.
  - intros ->. exists IndexError. reflexivity.
Qed.

Lemma comprehension_raises {A B : Type} (f : A -> result B) (l : list A)
    (e : exn) :
  comprehension f l = Raise e -> exists x, In x l /\ f x = Raise e.
Proof.
  induction l as [|x l IH]; simpl; [discriminate|].
  destruct (f x) as [y|e'] eqn:E; simpl.
  - destruct (comprehension f l) as [ys|e'']; simpl; [discriminate|].
    intros [= <-]. destruct (IH eq_refl) as (x' & Hx' & Hf). eauto.
  - intros [= <-]. eauto.
Qed.

Lemma comprehension_all_Ok {A B : Type} (f : A -> result B) (l : list A) :
  (forall x, In x l -> exists y, f x = Ok y) ->
  exists ys, comprehension f l = Ok ys.
Proof.
  induction l as [|x l IH]; simpl; intros H; [eauto|].
  destruct (H x (or_introl eq_refl)) as [y ->].
  destruct IH as [ys ->]; [auto|]. simpl. eauto.
Qed.

Lemma Forall2_In_right {A B : Type} (R : A -> B -> Prop) (l : list A)
    (l' : list B) (y : B) :
  Forall2 R l l' -> In y l' -> exists x, In x l /\ R x y.
Proof.
  induction 1 as [|a b l l' Hab _ IH]; simpl; [tauto|].
  intros [<-|Hin]; [eauto|]. destruct (IH Hin) as (x & Hx & Hr). eauto.
Qed.

(** The labels are read for every example, or some example is empty. *)
Lemma class_labels_cases (examples : list example) :
  (exists classes, class_labels examples = Ok classes) \/
  (class_labels examples = Raise IndexError /\ In [] examples).
Proof.
  unfold class_labels.
  destruct (comprehension (fun ex : example => py_index ex (-1)) examples)
    as [classes|e] eqn:E; [eauto|right].
  apply comprehension_raises in E as (x & Hx & Hf).
  pose proof (py_index_raises _ _ _ Hf) as ->.
  assert (x = []) by (apply py_index_last_raises; eauto). subst x. auto.
Qed.

Lemma class_labels_empty_row (examples : list example) :
  In [] examples -> class_labels examples = Raise IndexError.
Proof.
  intros Hin. destruct (class_labels_cases examples) as [[classes Hc]|[H _]];
    [exfalso | exact H].
  apply comprehension_Ok in Hc.
  destruct (Forall2_In_left _ _ _ _ Hc Hin) as (y & _ & Hy). discriminate.
Qed.

Section LabelProperties.
Context {P : Platform}.

(** A set of labels has one element exactly when the labels are not empty
    and all equal. *)
Lemma set_order_singleton (classes : list value) :
  List.length (set_order classes) = 1 <->
  classes <> [] /\ exists c, forall x, In x classes -> x = c.
Proof.
  pose proof (set_order_NoDup classes) as Hnd.
  pose proof (set_order_In classes) as Hin.
  split.
  - intros Hlen. destruct (set_order classes) as [|c [|d s]];
      try discriminate. split.
    + intros ->. apply (Hin c). left. reflexivity.
    + exists c. intros x Hx. apply Hin in Hx. destruct Hx as [<-|[]].
      reflexivity.
  - intros [Hne [c Hc]].
    destruct (set_order classes) as [|x [|y s]].
    + destruct classes as [|z classes]; [contradiction|]. exfalso.
      apply (Hin z). left. reflexivity.
    + reflexivity.
    + exfalso. inversion Hnd as [|? ? Hx _]; subst. apply Hx. left.
      rewrite (Hc x), (Hc y); [reflexivity | |]; apply Hin; simpl; auto.
Qed.

(** [same_class] answers [True] exactly on a non-empty list whose
    examples all end in the same label. *)
Lemma same_class_true_iff (examples : list example) :
  same_class examples = Ok true <->
  examples <> [] /\
  exists c, forall ex, In ex examples -> py_index ex (-1) = Ok c.
Proof.
  unfold same_class.
  destruct (class_labels_cases examples) as [[classes Hc]|[Hc Hin]].
  - rewrite Hc. cbn [bind]. pose proof (comprehension_Ok _ _ _ Hc) as HF.
    split.
    + intros [= Hlen]. apply Nat.eqb_eq, set_order_singleton in Hlen.
      destruct Hlen as [Hne [c Hall]]. split.
      * intros ->. inversion HF; subst. contradiction.
      * exists c. intros ex Hex.
        destruct (Forall2_In_left _ _ _ _ HF Hex) as (y & Hy & Hxy).
        rewrite Hxy, (Hall y Hy). reflexivity.
    + intros [Hne [c Hall]]. f_equal. apply Nat.eqb_eq, set_order_singleton.
      split.
      * intros ->. inversion HF; subst. contradiction.
      * exists c. intros y Hy.
        destruct (Forall2_In_right _ _ _ _ HF Hy) as (ex & Hex & Hxy).
        rewrite (Hall ex Hex) in Hxy. congruence.
  - rewrite Hc. cbn [bind]. split; [discriminate|].
    intros [_ [c Hall]]. specialize (Hall [] Hin). discriminate.
Qed.

(** X10: [same_class] answers [True] exactly on a non-empty list whose
    examples all end in the same label (so it answers [False] on the empty
    list), and it raises exactly when some example is empty. *)
Theorem same_class_spec (examples : list example) :
  (same_class examples = Ok true <->
   examples <> [] /\
   exists c, forall ex, In ex examples -> py_index ex (-1) = Ok c) /\
  ((exists e, same_class examples = Raise e) <-> In [] examples).
Proof.
  split; [apply same_class_true_iff|].
  unfold same_class.
  destruct (class_labels_cases examples) as [[classes Hc]|[Hc Hin]].
  - rewrite Hc. cbn [bind]. split.
    + intros [e He]. discriminate.
    + intros Hin. rewrite (class_labels_empty_row _ Hin) in Hc. discriminate.
  - rewrite Hc. cbn [bind]. split; eauto.
Qed.

(** [max] with a key returns the first element, in iteration order, that
    no element exceeds. *)
Lemma py_max_first (key : value -> nat) (s : list value) (x : value) :
  let m := fold_left (fun best y => if key best <? key y then y else best) s x in
  exists before after,
    x :: s = before ++ m :: after /\
    (forall c, In c before -> key c < key m) /\
    (forall c, In c after -> key c <= key m).
Proof.
  revert x. induction s as [|y s IH]; intros x; simpl.
  - exists [], []. split; [reflexivity|]. split; intros c [].
  - destruct (key x <? key y) eqn:E.
    + apply Nat.ltb_lt in E.
      destruct (IH y) as (before & after & Heq & Hb & Ha).
      destruct (py_max_fold key s y) as (_ & Hy & _).
      exists (x :: before), after. split; [simpl; rewrite <- Heq; reflexivity|].
      split; [|exact Ha].
      intros c [<-|Hc]; [|auto]. simpl in Hy. lia.
    + apply Nat.ltb_ge in E.
      destruct (IH x) as (before & after & Heq & Hb & Ha).
      destruct before as [|b before].
      * simpl in Heq. injection Heq as Hm Hs.
        exists [], (y :: after). split; [simpl; congruence|].
        split; [intros c []|].
        intros c [<-|Hc]; [rewrite <- Hm; exact E | auto].
      * simpl in Heq. injection Heq as Hbx Hs. subst b.
        exists (x :: y :: before), after.
        split; [simpl; do 2 f_equal; exact Hs|]. split; [|exact Ha].
        intros c [<-|[<-|Hc]].
        -- apply Hb. left. reflexivity.
        -- specialize (Hb x (or_introl eq_refl)). lia.
        -- apply Hb. right. exact Hc.
Qed.

(** X11: [majority_class] raises [ValueError] exactly on
    the empty list and [IndexError] exactly when some example is empty;
    otherwise it returns the first label, in the iteration order of the set
    of labels, whose count no label exceeds: every label before it occurs
    strictly less often. *)
Theorem majority_class_spec (examples : list example) :
  (majority_class examples = Raise ValueError <-> examples = []) /\
  (majority_class examples = Raise IndexError <-> In [] examples) /\
  (forall m, majority_class examples = Ok m ->
     exists classes before after,
       class_labels examples = Ok classes /\
       set_order classes = before ++ m :: after /\
       (forall c, In c before -> count classes c < count classes m) /\
       (forall c, In c after -> count classes c <= count classes m)).
Proof.
  unfold majority_class.
  destruct (class_labels_cases examples) as [[classes Hc]|[Hc Hin]].
  - rewrite Hc. cbn [bind]. pose proof (comprehension_Ok _ _ _ Hc) as HF.
    assert (Hnil : set_order classes = [] <-> examples = []).
    { split.
      - intros Hs. destruct examples as [|ex examples]; [reflexivity|].
        exfalso. inversion HF as [|? c ? cs _ _]; subst.
        pose proof (proj2 (set_order_In (c :: cs) c) (or_introl eq_refl)) as Hin.
        rewrite Hs in Hin. exact Hin.
      - intros ->. inversion HF; subst. apply set_order_nil. }
    split; [|split].
    + split.
      * intros H. apply Hnil. destruct (set_order classes); [reflexivity|].
        discriminate.
      * intros H. apply Hnil in H. rewrite H. reflexivity.
    + split.
      * intros H. destruct (set_order classes); discriminate.
      * intros Hin. rewrite (class_labels_empty_row _ Hin) in Hc. discriminate.
    + intros m Hm. exists classes.
      destruct (set_order classes) as [|x s] eqn:Es; [discriminate|].
      simpl in Hm. injection Hm as <-.
      destruct (py_max_first (count classes) s x) as (before & after & H1 & H2 & H3).
      exists before, after. auto.
  - rewrite Hc. cbn [bind]. split; [|split].
    + split; [discriminate|]. intros ->. contradiction.
    + split; auto.
    + discriminate.
Qed.
End LabelProperties.

(** ** Built trees and the examples they were built from *)

Lemma dict_get_In_NoDup {V : Type} (d : dict value V) (k : value) (v : V) :
  NoDup (dict_keys d) -> In (k, v) d -> dict_get String.eqb d k = Ok v.
Proof.
  induction d as [|[k' v'] d IH]; simpl; [tauto|].
  intros Hnd [H|H].
  - injection H as -> ->. rewrite String.eqb_refl. reflexivity.
  - inversion Hnd as [|? ? Hnot Hnd']; subst.
    destruct (String.eqb k' k) eqn:E; [|auto].
    apply String.eqb_eq in E. subst k'. exfalso. apply Hnot.
    apply in_map_iff. exists (k, v). auto.
Qed.

Lemma dict_keys_In {K V : Type} (d : dict K V) (k : K) (v : V) :
  In (k, v) d -> In k (dict_keys d).
Proof.
  intros H. apply in_map_iff. exists (k, v). auto.
Qed.

Lemma node_at_trans (examples exn exm : list example) (t n m : TreeNode) :
  node_at examples t exn n -> node_at exn n exm m -> node_at examples t exm m.
Proof.
  induction 1 as [|examples t v child sub exn n Hin Hsub _ IH]; intros Hm;
    [exact Hm|].
  eapply node_child; eauto.
Qed.

Section TrainingExamples.
Context {P : Platform}.

Lemma table_ok_collect (first : example) (rest : list example)
    (fs : features_t) :
  collect_features (first :: rest) (List.length first - 1) = Ok fs ->
  table_ok (List.length first - 1) (first :: rest) fs /\
  settled (List.length first - 1) (first :: rest) fs.
Proof.
  intros Hfs.
  destruct (collect_features_ok _ _ _ Hfs) as (Hok & _ & _).
  destruct (collect_features_Ok _ _ _ Hfs) as [Hkeys Hd].
  split; [split; [exact Hok|split]|].
  - intros k Hk. rewrite Hkeys in Hk.
    apply in_map_iff in Hk as (i & <- & Hi). apply in_seq in Hi.
    exists i. split; [lia | reflexivity].
  - intros k dom e Hin He.
    destruct (Hd k dom Hin) as (col & Hcol & ->).
    apply comprehension_Ok in Hcol.
    destruct (Forall2_In_left _ _ _ _ Hcol He) as (y & Hy & Hxy).
    exists y. split; [exact Hxy | apply set_order_In; exact Hy].
  - intros i Hi Hnot. exfalso. apply Hnot. rewrite Hkeys.
    apply in_map. apply in_seq. lia.
Qed.

Lemma table_ok_step (N : nat) (exs sub : list example) (fs rem : features_t)
    (best : Z) (v : value) :
  table_ok N exs fs ->
  dict_pop Z.eqb fs best = Ok rem ->
  filter_examples exs best v = Ok sub ->
  table_ok N sub rem.
Proof.
  intros ([Hnd Hdom] & Hidx & Hcov) Hpop Hsub.
  destruct (dict_pop_NoDup _ _ _ Hpop Hnd) as [Hnd' Hnot].
  destruct (dict_pop_Ok _ _ _ Hpop) as [Hperm Hincl].
  split; [split|split].
  - exact Hnd'.
  - exact (domains_NoDup_incl _ _ Hincl Hdom).
  - intros k Hk. apply Hidx.
    apply (Permutation_in _ (Permutation_sym Hperm)). right. exact Hk.
  - intros k dom e Hin He. apply (Hcov k dom e); [apply Hincl; exact Hin|].
    apply (filter_examples_In _ _ _ _ Hsub). exact He.
Qed.

Lemma settled_step (N : nat) (exs sub : list example) (fs rem : features_t)
    (best : Z) (v : value) :
  settled N exs fs ->
  dict_pop Z.eqb fs best = Ok rem ->
  filter_examples exs best v = Ok sub ->
  settled N sub rem.
Proof.
  intros Hset Hpop Hsub.
  destruct (dict_pop_Ok _ _ _ Hpop) as [Hperm Hincl].
  assert (Hsubin : forall e, In e sub -> In e exs /\ py_index e best = Ok v).
  { intros e He. apply (filter_examples_In _ _ _ _ Hsub). exact He. }
  intros i Hi Hni e1 e2 H1 H2.
  destruct (Z.eq_dec (Z.of_nat i) best) as [E|E].
  - rewrite E. rewrite (proj2 (Hsubin e1 H1)), (proj2 (Hsubin e2 H2)).
    reflexivity.
  - apply Hset; [exact Hi| |apply Hsubin; exact H1|apply Hsubin; exact H2].
    intros Hin. apply (Permutation_in _ Hperm) in Hin.
    destruct Hin as [Hin|Hin]; [congruence | contradiction].
Qed.

(** Every node of a built tree was returned by [build_tree_1] for the
    examples that reached it and a table that is still in order. *)
Lemma build_tree_1_node_table (N : nat) (examples exn : list example)
    (t n : TreeNode) :
  node_at examples t exn n ->
  forall fuel features,
    build_tree_1 fuel examples features = Some (Ok t) ->
    table_ok N examples features -> settled N examples features ->
    exists fuel' features',
      build_tree_1 fuel' exn features' = Some (Ok n) /\
      table_ok N exn features' /\ settled N exn features' /\
      incl exn examples.
Proof.
  induction 1 as [examples t|examples t v child sub exn n Hin Hsub _ IH];
    intros fuel features Hb Hok Hset.
  - exists fuel, features. repeat (split; [assumption|]). apply incl_refl.
  - pose proof Hok as ([_ Hdom] & _).
    destruct (build_tree_1_inv _ _ _ _ Hb Hdom)
      as (fuel' & -> & _ & [Hleaf|Hsplit]).
    + destruct Hleaf as (_ & Hnil & _). rewrite Hnil in Hin. contradiction.
    + destruct Hsplit as (_ & _ & rem & dom & _ & Hpop & _ & _ & _ & Hkids).
      destruct (Hkids v (Some child) Hin) as (c & sub' & [= <-] & Hsub' & Hc).
      assert (sub' = sub) by congruence. subst sub'.
      pose proof (table_ok_step _ _ _ _ _ _ _ Hok Hpop Hsub) as Hok'.
      pose proof (settled_step _ _ _ _ _ _ _ Hset Hpop Hsub) as Hset'.
      destruct (IH fuel' rem Hc Hok' Hset')
        as (fuel'' & fs' & Hn & Hokn & Hsetn & Hex).
      exists fuel'', fs'. repeat (split; [assumption|]).
      intros e He. apply Hex in He.
      apply (filter_examples_In _ _ _ _ Hsub) in He. tauto.
Qed.

(** [classify] follows a training example down to a leaf. *)
Lemma build_tree_1_classify (N : nat) (ex instance : list value)
    (Hsame : same_features N instance ex) (fuel : nat) :
  forall exs fs t,
    build_tree_1 fuel exs fs = Some (Ok t) ->
    table_ok N exs fs ->
    In ex exs ->
    exists exn n,
      node_at exs t exn n /\ In ex exn /\ split_feature n = (-1)%Z /\
      classify t instance = Ok (node_majority_class n).
Proof.
  induction fuel as [|fuel IH]; intros exs fs t Hb Hok Hex; [discriminate|].
  pose proof Hok as ([Hnd Hdom] & Hidx & Hcov).
  destruct (build_tree_1_inv _ _ _ _ Hb Hdom)
    as (fuel' & [= <-] & _ & [Hleaf|Hsplit]).
  - destruct Hleaf as (Hsf & _ & _). exists exs, t.
    split; [constructor|]. split; [exact Hex|]. split; [exact Hsf|].
    rewrite classify_unfold, Hsf. reflexivity.
  - destruct Hsplit
      as (_ & _ & rem & dom & _ & Hpop & Hget & Hkeys & Hall & Hkids).
    apply dict_get_Z_In in Hget.
    destruct (Hidx _ (dict_keys_In _ _ _ Hget)) as (i & Hi & Hsf).
    destruct (Hcov _ _ ex Hget Hex) as (v & Hv & Hvdom).
    destruct (Hall v Hvdom) as [c Hc].
    destruct (Hkids v (Some c) Hc) as (c' & sub & [= <-] & Hsub & Hbc).
    assert (Hexsub : In ex sub).
    { apply (filter_examples_In _ _ _ _ Hsub). auto. }
    pose proof (table_ok_step _ _ _ _ _ _ _ Hok Hpop Hsub) as Hok'.
    destruct (IH sub rem c Hbc Hok' Hexsub) as (exn & n & Hn & Hexn & Hleaf & Hcl).
    exists exn, n. split; [eapply node_child; eassumption|].
    split; [exact Hexn|]. split; [exact Hleaf|].
    rewrite classify_unfold.
    assert (Hneq : (split_feature t =? -1)%Z = false)
      by (apply Z.eqb_neq; lia).
    rewrite Hneq, Hsf, (Hsame i Hi), <- Hsf, Hv. cbn [bind].
    rewrite (dict_get_In_NoDup _ _ _
               ltac:(rewrite Hkeys; exact (Hdom _ _ Hget)) Hc).
    cbn [bind]. exact Hcl.
Qed.
End TrainingExamples.

Section BuiltTreeProperties.
Context {P : Platform}.

(** The call of [build_tree_1] behind a tree [build_tree] returned. *)
Lemma build_tree_table (examples : list example) (t : TreeNode) :
  build_tree examples = Some (Ok (Some t)) ->
  exists fs,
    build_tree_1 (S (List.length fs)) examples fs = Some (Ok t) /\
    table_ok (n_features examples) examples fs /\
    settled (n_features examples) examples fs /\
    List.length fs = n_features examples.
Proof.
  intros Hb.
  apply build_tree_Ok in Hb as (first & rest & fs & -> & Hfs & Hb).
  destruct (table_ok_collect _ _ _ Hfs) as [Hok Hset].
  destruct (collect_features_ok _ _ _ Hfs) as (_ & Hlen & _).
  exists fs. auto.
Qed.

(** A split node has a feature index for [split_feature], never -1. *)
Lemma split_step_index (N fuel : nat) (exs : list example) (fs : features_t)
    (t : TreeNode) :
  table_ok N exs fs -> split_step fuel exs fs t ->
  (0 <= split_feature t)%Z.
Proof.
  intros (_ & Hidx & _) (_ & _ & rem & dom & _ & _ & Hget & _).
  apply dict_get_Z_In in Hget.
  destruct (Hidx _ (dict_keys_In _ _ _ Hget)) as (i & _ & ->). lia.
Qed.

(** A leaf holds examples with one label, or examples that no feature
    tells apart. *)
Lemma build_tree_1_leaf (N fuel : nat) (exn : list example)
    (fsn : features_t) (n : TreeNode) :
  build_tree_1 fuel exn fsn = Some (Ok n) ->
  table_ok N exn fsn -> settled N exn fsn ->
  majority_class exn = Ok (node_majority_class n) /\
  (same_class exn = Ok true -> split_feature n = (-1)%Z) /\
  (split_feature n = (-1)%Z ->
   same_class exn = Ok true \/ indistinguishable N exn).
Proof.
  intros Hb Hok Hset. pose proof Hok as ([_ Hdom] & _).
  destruct (build_tree_1_inv _ _ _ _ Hb Hdom)
    as (fuel' & -> & Hmc & [Hleaf|Hsplit]).
  - destruct Hleaf as (Hsf & _ & Hwhy). split; [exact Hmc|].
    split; [auto|]. intros _.
    destruct Hwhy as [Hpure|[_ ->]]; [left; exact Hpure|right].
    intros e1 e2 H1 H2 i Hi. apply Hset; simpl; auto.
  - pose proof (split_step_index _ _ _ _ _ Hok Hsplit) as Hpos.
    destruct Hsplit as (Hsame & _). split; [exact Hmc|].
    split; [congruence | lia].
Qed.

(** X1: [classify] on a training example, or on any instance with the
    feature values of one, raises nothing: it walks down to the leaf that
    example reached when the tree was built and answers the majority class
    of the examples there. *)
Theorem classify_training_leaf (examples : list example) (t : TreeNode)
    (ex instance : list value) :
  build_tree examples = Some (Ok (Some t)) ->
  In ex examples ->
  same_features (n_features examples) instance ex ->
  exists exn n,
    node_at examples t exn n /\ In ex exn /\ split_feature n = (-1)%Z /\
    majority_class exn = Ok (node_majority_class n) /\
    classify t instance = Ok (node_majority_class n).
Proof.
  intros Hb Hex Hsame.
  destruct (build_tree_table _ _ Hb) as (fs & Hb1 & Hok & Hset & _).
  destruct (build_tree_1_classify _ _ _ Hsame _ _ _ _ Hb1 Hok Hex)
    as (exn & n & Hn & Hexn & Hleaf & Hcl).
  destruct (build_tree_1_node_table _ _ _ _ _ Hn _ _ Hb1 Hok Hset)
    as (fuel' & fsn & Hbn & Hokn & Hsetn & _).
  destruct (build_tree_1_leaf _ _ _ _ _ Hbn Hokn Hsetn) as (Hmc & _).
  exists exn, n. auto.
Qed.

(** X2: when no two training examples have the same features and
    different labels, the built tree gives every training example its own
    label back. *)
Theorem classify_training_consistent (examples : list example) (t : TreeNode)
    (ex instance : list value) :
  build_tree examples = Some (Ok (Some t)) ->
  consistent examples ->
  In ex examples ->
  same_features (n_features examples) instance ex ->
  exists label, py_index ex (-1) = Ok label /\ classify t instance = Ok label.
Proof.
  intros Hb Hcons Hex Hsame.
  destruct (build_tree_table _ _ Hb) as (fs & Hb1 & Hok & Hset & _).
  destruct (build_tree_1_classify _ _ _ Hsame _ _ _ _ Hb1 Hok Hex)
    as (exn & n & Hn & Hexn & Hleaf & Hcl).
  destruct (build_tree_1_node_table _ _ _ _ _ Hn _ _ Hb1 Hok Hset)
    as (fuel' & fsn & Hbn & Hokn & Hsetn & Hincl).
  destruct (build_tree_1_leaf _ _ _ _ _ Hbn Hokn Hsetn) as (Hmc & _ & Hwhy).
  destruct (majority_class_Ok _ _ Hmc) as (classes & Hcl' & Hin & _).
  pose proof (comprehension_Ok _ _ _ Hcl') as HF.
  destruct (Forall2_In_right _ _ _ _ HF Hin) as (e & He & Hlabel).
  destruct (Forall2_In_left _ _ _ _ HF Hexn) as (label & _ & Hex_label).
  exists label. split; [exact Hex_label|]. rewrite Hcl. f_equal.
  assert (Heq : py_index e (-1) = py_index ex (-1)).
  { destruct (Hwhy Hleaf) as [Hpure|Hind].
    - apply same_class_true_iff in Hpure as [_ [c Hc]].
      rewrite (Hc e He), (Hc ex Hexn). reflexivity.
    - apply Hcons; [apply Hincl; exact He | exact Hex | apply Hind; assumption]. }
  congruence.
Qed.

(** Whatever [classify] answers on a tree [build_tree_1] returned is the
    label of one of the examples. *)
Lemma build_tree_1_classify_label (instance : list value) (fuel : nat) :
  forall exs fs t label,
    build_tree_1 fuel exs fs = Some (Ok t) ->
    domains_NoDup fs ->
    classify t instance = Ok label ->
    exists ex, In ex exs /\ py_index ex (-1) = Ok label.
Proof.
  induction fuel as [|fuel IH]; intros exs fs t label Hb Hdom Hcl;
    [discriminate|].
  destruct (build_tree_1_inv _ _ _ _ Hb Hdom)
    as (fuel' & [= <-] & Hmc & Hstep).
  assert (Hmaj : exists ex, In ex exs /\
                   py_index ex (-1) = Ok (node_majority_class t)).
  { destruct (majority_class_Ok _ _ Hmc) as (classes & Hc & Hin & _).
    apply comprehension_Ok in Hc.
    apply (Forall2_In_right _ _ _ _ Hc Hin). }
  rewrite classify_unfold in Hcl.
  destruct (split_feature t =? -1)%Z.
  { injection Hcl as <-. exact Hmaj. }
  apply bind_Ok_inv in Hcl as (x & Hx & Hcl).
  apply bind_Ok_inv in Hcl as (o & Hget & Hcl).
  destruct Hstep as [(_ & Hnil & _)|Hsplit].
  { rewrite Hnil in Hget. discriminate. }
  destruct Hsplit as (_ & _ & rem & dom & _ & Hpop & _ & _ & _ & Hkids).
  apply dict_get_Ok_In in Hget.
  destruct (Hkids x o Hget) as (c & sub & -> & Hsub & Hc).
  destruct (IH sub rem c label Hc
              (domains_NoDup_incl _ _ (proj2 (dict_pop_Ok _ _ _ Hpop)) Hdom) Hcl)
    as (ex & Hex & Hlabel).
  exists ex. split; [|exact Hlabel].
  apply (filter_examples_In _ _ _ _ Hsub) in Hex. tauto.
Qed.

(** X3: on a built tree, [classify] answers only labels that occur in the
    training examples, whatever the instance. *)
Theorem classify_label_of_training (examples : list example) (t : TreeNode)
    (instance : list value) (label : value) :
  build_tree examples = Some (Ok (Some t)) ->
  classify t instance = Ok label ->
  exists ex, In ex examples /\ py_index ex (-1) = Ok label.
Proof.
  intros Hb Hcl.
  destruct (build_tree_table _ _ Hb) as (fs & Hb1 & ([_ Hdom] & _) & _).
  exact (build_tree_1_classify_label _ _ _ _ _ _ Hb1 Hdom Hcl).
Qed.

(** Every node below the root of a built tree is a node some examples
    reached. *)
Lemma build_tree_1_subtree (t n : TreeNode) :
  subtree t n ->
  forall fuel exs fs,
    build_tree_1 fuel exs fs = Some (Ok t) ->
    domains_NoDup fs ->
    exists exn, node_at exs t exn n.
Proof.
  induction 1 as [t|t v c n Hin _ IH]; intros fuel exs fs Hb Hdom.
  - exists exs. constructor.
  - destruct (build_tree_1_inv _ _ _ _ Hb Hdom)
      as (fuel' & -> & _ & [Hleaf|Hsplit]).
    + destruct Hleaf as (_ & Hnil & _). rewrite Hnil in Hin. contradiction.
    + destruct Hsplit as (_ & _ & rem & dom & _ & Hpop & _ & _ & _ & Hkids).
      destruct (Hkids v (Some c) Hin) as (c' & sub & [= <-] & Hsub & Hc).
      destruct (IH fuel' sub rem Hc
                  (domains_NoDup_incl _ _ (proj2 (dict_pop_Ok _ _ _ Hpop)) Hdom))
        as (exn & Hn).
      exists exn. eapply node_child; eassumption.
Qed.

(** X4: in a built tree no entry of a child mapping is [None]: every key
    of every node maps to a node, the one built from the examples that
    have that value, of which there is at least one.  The fallback of
    [classify] and [print_tree] for an empty entry is never taken on a
    built tree. *)
Theorem build_tree_children_built (examples : list example) (t n : TreeNode)
    (v : value) (o : option TreeNode) :
  build_tree examples = Some (Ok (Some t)) ->
  subtree t n ->
  In (v, o) (children n) ->
  exists c exn sub,
    o = Some c /\
    node_at examples t exn n /\
    filter_examples exn (split_feature n) v = Ok sub /\
    sub <> [] /\
    node_at examples t sub c.
Proof.
  intros Hb Hsub Hin.
  destruct (build_tree_table _ _ Hb) as (fs & Hb1 & Hok & Hset & _).
  pose proof Hok as ([_ Hdom] & _).
  destruct (build_tree_1_subtree _ _ Hsub _ _ _ Hb1 Hdom) as (exn & Hn).
  destruct (build_tree_1_node_table _ _ _ _ _ Hn _ _ Hb1 Hok Hset)
    as (fuel' & fsn & Hbn & ([_ Hdomn] & _) & _ & _).
  destruct (build_tree_1_inv _ _ _ _ Hbn Hdomn)
    as (fuel'' & -> & _ & [Hleaf|Hsplit]).
  { destruct Hleaf as (_ & Hnil & _). rewrite Hnil in Hin. contradiction. }
  destruct Hsplit as (_ & _ & rem & dom & _ & Hpop & _ & _ & _ & Hkids).
  destruct (Hkids v o Hin) as (c & sub & -> & Hfil & Hc).
  exists c, exn, sub. split; [reflexivity|]. split; [exact Hn|].
  split; [exact Hfil|]. split.
  - destruct (build_tree_1_inv _ _ _ _ Hc
                (domains_NoDup_incl _ _ (proj2 (dict_pop_Ok _ _ _ Hpop)) Hdomn))
      as (_ & _ & Hmc & _).
    exact (majority_class_nonempty _ _ Hmc).
  - apply (node_at_trans _ _ _ _ _ _ Hn).
    eapply node_child; [exact Hin | exact Hfil | constructor].
Qed.

(** X5: in a built tree a node whose examples all have the same label is
    a leaf, and a leaf whose examples do not all have the same label holds
    examples that agree on every feature: there was nothing left to split
    them on. *)
Theorem build_tree_leaf_purity (examples exn : list example) (t n : TreeNode) :
  build_tree examples = Some (Ok (Some t)) ->
  node_at examples t exn n ->
  (same_class exn = Ok true -> split_feature n = (-1)%Z) /\
  (split_feature n = (-1)%Z ->
   same_class exn = Ok true \/ indistinguishable (n_features examples) exn).
Proof.
  intros Hb Hn.
  destruct (build_tree_table _ _ Hb) as (fs & Hb1 & Hok & Hset & _).
  destruct (build_tree_1_node_table _ _ _ _ _ Hn _ _ Hb1 Hok Hset)
    as (fuel' & fsn & Hbn & Hokn & Hsetn & _).
  exact (proj2 (build_tree_1_leaf _ _ _ _ _ Hbn Hokn Hsetn)).
Qed.

(** X6: the tree [build_tree] returns is a single leaf exactly when all
    examples have the same label or the rows have no feature column. *)
Theorem build_tree_root_leaf_iff (examples : list example) (t : TreeNode) :
  build_tree examples = Some (Ok (Some t)) ->
  (split_feature t = (-1)%Z <->
   same_class examples = Ok true \/ n_features examples = 0).
Proof.
  intros Hb.
  destruct (build_tree_table _ _ Hb) as (fs & Hb1 & Hok & Hset & Hlen).
  pose proof Hok as ([_ Hdom] & _).
  destruct (build_tree_1_inv _ _ _ _ Hb1 Hdom)
    as (fuel' & _ & _ & [Hleaf|Hsplit]).
  - destruct Hleaf as (Hsf & _ & Hwhy). split; [intros _|auto].
    destruct Hwhy as [Hpure|[_ Hnil]]; [left; exact Hpure|right].
    rewrite <- Hlen, Hnil. reflexivity.
  - pose proof (split_step_index _ _ _ _ _ Hok Hsplit) as Hpos.
    destruct Hsplit as (Hsame & Hne & _). split; [lia|].
    intros [Hpure|Hzero]; [congruence|]. exfalso. apply Hne.
    rewrite <- Hlen in Hzero. destruct fs; [reflexivity | discriminate].
Qed.
End BuiltTreeProperties.

(** ** The properties above on the example tables *)

Section BuiltTreeExamples.
Local Open Scope string_scope.

Lemma build_tree_weather :
  build_tree weather_examples = Some (Ok (Some weather_tree)).
Proof. vm_compute. reflexivity. Qed.

Lemma same_features_prefix_3 (a b c l : value) :
  same_features 3 [a; b; c] [a; b; c; l].
Proof.
  intros i Hi. destruct i as [|[|[|i]]]; [reflexivity..|lia].
Qed.

Lemma same_features_prefix_2 (a b l : value) :
  same_features 2 [a; b] [a; b; l].
Proof.
  intros i Hi. destruct i as [|[|i]]; [reflexivity..|lia].
Qed.

Lemma weather_consistent : consistent weather_examples.
Proof.
  intros e1 e2 H1 H2 Hsame.
  pose proof (Hsame 0 ltac:(vm_compute; lia)) as H0.
  pose proof (Hsame 1 ltac:(vm_compute; lia)) as H1'.
  simpl in H1, H2.
  repeat match goal with
         | H : _ \/ _ |- _ => destruct H as [H|H]
         | H : False |- _ => destruct H
         end; subst e1 e2; try reflexivity;
    vm_compute in H0; vm_compute in H1'; congruence.
Qed.

Lemma classify_training_leaf_demo :
  exists exn n,
    node_at demo_examples demo_tree exn n /\
    In ["Yellow"; "SUV"; "Imported"; "Yes"] exn /\
    split_feature n = (-1)%Z /\
    majority_class exn = Ok (node_majority_class n) /\
    classify demo_tree ["Yellow"; "SUV"; "Imported"] =
    Ok (node_majority_class n).
Proof.
  apply (classify_training_leaf demo_examples demo_tree
           ["Yellow"; "SUV"; "Imported"; "Yes"] ["Yellow"; "SUV"; "Imported"]).
  - exact build_tree_demo.
  - simpl. tauto.
  - exact (same_features_prefix_3 _ _ _ _).
Defined.

Lemma classify_training_consistent_weather :
  exists label,
    py_index ["Sunny"; "Hot"; "No"] (-1) = Ok label /\
    classify weather_tree ["Sunny"; "Hot"] = Ok label.
Proof.
  apply (classify_training_consistent weather_examples weather_tree
           ["Sunny"; "Hot"; "No"] ["Sunny"; "Hot"]).
  - exact build_tree_weather.
  - exact weather_consistent.
  - simpl. tauto.
  - exact (same_features_prefix_2 _ _ _).
Defined.

Lemma classify_label_of_training_demo :
  exists ex, In ex demo_examples /\ py_index ex (-1) = Ok "Yes".
Proof.
  apply (classify_label_of_training demo_examples demo_tree
           ["Red"; "Sports"; "Domestic"] "Yes").
  - exact build_tree_demo.
  - reflexivity.
Defined.

Lemma build_tree_children_built_demo :
  exists c exn sub,
    Some sports_node = Some c /\
    node_at demo_examples demo_tree exn demo_tree /\
    filter_examples exn (split_feature demo_tree) "Sports" = Ok sub /\
    sub <> [] /\
    node_at demo_examples demo_tree sub c.
Proof.
  apply (build_tree_children_built demo_examples demo_tree demo_tree
           "Sports" (Some sports_node)).
  - exact build_tree_demo.
  - apply subtree_here.
  - simpl. right. left. reflexivity.
Defined.

Lemma suv_yellow_imported_at :
  node_at demo_examples demo_tree suv_yellow_imported (leaf "No").
Proof.
  eapply node_child with (v := "SUV");
    [simpl; left; reflexivity | vm_compute; reflexivity |].
  eapply node_child with (v := "Yellow");
    [simpl; left; reflexivity | vm_compute; reflexivity |].
  eapply node_child with (v := "Imported");
    [simpl; right; left; reflexivity | vm_compute; reflexivity |].
  apply node_root.
Defined.

Lemma build_tree_leaf_purity_demo :
  (same_class suv_yellow_imported = Ok true ->
   split_feature (leaf "No") = (-1)%Z) /\
  (split_feature (leaf "No") = (-1)%Z ->
   same_class suv_yellow_imported = Ok true \/
   indistinguishable (n_features demo_examples) suv_yellow_imported).
Proof.
  apply (build_tree_leaf_purity demo_examples suv_yellow_imported demo_tree
           (leaf "No")).
  - exact build_tree_demo.
  - exact suv_yellow_imported_at.
Defined.

Lemma build_tree_root_leaf_iff_demo :
  split_feature demo_tree = (-1)%Z <->
  same_class demo_examples = Ok true \/ n_features demo_examples = 0.
Proof.
  apply (build_tree_root_leaf_iff demo_examples demo_tree).
  exact build_tree_demo.
Defined.
End BuiltTreeExamples.

(** ** Where [IndexError] comes from *)

Lemma py_index_nat_Ok {A : Type} (l : list A) (i : nat) :
  i < List.length l -> exists x, py_index l (Z.of_nat i) = Ok x.
Proof.
  intros Hi. unfold py_index.
  assert (H0 : (Z.of_nat i <? 0)%Z = false) by (apply Z.ltb_ge; lia).
  rewrite H0.
  assert (Hb : ((0 <=? Z.of_nat i) && (Z.of_nat i <? Z.of_nat (List.length l)))%Z
               = true).
  { apply andb_true_iff. split; [apply Z.leb_le | apply Z.ltb_lt]; lia. }
  rewrite Hb, Nat2Z.id.
  destruct (nth_error l i) as [x|] eqn:E; [eauto|].
  apply nth_error_None in E. lia.
Qed.

Lemma py_index_nat_raises {A : Type} (l : list A) (i : nat) (e : exn) :
  py_index l (Z.of_nat i) = Raise e -> List.length l <= i.
Proof.
  intros H. destruct (Nat.lt_ge_cases i (List.length l)) as [Hlt|Hge];
    [|exact Hge].
  destruct (py_index_nat_Ok l i Hlt) as [x Hx]. congruence.
Qed.

Lemma for_each_raises {A S : Type} (body : S -> A -> result S) (l : list A)
    (s : S) (e : exn) :
  for_each body l s = Raise e ->
  exists s' x, In x l /\ body s' x = Raise e.
Proof.
  revert s. induction l as [|x l IH]; simpl; intros s H; [discriminate|].
  destruct (body s x) as [s1|e1] eqn:E; simpl in H.
  - destruct (IH s1 H) as (s' & y & Hy & Hb). eauto.
  - injection H as <-. eauto.
Qed.

Lemma filter_examples_raises (examples : list example) (f : Z) (v : value)
    (e : exn) :
  filter_examples examples f v = Raise e ->
  e = IndexError /\
  exists ex, In ex examples /\ py_index ex f = Raise IndexError.
Proof.
  induction examples as [|ex examples IH]; simpl; [discriminate|].
  destruct (py_index ex f) as [x|e1] eqn:Ex; simpl.
  - destruct (filter_examples examples f v) as [kept|e2]; simpl;
      [discriminate|].
    intros [= <-]. destruct (IH eq_refl) as (-> & ex' & Hin & Hex'). eauto.
  - intros [= <-]. pose proof (py_index_raises _ _ _ Ex) as ->. eauto.
Qed.

Lemma filter_examples_all_Ok (examples : list example) (f : Z) (v : value) :
  (forall ex, In ex examples -> exists x, py_index ex f = Ok x) ->
  exists sub, filter_examples examples f v = Ok sub.
Proof.
  intros H. destruct (filter_examples examples f v) as [sub|e] eqn:E; [eauto|].
  apply filter_examples_raises in E as (_ & ex & Hin & Hex).
  destruct (H ex Hin) as [x Hx]. congruence.
Qed.

Lemma py_truediv_raises (a b : float) (e : exn) :
  py_truediv a b = Raise e -> e = ZeroDivisionError.
Proof.
  unfold py_truediv. destruct (b =? 0)%float; congruence.
Qed.

Section IndexErrors.
Context {P : Platform}.

Lemma math_log_raises (x base : float) (e : exn) :
  math_log x base = Raise e -> e <> IndexError.
Proof.
  unfold math_log, m_log.
  destruct (x <=? 0)%float; simpl; [congruence|].
  destruct (base <=? 0)%float; simpl; [congruence|].
  intros H. apply py_truediv_raises in H. congruence.
Qed.

Lemma majority_class_raises (examples : list example) (e : exn) :
  majority_class examples = Raise e ->
  (e = ValueError /\ examples = []) \/ (e = IndexError /\ In [] examples).
Proof.
  unfold majority_class.
  destruct (class_labels_cases examples) as [[classes Hc]|[Hc Hin]];
    rewrite Hc; cbn [bind].
  - destruct (set_order classes) as [|x s] eqn:Es; simpl; [|discriminate].
    intros [= <-]. left. split; [reflexivity|].
    destruct examples as [|ex examples]; [reflexivity|]. exfalso.
    apply comprehension_Ok in Hc. inversion Hc as [|? c ? cs _ _]; subst.
    pose proof (proj2 (set_order_In (c :: cs) c) (or_introl eq_refl)) as Hin.
    rewrite Es in Hin. exact Hin.
  - intros [= <-]. right. auto.
Qed.

Lemma same_class_raises (examples : list example) (e : exn) :
  same_class examples = Raise e -> e = IndexError /\ In [] examples.
Proof.
  unfold same_class.
  destruct (class_labels_cases examples) as [[classes Hc]|[Hc Hin]];
    rewrite Hc; cbn [bind]; [discriminate|].
  intros [= <-]. auto.
Qed.

Lemma entropy_IndexError (examples : list example) :
  entropy examples = Raise IndexError -> In [] examples.
Proof.
  unfold entropy.
  destruct (class_labels_cases examples) as [[classes Hc]|[Hc Hin]];
    rewrite Hc; cbn [bind]; [|auto].
  intros H. exfalso.
  apply for_each_raises in H as (s & n & _ & H).
  destruct (0 <? n); [|discriminate].
  destruct (py_truediv _ _) as [frac|e1] eqn:E1; simpl in H.
  - destruct (math_log frac 2) as [lg|e2] eqn:E2; simpl in H; [discriminate|].
    injection H as ->. exact (math_log_raises _ _ _ E2 eq_refl).
  - injection H as ->. apply py_truediv_raises in E1. discriminate.
Qed.

Lemma split_entropy_IndexError (k : Z) (features : features_t)
    (examples : list example) :
  split_entropy k features examples = Raise IndexError ->
  index_fault examples [k].
Proof.
  unfold split_entropy.
  destruct (dict_get Z.eqb features k) as [dom|e] eqn:Hget; cbn [bind].
  2:{ intros [= ->]. exfalso. clear -Hget.
      induction features as [|[k' d] fs IH]; simpl in Hget; [discriminate|].
      destruct (Z.eqb k' k); [discriminate | auto]. }
  intros H. apply for_each_raises in H as (s & v & _ & H).
  destruct (filter_examples examples k v) as [sub|e1] eqn:E1; simpl in H.
  - destruct (py_truediv _ _) as [w|e2] eqn:E2; simpl in H.
    + destruct (entropy sub) as [h|e3] eqn:E3; simpl in H; [discriminate|].
      injection H as ->. left. apply entropy_IndexError in E3.
      apply (filter_examples_In _ _ _ _ E1) in E3. tauto.
    + injection H as ->. apply py_truediv_raises in E2. discriminate.
  - apply filter_examples_raises in E1 as (_ & ex & Hin & Hex).
    right. exists k, ex. simpl. auto.
Qed.

Lemma best_feature_IndexError (features : features_t)
    (examples : list example) :
  best_feature features examples = Raise IndexError ->
  index_fault examples (dict_keys features).
Proof.
  unfold best_feature, best_feature_from.
  destruct (for_each _ _ _) as [best|e] eqn:E; cbn [bind]; [discriminate|].
  intros [= ->]. apply for_each_raises in E as (s & k & Hk & H).
  destruct (split_entropy k features examples) as [se|e1] eqn:E1; simpl in H;
    [discriminate|].
  injection H as ->.
  destruct (split_entropy_IndexError _ _ _ E1) as [H0|(k' & ex & Hk' & Hex & Hi)];
    [left; exact H0|].
  destruct Hk' as [<-|[]]. right. eauto.
Qed.

Lemma dict_pop_raises (features : features_t) (k : Z) (e : exn) :
  dict_pop Z.eqb features k = Raise e -> e = KeyError.
Proof.
  induction features as [|[k' d] fs IH]; simpl; [congruence|].
  destruct (Z.eqb k' k); [discriminate|].
  destruct (dict_pop Z.eqb fs k) as [r|e1]; simpl; [discriminate|].
  intros [= <-]. auto.
Qed.

Lemma dict_get_Z_raises (features : features_t) (k : Z) (e : exn) :
  dict_get Z.eqb features k = Raise e -> e = KeyError.
Proof.
  induction features as [|[k' d] fs IH]; simpl; [congruence|].
  destruct (Z.eqb k' k); [discriminate | exact IH].
Qed.

Lemma build_children_raises (rec : list example -> builder TreeNode)
    (examples : list example) (best : Z) (dom : list value) (e : exn) :
  forall acc,
    build_children rec examples best dom acc = Some (Raise e) ->
    exists v, In v dom /\
      (filter_examples examples best v = Raise e \/
       exists sub, filter_examples examples best v = Ok sub /\
                   rec sub = Some (Raise e)).
Proof.
  induction dom as [|v dom IH]; intros acc; cbn [build_children];
    [discriminate|].
  unfold bbind.
  destruct (filter_examples examples best v) as [sub|e1] eqn:E1.
  - destruct (rec sub) as [[c|e2]|] eqn:E2.
    + intros H. destruct (IH _ H) as (v' & Hv' & H'). exists v'.
      split; [right; exact Hv' | exact H'].
    + intros [= <-]. exists v. split; [left; reflexivity|]. right. eauto.
    + discriminate.
  - intros [= <-]. exists v. split; [left; reflexivity|]. left. exact E1.
Qed.

Lemma build_tree_1_IndexError (fuel : nat) :
  forall examples features,
    build_tree_1 fuel examples features = Some (Raise IndexError) ->
    index_fault examples (dict_keys features).
Proof.
  induction fuel as [|fuel IH]; intros examples features; [discriminate|].
  cbn [build_tree_1]. unfold bbind.
  destruct (majority_class examples) as [mc|e] eqn:Emc.
  2:{ intros [= ->]. left.
      destruct (majority_class_raises _ _ Emc) as [[? _]|[_ ?]];
        [discriminate | assumption]. }
  destruct (same_class examples) as [[|]|e] eqn:Esame; [discriminate| |].
  2:{ intros _. left. exact (proj2 (same_class_raises _ _ Esame)). }
  destruct features as [|kd features']; [discriminate|].
  set (features := kd :: features') in *.
  destruct (best_feature features examples) as [best|e] eqn:Ebest.
  2:{ intros [= ->]. exact (best_feature_IndexError _ _ Ebest). }
  destruct (dict_pop Z.eqb features best) as [rem|e] eqn:Hpop.
  2:{ intros [= ->]. apply dict_pop_raises in Hpop. discriminate. }
  destruct (dict_get Z.eqb features best) as [dom|e] eqn:Hget.
  2:{ intros [= ->]. apply dict_get_Z_raises in Hget. discriminate. }
  destruct (build_children _ _ _ _ _) as [[kids|e]|] eqn:Ekids;
    [discriminate| |discriminate].
  intros [= ->].
  apply build_children_raises in Ekids as (v & Hv & [Hfil|(sub & Hfil & Hrec)]).
  - apply filter_examples_raises in Hfil as (_ & ex & Hin & Hex).
    right. exists best, ex. split; [|auto].
    apply dict_get_Z_In in Hget. exact (dict_keys_In _ _ _ Hget).
  - assert (Hsub : forall ex, In ex sub -> In ex examples).
    { intros ex Hex. apply (filter_examples_In _ _ _ _ Hfil) in Hex. tauto. }
    destruct (IH _ _ Hrec) as [H0|(k & ex & Hk & Hex & Hi)].
    + left. auto.
    + right. exists k, ex. split; [|auto].
      apply dict_pop_Ok in Hpop as [Hperm _].
      apply (Permutation_in _ (Permutation_sym Hperm)). right. exact Hk.
Qed.

Lemma collect_features_raises (examples : list example) (n : nat) (e : exn) :
  collect_features examples n = Raise e ->
  e = IndexError /\
  exists i ex, i < n /\ In ex examples /\ List.length ex <= i.
Proof.
  unfold collect_features. intros H.
  apply for_each_raises in H as (s & i & Hi & H).
  destruct (comprehension _ examples) as [col|e1] eqn:E1; simpl in H;
    [discriminate|].
  injection H as ->.
  apply comprehension_raises in E1 as (ex & Hex & Hraise).
  pose proof (py_index_raises _ _ _ Hraise) as ->.
  split; [reflexivity|]. exists i, ex. apply in_seq in Hi.
  split; [lia|]. split; [exact Hex|].
  exact (py_index_nat_raises _ _ _ Hraise).
Qed.

(** X7: [build_tree] raises [IndexError] exactly on a ragged table: one
    with an empty row, or with a row that has fewer entries than the first
    row has feature columns.  A row that only lacks the label is no error:
    its last feature value is read as its label. *)
Theorem build_tree_IndexError_iff (examples : list example) :
  build_tree examples = Some (Raise IndexError) <-> ragged examples.
Proof.
  unfold ragged, n_features.
  destruct examples as [|first rest].
  { split; [discriminate | intros (e & [] & _)]. }
  cbn [hd]. unfold build_tree, bbind.
  destruct (collect_features (first :: rest) (List.length first - 1))
    as [fs|e] eqn:Hfs.
  - destruct (table_ok_collect _ _ _ Hfs) as [(_ & _ & Hcov) _].
    destruct (collect_features_Ok _ _ _ Hfs) as [Hkeys _].
    assert (Hlong : forall ex, In ex (first :: rest) ->
              ~ List.length ex < List.length first - 1).
    { intros ex Hex Hlt.
      assert (Hk : In (Z.of_nat (List.length ex)) (dict_keys fs)).
      { rewrite Hkeys. apply in_map, in_seq. lia. }
      apply in_map_iff in Hk as ([k dom] & Hfst & Hin). simpl in Hfst.
      subst k. destruct (Hcov _ _ ex Hin Hex) as (v & Hv & _).
      destruct (nth_error_None ex (List.length ex)) as [_ Hnone].
      unfold py_index in Hv.
      destruct (Z.of_nat (List.length ex) <? 0)%Z eqn:E0;
        [apply Z.ltb_lt in E0; lia|].
      rewrite Z.ltb_irrefl, andb_false_r in Hv. discriminate. }
    split.
    + destruct (build_tree_1 (S (List.length fs)) (first :: rest) fs)
        as [[t|e]|] eqn:Hb; [discriminate| |discriminate].
      intros [= ->].
      destruct (build_tree_1_IndexError _ _ _ Hb)
        as [H0|(k & ex & Hk & Hex & Hi)].
      * exists []. auto.
      * exfalso. apply in_map_iff in Hk as ([k' dom] & Hfst & Hin).
        simpl in Hfst. subst k'.
        destruct (Hcov _ _ ex Hin Hex) as (v & Hv & _). congruence.
    + intros (e & He & [->|Hlt]); [|exfalso; exact (Hlong e He Hlt)].
      assert (Hnil : fs = []).
      { destruct (Nat.eq_dec (List.length first - 1) 0) as [Hz|Hnz].
        - destruct (collect_features_ok _ _ _ Hfs) as (_ & Hlen & _).
          rewrite Hz in Hlen. destruct fs; [reflexivity | discriminate].
        - exfalso. apply (Hlong [] He). simpl. lia. }
      subst fs. cbn [build_tree_1 List.length]. unfold bbind.
      unfold majority_class. rewrite (class_labels_empty_row _ He).
      reflexivity.
  - destruct (collect_features_raises _ _ _ Hfs)
      as (-> & i & ex & Hi & Hex & Hlen).
    split; [intros _|reflexivity].
    exists ex. split; [exact Hex|]. right. lia.
Qed.
End IndexErrors.

(** ** Printing a tree *)

Lemma py_index_last_Ok {A : Type} (l : list A) :
  l <> [] -> exists x, py_index l (-1) = Ok x.
Proof.
  intros Hne. destruct (py_index l (-1)) as [x|e] eqn:E; [eauto|].
  exfalso. apply Hne. apply py_index_last_raises. eauto.
Qed.

Lemma py_index_nil {A : Type} (i : Z) :
  py_index (@nil A) i = Raise IndexError.
Proof.
  unfold py_index. destruct (_ && _); [|reflexivity].
  destruct (Z.to_nat _); reflexivity.
Qed.

(** With a name for the label and for every split feature in the tree,
    [print_tree] raises nothing. *)
Lemma print_tree_Ok (feature_names : list string) (t : TreeNode) :
  feature_names <> [] ->
  (forall n, subtree t n ->
     split_feature n = (-1)%Z \/
     exists name, py_index feature_names (split_feature n) = Ok name) ->
  forall depth, exists lines,
    print_tree t feature_names depth = (lines, Ok tt).
Proof.
  intros Hne.
  destruct (py_index_last_Ok feature_names Hne) as [last Hlast].
  induction t as [sf kids mc IH] using TreeNode_children_ind.
  intros Hall depth. cbn [print_tree].
  destruct (sf =? -1)%Z eqn:Hsf.
  { rewrite Hlast. simpl. eauto. }
  destruct (Hall _ (subtree_here _)) as [Hleaf|[name Hname]].
  { simpl in Hleaf. apply Z.eqb_neq in Hsf. contradiction. }
  simpl in Hname. rewrite Hname, Hlast. cbn [bind print_line].
  match goal with
  | |- exists lines, ?F kids = _ =>
      assert (Hloop : forall l, incl l kids ->
                exists lines, F l = (lines, Ok tt))
  end.
  { induction l as [|[v o] l IHl]; intros Hincl; [eauto|].
    destruct IHl as [rest Hrest].
    { intros x Hx. apply Hincl. right. exact Hx. }
    assert (Hin : In (v, o) kids) by (apply Hincl; left; reflexivity).
    destruct o as [c|].
    - destruct (IH v c Hin) with (depth := (depth + 1)%Z) as [lines Hlines].
      { intros n Hn. apply Hall. eapply subtree_below; eassumption. }
      cbn [pthen] in Hrest |- *. rewrite Hlines, Hrest. cbn [pthen]. eauto.
    - cbn [pthen] in Hrest |- *. rewrite Hrest. cbn [pthen]. eauto. }
  apply Hloop. apply incl_refl.
Qed.

Section PrintingBuiltTrees.
Context {P : Platform}.

Lemma split_step_children (N fuel : nat) (exs : list example)
    (fs : features_t) (t : TreeNode) :
  table_ok N exs fs -> exs <> [] -> split_step fuel exs fs t ->
  (split_feature t < Z.of_nat N)%Z /\ children t <> [].
Proof.
  intros (_ & Hidx & Hcov) Hne (_ & _ & rem & dom & _ & _ & Hget & Hkeys & _).
  apply dict_get_Z_In in Hget.
  destruct (Hidx _ (dict_keys_In _ _ _ Hget)) as (i & Hi & ->).
  split; [lia|].
  destruct exs as [|ex exs]; [contradiction|].
  destruct (Hcov _ _ ex Hget (or_introl eq_refl)) as (v & _ & Hv).
  intros Hnil. rewrite Hnil in Hkeys. simpl in Hkeys. subst dom.
  contradiction.
Qed.

(** X9: for a built tree and a list of names with one name per column,
    or at least more names than there are feature columns, [print_tree]
    raises nothing and prints at least one line; with no name at all it
    prints nothing and raises [IndexError]. *)
Theorem print_tree_built (examples : list example) (t : TreeNode)
    (feature_names : list string) (depth : Z) :
  build_tree examples = Some (Ok (Some t)) ->
  (n_features examples < List.length feature_names ->
   exists lines, lines <> [] /\
     print_tree t feature_names depth = (lines, Ok tt)) /\
  print_tree t [] depth = ([], Raise IndexError).
Proof.
  intros Hb.
  destruct (build_tree_table _ _ Hb) as (fs & Hb1 & Hok & Hset & _).
  pose proof Hok as ([_ Hdom] & _).
  assert (Hroot : split_feature t = (-1)%Z \/
            ((0 <= split_feature t < Z.of_nat (n_features examples))%Z /\
             children t <> [])).
  { destruct (build_tree_1_inv _ _ _ _ Hb1 Hdom)
      as (fuel' & _ & Hmc & [Hleaf|Hsplit]); [left; apply Hleaf|right].
    pose proof (split_step_index _ _ _ _ _ Hok Hsplit).
    destruct (split_step_children _ _ _ _ _ Hok
                (majority_class_nonempty _ _ Hmc) Hsplit).
    auto. }
  split.
  - intros Hlen.
    assert (Hne : feature_names <> []).
    { intros ->. simpl in Hlen. lia. }
    destruct (print_tree_Ok feature_names t Hne) with (depth := depth)
      as [lines Hlines].
    { intros n Hn.
      destruct (build_tree_1_subtree _ _ Hn _ _ _ Hb1 Hdom) as (exn & Hnode).
      destruct (build_tree_1_node_table _ _ _ _ _ Hnode _ _ Hb1 Hok Hset)
        as (fuel' & fsn & Hbn & Hokn & _ & _).
      pose proof Hokn as ([_ Hdomn] & Hidx & _).
      destruct (build_tree_1_inv _ _ _ _ Hbn Hdomn)
        as (fuel'' & _ & _ & [Hleaf|Hsplit]); [left; apply Hleaf|right].
      destruct Hsplit as (_ & _ & rem & dom & _ & _ & Hget & _).
      apply dict_get_Z_In in Hget.
      destruct (Hidx _ (dict_keys_In _ _ _ Hget)) as (i & Hi & ->).
      apply py_index_nat_Ok. lia. }
    exists lines. split; [|exact Hlines].
    intros ->. destruct t as [sf kids mc]. cbn [print_tree] in Hlines.
    destruct (py_index_last_Ok feature_names Hne) as [last Hlast].
    simpl in Hroot. destruct Hroot as [->|[Hsf Hkids]].
    + simpl in Hlines. rewrite Hlast in Hlines. discriminate.
    + assert (Hneq : (sf =? -1)%Z = false) by (apply Z.eqb_neq; lia).
      rewrite Hneq in Hlines.
      destruct kids as [|[v o] kids]; [contradiction|].
      destruct (py_index_nat_Ok feature_names (Z.to_nat sf)) as [name Hname];
        [lia|].
      rewrite Z2Nat.id in Hname by lia. rewrite Hname in Hlines.
      cbn [bind print_line pthen] in Hlines.
      destruct (pthen _ _) as [out r]. discriminate.
  - destruct t as [sf kids mc]. cbn [print_tree].
    simpl in Hroot. destruct Hroot as [->|[Hsf Hkids]]; [reflexivity|].
    assert (Hneq : (sf =? -1)%Z = false) by (apply Z.eqb_neq; lia).
    rewrite Hneq. destruct kids as [|[v o] kids]; [contradiction|].
    pose proof (py_index_nil (A := string) sf) as Hraise.
    rewrite Hraise. reflexivity.
Qed.
End PrintingBuiltTrees.

(** ** Filtering and partitioning the examples *)

Lemma filter_examples_filter (examples : list example) (f : Z) (v : value)
    (sub : list example) :
  filter_examples examples f v = Ok sub ->
  sub = filter (has_value f v) examples.
Proof.
  revert sub. induction examples as [|ex examples IH]; simpl; intros sub H.
  - congruence.
  - apply bind_Ok_inv in H as (x & Hx & H).
    apply bind_Ok_inv in H as (kept & Hk & H). injection H as <-.
    unfold has_value at 1. rewrite Hx, (IH kept Hk). reflexivity.
Qed.

(** X12: [filter_examples] returns, in their order, exactly the examples
    that have the given value at the given index, provided every example
    has that index; otherwise it raises [IndexError], also when the example
    at fault would not have been kept. *)
Theorem filter_examples_spec (examples : list example) (f : Z) (v : value) :
  (forall sub,
     filter_examples examples f v = Ok sub <->
     (forall ex, In ex examples -> exists x, py_index ex f = Ok x) /\
     sub = filter (has_value f v) examples) /\
  (forall e,
     filter_examples examples f v = Raise e <->
     e = IndexError /\
     exists ex, In ex examples /\ py_index ex f = Raise IndexError).
Proof.
  split.
  - intros sub. split.
    + intros H. split; [|exact (filter_examples_filter _ _ _ _ H)].
      intros ex Hex. destruct (py_index ex f) as [x|e] eqn:E; [eauto|].
      exfalso. clear -H Hex E.
      revert sub H. induction examples as [|ex' examples IH]; simpl;
        intros sub H; [contradiction|].
      apply bind_Ok_inv in H as (x & Hx & H).
      apply bind_Ok_inv in H as (kept & Hk & _).
      destruct Hex as [->|Hex]; [congruence | eauto].
    + intros [Hall ->].
      destruct (filter_examples_all_Ok examples f v Hall) as [sub Hsub].
      rewrite Hsub. f_equal. exact (filter_examples_filter _ _ _ _ Hsub).
  - intros e. split; [apply filter_examples_raises|].
    intros (-> & ex & Hex & Hraise).
    destruct (filter_examples examples f v) as [sub|e] eqn:E.
    + exfalso. clear -E Hex Hraise.
      revert sub E. induction examples as [|ex' examples IH]; simpl;
        intros sub H; [contradiction|].
      apply bind_Ok_inv in H as (x & Hx & H).
      apply bind_Ok_inv in H as (kept & Hk & _).
      destruct Hex as [->|Hex]; [congruence | eauto].
    + f_equal. exact (proj1 (filter_examples_raises _ _ _ _ E)).
Qed.

Lemma filter_has_value_other (f : Z) (ex : example) (x : value)
    (examples : list example) (dom : list value) :
  py_index ex f = Ok x -> ~ In x dom ->
  map (fun v => filter (has_value f v) (ex :: examples)) dom =
  map (fun v => filter (has_value f v) examples) dom.
Proof.
  intros Hx Hnot. apply map_ext_in. intros v Hv. simpl.
  unfold has_value at 1. rewrite Hx.
  destruct (String.eqb x v) eqn:E; [|reflexivity].
  apply String.eqb_eq in E. subst v. contradiction.
Qed.

Lemma filter_partition (f : Z) (dom : list value) (examples : list example) :
  NoDup dom ->
  (forall ex, In ex examples -> exists x, py_index ex f = Ok x /\ In x dom) ->
  Permutation (List.concat (map (fun v => filter (has_value f v) examples) dom))
              examples.
Proof.
  intros Hnd. induction examples as [|ex examples IH]; intros Hall.
  - clear. induction dom as [|v dom IH]; simpl; [constructor | exact IH].
  - destruct (Hall ex (or_introl eq_refl)) as (x & Hx & Hin).
    apply in_split in Hin as (d1 & d2 & ->).
    apply NoDup_remove_2 in Hnd as Hnot.
    assert (Hn1 : ~ In x d1) by (intros H; apply Hnot, in_or_app; auto).
    assert (Hn2 : ~ In x d2) by (intros H; apply Hnot, in_or_app; auto).
    specialize (IH (fun e He => Hall e (or_intror He))).
    rewrite map_app, concat_app in IH |- *. cbn [map List.concat] in IH |- *.
    rewrite (filter_has_value_other f ex x examples d1 Hx Hn1).
    rewrite (filter_has_value_other f ex x examples d2 Hx Hn2).
    cbn [filter]. unfold has_value at 2. rewrite Hx, String.eqb_refl.
    cbn [app]. rewrite <- Permutation_middle. apply perm_skip. exact IH.
Qed.

(** X13: splitting on a feature loses and repeats no example: when the
    domain has no repetition and holds the value of every example, the
    lists [filter_examples] returns for the values of the domain are,
    taken together, a rearrangement of the examples. *)
Theorem filter_examples_partition (examples : list example) (f : Z)
    (dom : list value) :
  NoDup dom ->
  (forall ex, In ex examples -> exists x, py_index ex f = Ok x /\ In x dom) ->
  exists subs,
    comprehension (fun v => filter_examples examples f v) dom = Ok subs /\
    Permutation (List.concat subs) examples.
Proof.
  intros Hnd Hall.
  exists (map (fun v => filter (has_value f v) examples) dom).
  split; [|exact (filter_partition f dom examples Hnd Hall)].
  assert (Hidx : forall ex, In ex examples -> exists x, py_index ex f = Ok x).
  { intros ex Hex. destruct (Hall ex Hex) as (x & Hx & _). eauto. }
  clear Hnd Hall.
  induction dom as [|v dom IH]; simpl; [reflexivity|].
  destruct (filter_examples_all_Ok examples f v Hidx) as [sub Hsub].
  rewrite Hsub, (filter_examples_filter _ _ _ _ Hsub). cbn [bind].
  rewrite IH. reflexivity.
Qed.

(** ** Edge cases of the entropies *)

Section EntropyEdges.
Context {P : Platform}.

Lemma entropy_not_KeyError (examples : list example) (e : exn) :
  entropy examples = Raise e -> e <> KeyError.
Proof.
  unfold entropy.
  destruct (class_labels_cases examples) as [[classes Hc]|[Hc Hin]];
    rewrite Hc; cbn [bind]; [|congruence].
  intros H. apply for_each_raises in H as (s & n & _ & H).
  destruct (0 <? n); [|discriminate].
  destruct (py_truediv _ _) as [frac|e1] eqn:E1; simpl in H.
  - unfold math_log, m_log in H.
    destruct (frac <=? 0)%float; simpl in H; [congruence|].
    destruct (py_truediv (libm_log frac) (libm_log 2)) as [lg|e2] eqn:E2;
      simpl in H; [discriminate|].
    injection H as ->. apply py_truediv_raises in E2. congruence.
  - injection H as ->. apply py_truediv_raises in E1. congruence.
Qed.

Lemma dict_get_Z_key (features : features_t) (k : Z) :
  In k (dict_keys features) <-> exists dom, dict_get Z.eqb features k = Ok dom.
Proof.
  induction features as [|[k' d] fs IH]; simpl.
  - split; [tauto | intros [dom H]; discriminate].
  - destruct (Z.eqb k' k) eqn:E.
    + apply Z.eqb_eq in E. split; eauto.
    + apply Z.eqb_neq in E. rewrite <- IH. tauto.
Qed.

(** X14: [entropy] of no examples is 0.0.  [split_entropy] raises
    [KeyError] exactly when the feature index is no key of the table; it is
    0.0 for a feature with an empty domain; and on an empty list of
    examples it raises [ZeroDivisionError] as soon as the domain has a
    value, since the weight divides by the number of examples. *)
Theorem split_entropy_edges (k : Z) (features : features_t)
    (examples : list example) :
  entropy [] = Ok 0%float /\
  (split_entropy k features examples = Raise KeyError <->
   ~ In k (dict_keys features)) /\
  (dict_get Z.eqb features k = Ok [] ->
   split_entropy k features examples = Ok 0%float) /\
  (forall v dom,
     dict_get Z.eqb features k = Ok (v :: dom) ->
     split_entropy k features [] = Raise ZeroDivisionError).
Proof.
  split; [|split; [|split]].
  - unfold entropy. simpl. rewrite set_order_nil. reflexivity.
  - rewrite dict_get_Z_key. unfold split_entropy. split.
    + intros H [dom Hget]. rewrite Hget in H. cbn [bind] in H.
      apply for_each_raises in H as (s & v & _ & H).
      destruct (filter_examples examples k v) as [sub|e1] eqn:E1; simpl in H.
      * destruct (py_truediv _ _) as [w|e2] eqn:E2; simpl in H.
        -- destruct (entropy sub) as [h|e3] eqn:E3; simpl in H; [discriminate|].
           injection H as ->. exact (entropy_not_KeyError _ _ E3 eq_refl).
        -- injection H as ->. apply py_truediv_raises in E2. discriminate.
      * apply filter_examples_raises in E1 as (-> & _). discriminate.
    + intros H. destruct (dict_get Z.eqb features k) as [dom|e] eqn:Hget.
      * exfalso. eauto.
      * rewrite (dict_get_Z_raises _ _ _ Hget). reflexivity.
  - intros Hget. unfold split_entropy. rewrite Hget. reflexivity.
  - intros v dom Hget. unfold split_entropy. rewrite Hget. reflexivity.
Qed.
End EntropyEdges.

(** ** The recursion of the builder ends *)

Section Termination.
Context {P : Platform}.

(** X8: [build_tree] always ends, with a tree or an exception: each level
    of [build_tree_1] removes a feature, so the recursion is at most one
    level deeper than the table has features, and any bound above that
    gives the same answer. *)
Theorem build_tree_terminates (examples : list example) :
  (exists r, build_tree examples = Some r) /\
  (forall fuel features,
     List.length features < fuel ->
     exists r,
       build_tree_1 (S (List.length features)) examples features = Some r /\
       build_tree_1 fuel examples features = Some r).
Proof.
  split.
  - unfold build_tree. destruct examples as [|first rest]; [eauto|].
    unfold bbind.
    destruct (collect_features (first :: rest) (List.length first - 1))
      as [fs|e]; [|eauto].
    destruct (build_tree_1_fuel (S (List.length fs)) (first :: rest) fs)
      as [[t|e] ->]; [lia|eauto|eauto].
  - intros fuel features Hlt.
    destruct (build_tree_1_fuel (S (List.length features)) examples features)
      as [r Hr]; [lia|].
    exists r. split; [exact Hr|].
    apply (build_tree_1_fuel_mono _ _ _ _ Hr). lia.
Qed.
End Termination.

(** ** The order of floats *)

Lemma SFcompare_Lt_trans (x y z : spec_float) :
  SFcompare x y = Some Lt -> SFcompare y z = Some Lt ->
  SFcompare x z = Some Lt.
Proof.
  destruct x as [sx|sx| |sx mx ex], y as [sy|sy| |sy my ey],
           z as [sz|sz| |sz mz ez]; simpl;
    try discriminate; try reflexivity;
    repeat match goal with s : bool |- _ => destruct s end;
    try discriminate; try reflexivity; try (intros; assumption).
  all: change (Pos.compare_cont Eq) with Pos.compare.
  all: destruct (Z.compare_spec ex ey), (Z.compare_spec ey ez),
         (Z.compare_spec ex ez); subst; try discriminate; try lia;
         try reflexivity.
  all: destruct (Pos.compare_spec mx my), (Pos.compare_spec my mz),
         (Pos.compare_spec mx mz); subst; simpl; try discriminate; try lia;
         try reflexivity.
Qed.

Lemma SFcompare_Eq_Lt_trans (x y z : spec_float) :
  SFcompare x y = Some Eq -> SFcompare y z = Some Lt ->
  SFcompare x z = Some Lt.
Proof.
  destruct x as [sx|sx| |sx mx ex], y as [sy|sy| |sy my ey],
           z as [sz|sz| |sz mz ez]; simpl;
    try discriminate; try reflexivity;
    repeat match goal with s : bool |- _ => destruct s end;
    try discriminate; try reflexivity; try (intros; assumption).
  all: change (Pos.compare_cont Eq) with Pos.compare.
  all: destruct (Z.compare_spec ex ey), (Z.compare_spec ey ez),
         (Z.compare_spec ex ez); subst; try discriminate; try lia;
         try reflexivity.
  all: destruct (Pos.compare_spec mx my), (Pos.compare_spec my mz),
         (Pos.compare_spec mx mz); subst; simpl; try discriminate; try lia;
         try reflexivity.
Qed.

Lemma float_ltb_trans (a b c : float) :
  (a <? b)%float = true -> (b <? c)%float = true -> (a <? c)%float = true.
Proof.
  rewrite !ltb_spec. unfold SFltb.
  destruct (SFcompare (Prim2SF a) (Prim2SF b)) as [[| |]|] eqn:E1;
    try discriminate.
  destruct (SFcompare (Prim2SF b) (Prim2SF c)) as [[| |]|] eqn:E2;
    try discriminate.
  rewrite (SFcompare_Lt_trans _ _ _ E1 E2). reflexivity.
Qed.

Lemma float_leb_ltb_trans (a b c : float) :
  (a <=? b)%float = true -> (b <? c)%float = true -> (a <? c)%float = true.
Proof.
  rewrite leb_spec, !ltb_spec. unfold SFltb, SFleb.
  destruct (SFcompare (Prim2SF a) (Prim2SF b)) as [[| |]|] eqn:E1;
    try discriminate;
    destruct (SFcompare (Prim2SF b) (Prim2SF c)) as [[| |]|] eqn:E2;
    try discriminate; intros _ _.
  - rewrite (SFcompare_Eq_Lt_trans _ _ _ E1 E2). reflexivity.
  - rewrite (SFcompare_Lt_trans _ _ _ E1 E2). reflexivity.
Qed.

Lemma float_ltb_irrefl (a : float) : (a <? a)%float = false.
Proof.
  rewrite ltb_spec. unfold SFltb.
  destruct (Prim2SF a) as [s|s| |s m e]; simpl; try reflexivity;
    destruct s; try reflexivity;
    rewrite Z.compare_refl;
    change (Pos.compare_cont Eq m m) with (Pos.compare m m);
    rewrite Pos.compare_refl; reflexivity.
Qed.

(** ** The feature [best_feature] chooses *)

Section BestFeature.
Context {P : Platform}.

Lemma best_feature_from_spec (features : features_t)
    (examples : list example) (keys : list Z) :
  forall start best,
    best_feature_from features examples keys start = Ok best ->
    (best = start /\
     forall k, In k keys ->
       exists se, split_entropy k features examples = Ok se /\
                  (se <? snd start)%float = false) \/
    exists before after,
      keys = before ++ fst best :: after /\
      split_entropy (fst best) features examples = Ok (snd best) /\
      (snd best <? snd start)%float = true /\
      (forall k, In k before ->
         exists se, split_entropy k features examples = Ok se /\
                    (se <=? snd best)%float = false) /\
      (forall k, In k after ->
         exists se, split_entropy k features examples = Ok se /\
                    (se <? snd best)%float = false).
Proof.
  unfold best_feature_from.
  induction keys as [|k keys IH]; intros start best; simpl.
  - intros [= <-]. left. split; [reflexivity|]. intros k [].
  - intros H. apply bind_Ok_inv in H as (s1 & Hs1 & H).
    apply bind_Ok_inv in Hs1 as (se & Hse & Hs1). injection Hs1 as <-.
    destruct (se <? snd start)%float eqn:Elt.
    + destruct (IH _ _ H) as [[-> Hall]|(before & after & -> & Hb & Hlt & Hbef & Haft)].
      * right. exists [], keys. simpl.
        split; [reflexivity|]. split; [exact Hse|]. split; [exact Elt|].
        split; [intros k' []| exact Hall].
      * right. exists (k :: before), after. simpl in Hlt |- *.
        split; [reflexivity|]. split; [exact Hb|].
        split; [exact (float_ltb_trans _ _ _ Hlt Elt)|].
        split; [|exact Haft].
        intros k' [<-|Hk']; [|auto].
        exists se. split; [exact Hse|].
        destruct (se <=? snd best)%float eqn:Ele; [|reflexivity].
        pose proof (float_leb_ltb_trans _ _ _ Ele Hlt) as Hbad.
        rewrite float_ltb_irrefl in Hbad. discriminate.
    + destruct (IH _ _ H) as [[-> Hall]|(before & after & -> & Hb & Hlt & Hbef & Haft)].
      * left. split; [reflexivity|].
        intros k' [<-|Hk']; [eauto | auto].
      * right. exists (k :: before), after.
        split; [reflexivity|]. split; [exact Hb|]. split; [exact Hlt|].
        split; [|exact Haft].
        intros k' [<-|Hk']; [|auto].
        exists se. split; [exact Hse|].
        destruct (se <=? snd best)%float eqn:Ele; [|reflexivity].
        pose proof (float_leb_ltb_trans _ _ _ Ele Hlt) as Hbad.
        congruence.
Qed.

(** X15: [best_feature] returns the first key, in the order of the
    table, whose split entropy is the least: it is below 2.0, no key has a
    smaller one, and every key before it has a greater one (or one that is
    not a number).  When no key has a split entropy below 2.0, the answer
    is -1. *)
Theorem best_feature_first_minimum (features : features_t)
    (examples : list example) (b : Z) :
  best_feature features examples = Ok b ->
  (b = (-1)%Z /\
   forall k, In k (dict_keys features) ->
     exists se, split_entropy k features examples = Ok se /\
                (se <? 2)%float = false) \/
  exists before after se_b,
    dict_keys features = before ++ b :: after /\
    split_entropy b features examples = Ok se_b /\
    (se_b <? 2)%float = true /\
    (forall k, In k before ->
       exists se, split_entropy k features examples = Ok se /\
                  (se <=? se_b)%float = false) /\
    (forall k, In k after ->
       exists se, split_entropy k features examples = Ok se /\
                  (se <? se_b)%float = false).
Proof.
  unfold best_feature. intros H.
  apply bind_Ok_inv in H as (best & Hbest & H). injection H as <-.
  destruct (best_feature_from_spec _ _ _ _ _ Hbest)
    as [[-> Hall]|(before & after & Hkeys & Hb & Hlt & Hbef & Haft)].
  - left. split; [reflexivity | exact Hall].
  - right. exists before, after, (snd best). auto.
Qed.
End BestFeature.

Section FurtherExamples.
Local Open Scope string_scope.

Lemma collect_features_demo :
  collect_features demo_examples 3 = Ok demo_features.
Proof. vm_compute. reflexivity. Qed.

Lemma print_tree_built_demo :
  (n_features demo_examples < List.length demo_names ->
   exists lines, lines <> [] /\
     print_tree demo_tree demo_names 1 = (lines, Ok tt)) /\
  print_tree demo_tree [] 1 = ([], Raise IndexError).
Proof.
  apply (print_tree_built demo_examples demo_tree demo_names 1).
  exact build_tree_demo.
Defined.

Lemma filter_examples_partition_weather :
  exists subs,
    comprehension (fun v => filter_examples weather_examples 0 v)
      ["Sunny"; "Rainy"] = Ok subs /\
    Permutation (List.concat subs) weather_examples.
Proof.
  apply (filter_examples_partition weather_examples 0 ["Sunny"; "Rainy"]).
  - repeat constructor; simpl; intuition discriminate.
  - intros ex Hex. simpl in Hex.
    repeat match goal with
           | H : _ \/ _ |- _ => destruct H as [H|H]
           | H : False |- _ => destruct H
           end; subst ex; eexists; (split; [reflexivity | simpl; tauto]).
Defined.

Lemma best_feature_first_minimum_demo :
  (1%Z = (-1)%Z /\
   forall k, In k (dict_keys demo_features) ->
     exists se, split_entropy k demo_features demo_examples = Ok se /\
                (se <? 2)%float = false) \/
  exists before after se_b,
    dict_keys demo_features = (before ++ 1%Z :: after)%list /\
    split_entropy 1 demo_features demo_examples = Ok se_b /\
    (se_b <? 2)%float = true /\
    (forall k, In k before ->
       exists se, split_entropy k demo_features demo_examples = Ok se /\
                  (se <=? se_b)%float = false) /\
    (forall k, In k after ->
       exists se, split_entropy k demo_features demo_examples = Ok se /\
                  (se <? se_b)%float = false).
Proof.
  apply (best_feature_first_minimum demo_features demo_examples 1).
  vm_compute. reflexivity.
Defined.
End FurtherExamples.

(** ** More on built trees: size, errors of [classify], pure data *)

Lemma leaves_unfold (t : TreeNode) :
  leaves t =
  match children t with
  | [] => 1
  | _ :: _ => sum_children leaves (children t)
  end.
Proof.
  destruct t as [sf kids mc]. cbn [children].
  destruct kids as [|kd kids']; [reflexivity|].
  change (leaves (mkTreeNode sf (kd :: kids') mc))
    with ((fix sum (l : dict value (option TreeNode)) : nat :=
             match l with
             | [] => 0
             | (_, Some c) :: l' => leaves c + sum l'
             | (_, None) :: l' => sum l'
             end) (kd :: kids')).
  generalize (kd :: kids') as l.
  induction l as [|[v [c|]] l IH]; simpl; congruence.
Qed.

Lemma length_concat_map {A B : Type} (g : A -> list B) (l : list A) :
  List.length (List.concat (map g l)) =
  list_sum (map (fun x => List.length (g x)) l).
Proof.
  induction l as [|x l IH]; simpl; [reflexivity|].
  rewrite length_app, IH. reflexivity.
Qed.

Section BuiltTreeSize.
Context {P : Platform}.

Lemma build_tree_1_leaves (N : nat) (fuel : nat) :
  forall exs fs t,
    build_tree_1 fuel exs fs = Some (Ok t) ->
    table_ok N exs fs ->
    1 <= leaves t <= List.length exs.
Proof.
  induction fuel as [|fuel IH]; intros exs fs t Hb Hok; [discriminate|].
  pose proof Hok as ([Hnd Hdom] & Hidx & Hcov).
  destruct (build_tree_1_inv _ _ _ _ Hb Hdom)
    as (fuel' & [= <-] & Hmc & [Hleaf|Hsplit]).
  - destruct Hleaf as (_ & Hnil & _). rewrite leaves_unfold, Hnil.
    pose proof (majority_class_nonempty _ _ Hmc) as Hne.
    destruct exs; [contradiction | simpl; lia].
  - destruct (split_step_children _ _ _ _ _ Hok
                (majority_class_nonempty _ _ Hmc) Hsplit) as [_ Hkids_ne].
    destruct Hsplit
      as (_ & _ & rem & dom & _ & Hpop & Hget & Hkeys & _ & Hkids).
    apply dict_get_Z_In in Hget.
    assert (Hchild : forall v o, In (v, o) (children t) ->
              exists c, o = Some c /\
                1 <= leaves c <=
                List.length (filter (has_value (split_feature t) v) exs)).
    { intros v o Hin. destruct (Hkids v o Hin) as (c & sub & -> & Hsub & Hc).
      exists c. split; [reflexivity|].
      rewrite <- (filter_examples_filter _ _ _ _ Hsub).
      apply (IH sub rem c Hc).
      exact (table_ok_step _ _ _ _ _ _ _ Hok Hpop Hsub). }
    assert (Hsum : forall l, incl l (children t) ->
              sum_children leaves l <=
              list_sum (map (fun v => List.length
                               (filter (has_value (split_feature t) v) exs))
                          (dict_keys l)) /\
              (l <> [] -> 1 <= sum_children leaves l)).
    { induction l as [|[v o] l IHl]; intros Hincl.
      - simpl. split; [lia | congruence].
      - destruct (Hchild v o (Hincl _ (or_introl eq_refl))) as (c & -> & Hc).
        destruct IHl as [IHle _].
        { intros x Hx. apply Hincl. right. exact Hx. }
        simpl. split; [lia | intros _; lia]. }
    destruct (Hsum _ (incl_refl _)) as [Hle Hge].
    rewrite leaves_unfold.
    destruct (children t) as [|kd kids'] eqn:Ech; [contradiction|].
    split; [apply Hge; discriminate|].
    rewrite Hle, Hkeys, <- length_concat_map.
    apply Nat.eq_le_incl, Permutation_length.
    apply filter_partition; [exact (Hdom _ _ Hget)|].
    intros ex Hex. exact (Hcov _ _ ex Hget Hex).
Qed.

(** X16: a tree [build_tree] returned has at least one leaf and at most
    as many leaves as there are training examples. *)
Theorem build_tree_leaves_bound (examples : list example) (t : TreeNode) :
  build_tree examples = Some (Ok (Some t)) ->
  1 <= leaves t <= List.length examples.
Proof.
  intros Hb.
  destruct (build_tree_table _ _ Hb) as (fs & Hb1 & Hok & _).
  exact (build_tree_1_leaves _ _ _ _ _ Hb1 Hok).
Qed.

Lemma build_tree_1_classify_raises (N : nat) (instance : list value)
    (Hlong : N <= List.length instance) (fuel : nat) :
  forall exs fs t e,
    build_tree_1 fuel exs fs = Some (Ok t) ->
    table_ok N exs fs ->
    classify t instance = Raise e ->
    e = KeyError.
Proof.
  induction fuel as [|fuel IH]; intros exs fs t e Hb Hok Hcl; [discriminate|].
  pose proof Hok as ([Hnd Hdom] & Hidx & Hcov).
  destruct (build_tree_1_inv _ _ _ _ Hb Hdom)
    as (fuel' & [= <-] & _ & [(Hsf & _)|Hsplit]).
  { rewrite classify_unfold, Hsf in Hcl. discriminate. }
  destruct Hsplit as (_ & _ & rem & dom & _ & Hpop & Hget & _ & _ & Hkids).
  apply dict_get_Z_In in Hget.
  destruct (Hidx _ (dict_keys_In _ _ _ Hget)) as (i & Hi & Hsf).
  rewrite classify_unfold in Hcl.
  destruct (split_feature t =? -1)%Z; [discriminate|].
  destruct (py_index_nat_Ok instance i ltac:(lia)) as [x Hx].
  rewrite Hsf, Hx in Hcl. cbn [bind] in Hcl.
  destruct (dict_get String.eqb (children t) x) as [o|e'] eqn:Hlook;
    cbn [bind] in Hcl.
  - apply dict_get_Ok_In in Hlook.
    destruct (Hkids x o Hlook) as (c & sub & -> & Hsub & Hc).
    rewrite Hsf in Hsub, Hpop.
    exact (IH sub rem c e Hc (table_ok_step _ _ _ _ _ _ _ Hok Hpop Hsub) Hcl).
  - injection Hcl as <-. exact (dict_get_raises _ _ _ _ Hlook).
Qed.

(** X17: on a tree [build_tree] returned, an instance with a value for
    every feature column never makes [classify] raise [IndexError] or any
    exception other than [KeyError]: it returns a label, or it raises
    [KeyError] at a node that has no child for the instance's value. *)
Theorem classify_built_KeyError (examples : list example) (t : TreeNode)
    (instance : list value) :
  build_tree examples = Some (Ok (Some t)) ->
  n_features examples <= List.length instance ->
  (exists label, classify t instance = Ok label) \/
  classify t instance = Raise KeyError.
Proof.
  intros Hb Hlong.
  destruct (build_tree_table _ _ Hb) as (fs & Hb1 & Hok & _).
  destruct (classify t instance) as [label|e] eqn:Hcl; [eauto|right].
  f_equal.
  exact (build_tree_1_classify_raises _ _ Hlong _ _ _ _ _ Hb1 Hok Hcl).
Qed.

Lemma for_each_all_Ok {A S : Type} (body : S -> A -> result S) (l : list A) :
  (forall s x, In x l -> exists s', body s x = Ok s') ->
  forall s, exists s', for_each body l s = Ok s'.
Proof.
  induction l as [|x l IH]; simpl; intros H s; [eauto|].
  destruct (H s x (or_introl eq_refl)) as [s1 ->]. simpl.
  apply IH. intros s' y Hy. apply H. right. exact Hy.
Qed.

(** The feature table is collected whenever no row is too short. *)
Lemma collect_features_long (examples : list example) (n : nat) :
  (forall ex, In ex examples -> n <= List.length ex) ->
  exists fs, collect_features examples n = Ok fs.
Proof.
  intros Hlong. unfold collect_features. apply for_each_all_Ok.
  intros fs i Hi. apply in_seq in Hi.
  destruct (comprehension_all_Ok
              (fun ex : example => py_index ex (Z.of_nat i)) examples)
    as [col ->]; [|simpl; eauto].
  intros ex Hex. apply py_index_nat_Ok. specialize (Hlong ex Hex). lia.
Qed.

(** X18: from examples that all have the same label, in a table that is
    not ragged, [build_tree] returns a single leaf with that label, without
    looking at any feature, and [classify] then answers that label for
    every instance. *)
Theorem build_tree_pure (examples : list example) (c : value) :
  examples <> [] ->
  ~ ragged examples ->
  (forall ex, In ex examples -> py_index ex (-1) = Ok c) ->
  build_tree examples = Some (Ok (Some (mkTreeNode (-1) [] c))) /\
  forall instance, classify (mkTreeNode (-1) [] c) instance = Ok c.
Proof.
  intros Hne Hnr Hall. split; [|reflexivity].
  destruct examples as [|first rest]; [contradiction|].
  unfold build_tree.
  destruct (collect_features_long (first :: rest) (List.length first - 1))
    as [fs Hfs].
  { intros ex Hex.
    destruct (Nat.lt_ge_cases (List.length ex) (List.length first - 1))
      as [Hlt|Hge]; [|exact Hge].
    exfalso. apply Hnr. exists ex. split; [exact Hex|]. right. exact Hlt. }
  rewrite Hfs. unfold bbind. cbn [build_tree_1]. unfold bbind.
  assert (Hsame : same_class (first :: rest) = Ok true).
  { apply same_class_true_iff. split; [discriminate | eauto]. }
  assert (Hmaj : majority_class (first :: rest) = Ok c).
  { destruct (majority_class (first :: rest)) as [m|e] eqn:Hm.
    - destruct (majority_class_Ok _ _ Hm) as (classes & Hc & Hin & _).
      apply comprehension_Ok in Hc.
      destruct (Forall2_In_right _ _ _ _ Hc Hin) as (ex & Hex & Hlabel).
      rewrite (Hall ex Hex) in Hlabel. congruence.
    - exfalso.
      destruct (majority_class_raises _ _ Hm) as [[_ H0]|[_ H0]];
        [discriminate|].
      specialize (Hall [] H0). discriminate. }
  rewrite Hmaj, Hsame. reflexivity.
Qed.

(** X19: the feature table [build_tree] collects has the feature indexes
    0, 1, ... as keys, in increasing order, one for each column but the
    last of the first row; the domain of an index holds, without
    repetition, exactly the values the examples have in that column. *)
Theorem collect_features_spec (examples : list example) (n : nat)
    (fs : features_t) :
  collect_features examples n = Ok fs ->
  dict_keys fs = map Z.of_nat (seq 0 n) /\
  forall k dom, In (k, dom) fs ->
    NoDup dom /\ forall v, In v dom <-> observed examples k v.
Proof.
  intros H. destruct (collect_features_Ok _ _ _ H) as [Hkeys Hd].
  split; [exact Hkeys|]. intros k dom Hin.
  destruct (Hd k dom Hin) as (col & Hcol & ->).
  split; [apply set_order_NoDup|]. intros v.
  rewrite set_order_In. apply comprehension_Ok in Hcol. split.
  - intros Hv. destruct (Forall2_In_right _ _ _ _ Hcol Hv) as (ex & Hex & Hx).
    exists ex. auto.
  - intros (ex & Hex & Hx).
    destruct (Forall2_In_left _ _ _ _ Hcol Hex) as (y & Hy & Hxy).
    congruence.
Qed.
End BuiltTreeSize.

Section SizeAndErrorExamples.
Local Open Scope string_scope.

Lemma build_tree_leaves_bound_demo :
  1 <= leaves demo_tree <= List.length demo_examples.
Proof.
  apply (build_tree_leaves_bound demo_examples demo_tree).
  exact build_tree_demo.
Defined.

Lemma classify_built_KeyError_demo :
  (exists label, classify demo_tree ["Green"; "SUV"; "Domestic"] = Ok label) \/
  classify demo_tree ["Green"; "SUV"; "Domestic"] = Raise KeyError.
Proof.
  apply (classify_built_KeyError demo_examples demo_tree
           ["Green"; "SUV"; "Domestic"]).
  - exact build_tree_demo.
  - vm_compute. lia.
Defined.

Lemma build_tree_pure_two :
  build_tree pure_examples = Some (Ok (Some (mkTreeNode (-1) [] "Yes"))) /\
  forall instance, classify (mkTreeNode (-1) [] "Yes") instance = Ok "Yes".
Proof.
  apply (build_tree_pure pure_examples "Yes").
  - discriminate.
  - intros (e & He & Hbad). simpl in He.
    destruct He as [<-|[<-|[]]]; destruct Hbad as [Hnil|Hlt];
      try discriminate; vm_compute in Hlt; lia.
  - intros ex Hex. simpl in Hex.
    destruct Hex as [<-|[<-|[]]]; reflexivity.
Defined.

Lemma collect_features_spec_demo :
  dict_keys demo_features = map Z.of_nat (seq 0 3) /\
  forall k dom, In (k, dom) demo_features ->
    NoDup dom /\ forall v, In v dom <-> observed demo_examples k v.
Proof.
  apply (collect_features_spec demo_examples 3 demo_features).
  exact collect_features_demo.
Defined.
End SizeAndErrorExamples.
